(** * DCAM Live Viewer: recording buffer, save worker and single capture

    A shallow embedding of the recording and saving logic of [main.cpp]
    (the lambdas [startSaving], [stopSaving], the record hook installed with
    [grabber.setRecordHook], the [frameReady] slot, the capture button
    handler and the detached save thread), together with the file naming
    used for a saved sequence.

    Conventions.
    - [int] and [size_t] values are [Z]; the narrowing [static_cast<int>] is
      written out as [int_cast].
    - A [QString] is a list of characters.
    - [double] values are only carried around by the code modelled here
      (never computed with), so they are kept as an opaque payload.
    - [std::ceil(std::log10(x))] is taken on the exact real value. *)

From Stdlib Require Import ZArith Lia List Bool Ascii String Sorting.Sorted.
From stdpp Require Import base tactics option list strings.
Import ListNotations.

Local Open Scope Z_scope.

(** ** Text *)

Module Text.

Definition QString := list ascii.

Definition qstr (s : string) : QString := list_ascii_of_string s.

(** The character of a decimal digit [0 <= d < 10]. *)
Definition digit_char (d : Z) : ascii := ascii_of_N (Z.to_N (48 + d)).

(** Decimal digits of a number [n >= 0], most significant first. *)
Fixpoint digits_fuel (fuel : nat) (n : Z) : QString :=
  match fuel with
  | O => []
  | S f =>
      (if n / 10 =? 0 then [] else digits_fuel f (n / 10))
        ++ [digit_char (n mod 10)]
  end.

Definition decimal (n : Z) : QString :=
  digits_fuel (S (Z.to_nat (Z.log2 n))) n.

(** [QString::number(int)] in base 10. *)
Definition number_int (a : Z) : QString :=
  if a <? 0 then "-"%char :: decimal (- a) else decimal a.

(** Right alignment in a field of [fieldWidth >= 0] characters: the text is
    never truncated, the fill character goes to the left. *)
Definition pad_left (fill : ascii) (fieldWidth : Z) (s : QString) : QString :=
  repeat fill (Z.to_nat fieldWidth - length s)%nat ++ s.

(** [QString("%1").arg(a, fieldWidth, 10, fillChar)] for [fieldWidth >= 0]. *)
Definition arg_int (a : Z) (fieldWidth : Z) (fillChar : ascii) : QString :=
  pad_left fillChar fieldWidth (number_int a).

(** Exactly [w] decimal digits of [n] (the lowest [w] ones). *)
Fixpoint fixed_digits (w : nat) (n : Z) : QString :=
  match w with
  | O => []
  | S w' => fixed_digits w' (n / 10) ++ [digit_char (n mod 10)]
  end.

(** Reading a decimal numeral back: [None] on a non-digit or on no digit. *)
Definition digit_value (c : ascii) : option Z :=
  let k := Z.of_N (N_of_ascii c) in
  if (48 <=? k) && (k <=? 57) then Some (k - 48) else None.

Fixpoint parse_digits (acc : Z) (s : QString) : option Z :=
  match s with
  | [] => Some acc
  | c :: s' =>
      match digit_value c with
      | Some d => parse_digits (10 * acc + d) s'
      | None => None
      end
  end.

Definition parse_decimal (s : QString) : option Z :=
  match s with
  | [] => None
  | _ => parse_digits 0 s
  end.

(** Code-point order on texts, the order of [QDir::Name] on plain ASCII
    names. *)
Fixpoint lex_compare (a b : QString) : comparison :=
  match a, b with
  | [], [] => Eq
  | [], _ :: _ => Lt
  | _ :: _, [] => Gt
  | x :: a', y :: b' =>
      match Ascii.compare x y with
      | Eq => lex_compare a' b'
      | c => c
      end
  end.

Definition lex_lt (a b : QString) : Prop := lex_compare a b = Lt.

End Text.
Export Text.

(** ** Machine integers and the sequence width *)

Definition int_cast (z : Z) : Z := (z + 2 ^ 31) mod 2 ^ 32 - 2 ^ 31.

Definition INT_MAX : Z := 2 ^ 31 - 1.

(** [ceil(log10(n))] for [n >= 1]: the least [k] with [n <= 10^k], found by
    trying [k = 0, 1, ...]; [p] is [10^k]. *)
Fixpoint ceil_log10_from (fuel : nat) (k p n : Z) : Z :=
  match fuel with
  | O => k
  | S f => if n <=? p then k else ceil_log10_from f (k + 1) (10 * p) n
  end.

Definition ceil_log10 (n : Z) : Z :=
  ceil_log10_from (S (Z.to_nat (Z.log2_up n))) 0 1 n.

(** [std::max(6, static_cast<int>(std::ceil(std::log10(
      std::max<size_t>(1, frames->size())))))] *)
Definition index_width (size : Z) : Z :=
  Z.max 6 (int_cast (ceil_log10 (Z.max 1 size))).

(** [QString("%1.tiff").arg(static_cast<int>(i), width, 10, QChar('0'))] *)
Definition frame_file_name (width : Z) (i : Z) : QString :=
  arg_int (int_cast i) width "0"%char ++ qstr ".tiff".

(** The index a sequence file name stands for. *)
Definition file_name_index (name : QString) : option Z :=
  let n := (length name - 5)%nat in
  if decide (drop n name = qstr ".tiff")
  then parse_decimal (take n name)
  else None.

(** ** Data *)

(** A [double], carried but never computed with. *)
Inductive double := Double (payload : Z).

(** A [QImage]: either the null image or pixel data with its size.
    [QImage::copy()] makes a deep copy, an equal value. *)
Inductive QImage :=
| NullImage
| Image (w h : Z) (pixels : list Z).

Definition isNull (im : QImage) : bool :=
  match im with NullImage => true | Image _ _ _ => false end.

Definition copy (im : QImage) : QImage := im.

(** Modelled from the spec: [FrameMeta] is declared in [frame_types.h],
    which is not among the sources; these are the members the spec lists
    and [main.cpp] reads. *)
Record FrameMeta := mkFrameMeta {
  width : Z;
  height : Z;
  binning : double;
  bits : Z;
  frameIndex : Z;
  delivered : Z;
  dropped : Z;
  internalFps : double;
  readoutSpeed : double
}.

(** [FrameMeta lastMeta{}] *)
Definition FrameMeta_zero : FrameMeta :=
  mkFrameMeta 0 0 (Double 0) 0 0 0 0 (Double 0) (Double 0).

(** A [QDateTime] value as its calendar fields. *)
Record QDateTime := mkDateTime {
  year : Z; month : Z; day : Z;
  hour : Z; minute : Z; second : Z; msec : Z
}.

Definition zero_padded (fieldWidth : Z) (n : Z) : QString :=
  pad_left "0"%char fieldWidth (decimal n).

(** [toString("yyyyMMdd_hhmmss")] *)
Definition toString_yyyyMMdd_hhmmss (t : QDateTime) : QString :=
  zero_padded 4 (year t) ++ zero_padded 2 (month t) ++ zero_padded 2 (day t)
    ++ qstr "_"
    ++ zero_padded 2 (hour t) ++ zero_padded 2 (minute t)
    ++ zero_padded 2 (second t).

(** [toString("yyyyMMdd_hhmmss_zzz")] *)
Definition toString_yyyyMMdd_hhmmss_zzz (t : QDateTime) : QString :=
  toString_yyyyMMdd_hhmmss t ++ qstr "_" ++ zero_padded 3 (msec t).

(** [toString("yyyy-MM-dd hh:mm:ss.zzz")]; a default-constructed (null)
    [QDateTime] gives the empty text. *)
Definition toString_log (t : option QDateTime) : QString :=
  match t with
  | None => []
  | Some t =>
      zero_padded 4 (year t) ++ qstr "-" ++ zero_padded 2 (month t)
        ++ qstr "-" ++ zero_padded 2 (day t) ++ qstr " "
        ++ zero_padded 2 (hour t) ++ qstr ":" ++ zero_padded 2 (minute t)
        ++ qstr ":" ++ zero_padded 2 (second t) ++ qstr "."
        ++ zero_padded 3 (msec t)
  end.

(** [QDir(path).filePath(fileName)] for a relative, non-empty file name. *)
Definition filePath (path fileName : QString) : QString :=
  match last path with
  | Some "/"%char => path ++ fileName
  | _ => path ++ qstr "/" ++ fileName
  end.

(** What is streamed into a [QTextStream] with [<<]: one operand. *)
Inductive TextValue :=
| TStr (s : QString)
| TInt (z : Z)
| TReal (d : double).

(** A line of a text file: the operands streamed before its newline. *)
Definition TextLine := list TextValue.

(** Requests made to the disk, in the order they are made.  A request is
    recorded whether or not the file system honours it: [QImage::save]
    results are ignored by the save thread, and [WriteTextFile] stands for
    [QFile::open(WriteOnly | Text)] followed, when the file opened, by the
    streamed lines, [flush] and [close] (the guard has no other branch). *)
Inductive DiskOp :=
| MkPath (path : QString)
| SaveImage (path : QString) (im : QImage)
| WriteTextFile (path : QString) (lines : list TextLine).

(** Lines handed to [logMessage] (the time stamp it puts in front is left
    out).  [LogPixmap img] stands for what [ZoomImageView::updatePixmap]
    writes when the view is given [img]: the line with the size and scale
    of the pixmap, and before it one more when the size had to be clamped
    (the numbers come from the zoom, which is floating point). *)
Inductive LogEntry :=
| LogText (msg : QString)
| LogFrameStats (meta : FrameMeta) (fps : double)
| LogPixmap (img : QImage).

(** Calls queued to the GUI thread with [Qt::QueuedConnection]. *)
Inductive Posted :=
| SetProgress (v : Z)
| SetStatus (text : QString)
| HideDialog.

(** The modal "Saving..." dialog with its label and progress bar. *)
Record SavingDialog := mkDialog {
  dlgVisible : bool;
  dlgLabel : QString;
  progressMin : Z;
  progressMax : Z;
  progressValue : Z
}.

(** Values captured by the save thread's lambda. *)
Record SaveJob := mkJob {
  frames : list QImage;
  outDir : QString;
  totalFrames : Z;
  metaCopy : FrameMeta;
  expMsCopy : double;
  recordStartStr : QString
}.

(** Where a save thread stands: in its loop at index [i], or at one of the
    statements after it. *)
Inductive WorkerPc :=
| WLoop (i : nat)
| WLog
| WStatus
| WHide
| WClear.

Record Worker := mkWorker { job : SaveJob; wpc : WorkerPc }.

(** Where the GUI thread stands inside [startSaving] or [stopSaving]; each
    constructor names the statement to run next. *)
Inductive UiPc :=
| UiIdle
| Start_setFlag
| Start_lock
| Start_clear
| Start_unlock
| Start_resetCount
| Start_finish
| Stop_clearFlag
| Stop_lock
| Stop_swap
| Stop_unlock (taken : list QImage)
| Stop_finish (taken : list QImage).

(** Where the grabber thread stands inside the record hook. *)
Inductive HookPc :=
| HIdle
| H_lock (img : QImage)
| H_push (img : QImage)
| H_inc
| H_unlock.

(** What happened to [saveBuffer], oldest first.  Written by the steps
    below, read by none of them. *)
Inductive BufEvent :=
| Pushed (img : QImage)
| SwappedOut (taken : list QImage)
| Cleared (dropped : list QImage).

(** The variables shared between the threads. *)
Record Shared := mkShared {
  recording : bool;
  saving : bool;
  recordedFrames : Z;
  saveBuffer : list QImage;
  saveMutex : bool
}.

(** Variables and widgets of the GUI thread.  [saveInfoLabel] keeps the
    frame count shown (the elapsed seconds beside it, formatted from a
    [double], are left out), [statsLabel] the values shown. *)
Record Ui := mkUi {
  recordTimer : option QDateTime;
  recordStartTime : option QDateTime;
  lastFrame : QImage;
  lastMeta : FrameMeta;
  imageView : QImage;
  statsLabel : option (FrameMeta * double);
  statusLabel : QString;
  saveInfoLabel : Z;
  saveStartBtn : bool;
  saveStopBtn : bool;
  saveInfoTimer : bool;
  savePathEdit : QString;
  exposureSpin : double;
  logCheck : bool;
  savingDialog : option SavingDialog
}.

Record World := mkWorld {
  applicationDirPath : QString;
  disk : list DiskOp;
  sessionLog : list LogEntry;
  posted : list Posted
}.

Record App := mkApp {
  sh : Shared;
  ui : Ui;
  world : World;
  uiPc : UiPc;
  hookPc : HookPc;
  workers : list Worker;
  history : list BufEvent
}.

(** *** Field updates *)

Definition set_recording (v : bool) (a : App) : App :=
  mkApp (mkShared v (saving (sh a)) (recordedFrames (sh a)) (saveBuffer (sh
    a)) (saveMutex (sh a))) (ui a) (world a) (uiPc a) (hookPc a) (workers a)
    (history a).

Definition set_saving (v : bool) (a : App) : App :=
  mkApp (mkShared (recording (sh a)) v (recordedFrames (sh a)) (saveBuffer (sh
    a)) (saveMutex (sh a))) (ui a) (world a) (uiPc a) (hookPc a) (workers a)
    (history a).

Definition set_recordedFrames (v : Z) (a : App) : App :=
  mkApp (mkShared (recording (sh a)) (saving (sh a)) v (saveBuffer (sh a))
    (saveMutex (sh a))) (ui a) (world a) (uiPc a) (hookPc a) (workers a)
    (history a).

Definition set_saveBuffer (v : list QImage) (a : App) : App :=
  mkApp (mkShared (recording (sh a)) (saving (sh a)) (recordedFrames (sh a)) v
    (saveMutex (sh a))) (ui a) (world a) (uiPc a) (hookPc a) (workers a)
    (history a).

Definition set_saveMutex (v : bool) (a : App) : App :=
  mkApp (mkShared (recording (sh a)) (saving (sh a)) (recordedFrames (sh a))
    (saveBuffer (sh a)) v) (ui a) (world a) (uiPc a) (hookPc a) (workers a)
    (history a).

Definition set_recordTimer (v : option QDateTime) (a : App) : App :=
  mkApp (sh a) (mkUi v (recordStartTime (ui a)) (lastFrame (ui a)) (lastMeta
    (ui a)) (imageView (ui a)) (statsLabel (ui a)) (statusLabel (ui a))
    (saveInfoLabel (ui a)) (saveStartBtn (ui a)) (saveStopBtn (ui a))
    (saveInfoTimer (ui a)) (savePathEdit (ui a)) (exposureSpin (ui a))
    (logCheck (ui a)) (savingDialog (ui a))) (world a) (uiPc a) (hookPc a)
    (workers a) (history a).

Definition set_recordStartTime (v : option QDateTime) (a : App) : App :=
  mkApp (sh a) (mkUi (recordTimer (ui a)) v (lastFrame (ui a)) (lastMeta (ui
    a)) (imageView (ui a)) (statsLabel (ui a)) (statusLabel (ui a))
    (saveInfoLabel (ui a)) (saveStartBtn (ui a)) (saveStopBtn (ui a))
    (saveInfoTimer (ui a)) (savePathEdit (ui a)) (exposureSpin (ui a))
    (logCheck (ui a)) (savingDialog (ui a))) (world a) (uiPc a) (hookPc a)
    (workers a) (history a).

Definition set_lastFrame (v : QImage) (a : App) : App :=
  mkApp (sh a) (mkUi (recordTimer (ui a)) (recordStartTime (ui a)) v (lastMeta
    (ui a)) (imageView (ui a)) (statsLabel (ui a)) (statusLabel (ui a))
    (saveInfoLabel (ui a)) (saveStartBtn (ui a)) (saveStopBtn (ui a))
    (saveInfoTimer (ui a)) (savePathEdit (ui a)) (exposureSpin (ui a))
    (logCheck (ui a)) (savingDialog (ui a))) (world a) (uiPc a) (hookPc a)
    (workers a) (history a).

Definition set_lastMeta (v : FrameMeta) (a : App) : App :=
  mkApp (sh a) (mkUi (recordTimer (ui a)) (recordStartTime (ui a)) (lastFrame
    (ui a)) v (imageView (ui a)) (statsLabel (ui a)) (statusLabel (ui a))
    (saveInfoLabel (ui a)) (saveStartBtn (ui a)) (saveStopBtn (ui a))
    (saveInfoTimer (ui a)) (savePathEdit (ui a)) (exposureSpin (ui a))
    (logCheck (ui a)) (savingDialog (ui a))) (world a) (uiPc a) (hookPc a)
    (workers a) (history a).

Definition set_imageView (v : QImage) (a : App) : App :=
  mkApp (sh a) (mkUi (recordTimer (ui a)) (recordStartTime (ui a)) (lastFrame
    (ui a)) (lastMeta (ui a)) v (statsLabel (ui a)) (statusLabel (ui a))
    (saveInfoLabel (ui a)) (saveStartBtn (ui a)) (saveStopBtn (ui a))
    (saveInfoTimer (ui a)) (savePathEdit (ui a)) (exposureSpin (ui a))
    (logCheck (ui a)) (savingDialog (ui a))) (world a) (uiPc a) (hookPc a)
    (workers a) (history a).

Definition set_statsLabel (v : option (FrameMeta * double)) (a : App) : App :=
  mkApp (sh a) (mkUi (recordTimer (ui a)) (recordStartTime (ui a)) (lastFrame
    (ui a)) (lastMeta (ui a)) (imageView (ui a)) v (statusLabel (ui a))
    (saveInfoLabel (ui a)) (saveStartBtn (ui a)) (saveStopBtn (ui a))
    (saveInfoTimer (ui a)) (savePathEdit (ui a)) (exposureSpin (ui a))
    (logCheck (ui a)) (savingDialog (ui a))) (world a) (uiPc a) (hookPc a)
    (workers a) (history a).

Definition set_statusLabel (v : QString) (a : App) : App :=
  mkApp (sh a) (mkUi (recordTimer (ui a)) (recordStartTime (ui a)) (lastFrame
    (ui a)) (lastMeta (ui a)) (imageView (ui a)) (statsLabel (ui a)) v
    (saveInfoLabel (ui a)) (saveStartBtn (ui a)) (saveStopBtn (ui a))
    (saveInfoTimer (ui a)) (savePathEdit (ui a)) (exposureSpin (ui a))
    (logCheck (ui a)) (savingDialog (ui a))) (world a) (uiPc a) (hookPc a)
    (workers a) (history a).

Definition set_saveInfoLabel (v : Z) (a : App) : App :=
  mkApp (sh a) (mkUi (recordTimer (ui a)) (recordStartTime (ui a)) (lastFrame
    (ui a)) (lastMeta (ui a)) (imageView (ui a)) (statsLabel (ui a))
    (statusLabel (ui a)) v (saveStartBtn (ui a)) (saveStopBtn (ui a))
    (saveInfoTimer (ui a)) (savePathEdit (ui a)) (exposureSpin (ui a))
    (logCheck (ui a)) (savingDialog (ui a))) (world a) (uiPc a) (hookPc a)
    (workers a) (history a).

Definition set_saveStartBtn (v : bool) (a : App) : App :=
  mkApp (sh a) (mkUi (recordTimer (ui a)) (recordStartTime (ui a)) (lastFrame
    (ui a)) (lastMeta (ui a)) (imageView (ui a)) (statsLabel (ui a))
    (statusLabel (ui a)) (saveInfoLabel (ui a)) v (saveStopBtn (ui a))
    (saveInfoTimer (ui a)) (savePathEdit (ui a)) (exposureSpin (ui a))
    (logCheck (ui a)) (savingDialog (ui a))) (world a) (uiPc a) (hookPc a)
    (workers a) (history a).

Definition set_saveStopBtn (v : bool) (a : App) : App :=
  mkApp (sh a) (mkUi (recordTimer (ui a)) (recordStartTime (ui a)) (lastFrame
    (ui a)) (lastMeta (ui a)) (imageView (ui a)) (statsLabel (ui a))
    (statusLabel (ui a)) (saveInfoLabel (ui a)) (saveStartBtn (ui a)) v
    (saveInfoTimer (ui a)) (savePathEdit (ui a)) (exposureSpin (ui a))
    (logCheck (ui a)) (savingDialog (ui a))) (world a) (uiPc a) (hookPc a)
    (workers a) (history a).

Definition set_saveInfoTimer (v : bool) (a : App) : App :=
  mkApp (sh a) (mkUi (recordTimer (ui a)) (recordStartTime (ui a)) (lastFrame
    (ui a)) (lastMeta (ui a)) (imageView (ui a)) (statsLabel (ui a))
    (statusLabel (ui a)) (saveInfoLabel (ui a)) (saveStartBtn (ui a))
    (saveStopBtn (ui a)) v (savePathEdit (ui a)) (exposureSpin (ui a))
    (logCheck (ui a)) (savingDialog (ui a))) (world a) (uiPc a) (hookPc a)
    (workers a) (history a).

Definition set_savePathEdit (v : QString) (a : App) : App :=
  mkApp (sh a) (mkUi (recordTimer (ui a)) (recordStartTime (ui a)) (lastFrame
    (ui a)) (lastMeta (ui a)) (imageView (ui a)) (statsLabel (ui a))
    (statusLabel (ui a)) (saveInfoLabel (ui a)) (saveStartBtn (ui a))
    (saveStopBtn (ui a)) (saveInfoTimer (ui a)) v (exposureSpin (ui a))
    (logCheck (ui a)) (savingDialog (ui a))) (world a) (uiPc a) (hookPc a)
    (workers a) (history a).

Definition set_exposureSpin (v : double) (a : App) : App :=
  mkApp (sh a) (mkUi (recordTimer (ui a)) (recordStartTime (ui a)) (lastFrame
    (ui a)) (lastMeta (ui a)) (imageView (ui a)) (statsLabel (ui a))
    (statusLabel (ui a)) (saveInfoLabel (ui a)) (saveStartBtn (ui a))
    (saveStopBtn (ui a)) (saveInfoTimer (ui a)) (savePathEdit (ui a)) v
    (logCheck (ui a)) (savingDialog (ui a))) (world a) (uiPc a) (hookPc a)
    (workers a) (history a).

Definition set_logCheck (v : bool) (a : App) : App :=
  mkApp (sh a) (mkUi (recordTimer (ui a)) (recordStartTime (ui a)) (lastFrame
    (ui a)) (lastMeta (ui a)) (imageView (ui a)) (statsLabel (ui a))
    (statusLabel (ui a)) (saveInfoLabel (ui a)) (saveStartBtn (ui a))
    (saveStopBtn (ui a)) (saveInfoTimer (ui a)) (savePathEdit (ui a))
    (exposureSpin (ui a)) v (savingDialog (ui a))) (world a) (uiPc a) (hookPc
    a) (workers a) (history a).

Definition set_savingDialog (v : option SavingDialog) (a : App) : App :=
  mkApp (sh a) (mkUi (recordTimer (ui a)) (recordStartTime (ui a)) (lastFrame
    (ui a)) (lastMeta (ui a)) (imageView (ui a)) (statsLabel (ui a))
    (statusLabel (ui a)) (saveInfoLabel (ui a)) (saveStartBtn (ui a))
    (saveStopBtn (ui a)) (saveInfoTimer (ui a)) (savePathEdit (ui a))
    (exposureSpin (ui a)) (logCheck (ui a)) v) (world a) (uiPc a) (hookPc a)
    (workers a) (history a).

Definition set_applicationDirPath (v : QString) (a : App) : App :=
  mkApp (sh a) (ui a) (mkWorld v (disk (world a)) (sessionLog (world a))
    (posted (world a))) (uiPc a) (hookPc a) (workers a) (history a).

Definition set_disk (v : list DiskOp) (a : App) : App :=
  mkApp (sh a) (ui a) (mkWorld (applicationDirPath (world a)) v (sessionLog
    (world a)) (posted (world a))) (uiPc a) (hookPc a) (workers a) (history
    a).

Definition set_sessionLog (v : list LogEntry) (a : App) : App :=
  mkApp (sh a) (ui a) (mkWorld (applicationDirPath (world a)) (disk (world a))
    v (posted (world a))) (uiPc a) (hookPc a) (workers a) (history a).

Definition set_posted (v : list Posted) (a : App) : App :=
  mkApp (sh a) (ui a) (mkWorld (applicationDirPath (world a)) (disk (world a))
    (sessionLog (world a)) v) (uiPc a) (hookPc a) (workers a) (history a).

Definition set_uiPc (v : UiPc) (a : App) : App :=
  mkApp (sh a) (ui a) (world a) v (hookPc a) (workers a) (history a).

Definition set_hookPc (v : HookPc) (a : App) : App :=
  mkApp (sh a) (ui a) (world a) (uiPc a) v (workers a) (history a).

Definition set_workers (v : list Worker) (a : App) : App :=
  mkApp (sh a) (ui a) (world a) (uiPc a) (hookPc a) v (history a).

Definition set_history (v : list BufEvent) (a : App) : App :=
  mkApp (sh a) (ui a) (world a) (uiPc a) (hookPc a) (workers a) v.

(** ** Operations *)

(** [logLine]: [if (!logCheck->isChecked()) return; logMessage(msg);] *)
Definition logLine (entry : LogEntry) (a : App) : App :=
  if logCheck (ui a)
  then set_sessionLog (sessionLog (world a) ++ [entry]) a
  else a.

Definition setStatus (text : QString) (a : App) : App :=
  set_statusLabel text a.

Definition post (p : Posted) (a : App) : App :=
  set_posted (posted (world a) ++ [p]) a.

Definition request (op : DiskOp) (a : App) : App :=
  set_disk (disk (world a) ++ [op]) a.

Definition note (e : BufEvent) (a : App) : App :=
  set_history (history a ++ [e]) a.

(** [baseDir = savePathEdit->text(); if (baseDir.isEmpty())
     baseDir = QCoreApplication::applicationDirPath();] *)
Definition baseDir (a : App) : QString :=
  match savePathEdit (ui a) with
  | [] => applicationDirPath (world a)
  | text => text
  end.

(** [QProgressBar::setValue]: a value outside the range is ignored. *)
Definition setValue (v : Z) (d : SavingDialog) : SavingDialog :=
  if (progressMin d <=? v) && (v <=? progressMax d)
  then mkDialog (dlgVisible d) (dlgLabel d) (progressMin d) (progressMax d) v
  else d.

(** The state on entry to the event loop.  The default save directory and
    the start value of the exposure box come from outside. *)
Definition initial (appDir defaultSaveDir : QString) (exposure : double)
  : App :=
  mkApp
    (mkShared false false 0 [] false)
    (mkUi None None NullImage FrameMeta_zero NullImage None
       (qstr "Status: Not initialized") 0 true false false
       defaultSaveDir exposure true None)
    (mkWorld appDir [] [] [])
    UiIdle HIdle [] [].

(** *** The capture button *)

Definition captureClicked (now : QDateTime) (saved : bool) (a : App) : App :=
  if isNull (lastFrame (ui a)) then
    setStatus (qstr "No frame to capture") a
  else
    let dir := baseDir a in
    let a := request (MkPath dir) a in
    let fname := toString_yyyyMMdd_hhmmss_zzz now ++ qstr ".tiff" in
    let outPath := filePath dir fname in
    let a := request (SaveImage outPath (lastFrame (ui a))) a in
    if saved then
      let a := setStatus (qstr "Captured: " ++ fname) a in
      logLine (LogText (qstr "Captured frame to " ++ outPath)) a
    else
      setStatus (qstr "Capture failed") a.

(** *** The [frameReady] slot *)

(** [ZoomImageView::setImage]: a null image is ignored; otherwise the view
    keeps a copy and [updatePixmap] writes to the log, with [logMessage]
    itself and so whether the log box is checked or not. *)
Definition setImage (img : QImage) (a : App) : App :=
  if isNull img then a
  else
    set_sessionLog (sessionLog (world a) ++ [LogPixmap img])
      (set_imageView (copy img) a).

Definition frameReady (img : QImage) (meta : FrameMeta) (fps : double)
  (a : App) : App :=
  let a :=
    if negb (isNull img)
    then set_lastFrame img (setImage img a)
    else a in
  let a := set_lastMeta meta a in
  let a := set_statsLabel (Some (meta, fps)) a in
  if logCheck (ui a) && (Z.rem (frameIndex meta) 100 =? 0)
  then logLine (LogFrameStats meta fps) a
  else a.

(** *** The timer of the "Frames:" label *)

Definition saveInfoTick (a : App) : App :=
  if negb (recording (sh a)) then a
  else set_saveInfoLabel (recordedFrames (sh a)) a.

(** *** [startSaving] *)

(** The guard at the top: [if (saving.load()) { ...; return; }] *)
Definition startSaving_enter (a : App) : App :=
  if saving (sh a)
  then setStatus (qstr "Already saving to disk") a
  else set_uiPc Start_setFlag a.

(** *** [stopSaving] *)

(** The guard at the top: [if (!recording.load()) return;] *)
Definition stopSaving_enter (a : App) : App :=
  if negb (recording (sh a)) then a else set_uiPc Stop_clearFlag a.

(** The dialog, created on first use, then labelled, ranged and shown. *)
Definition show_savingDialog (total : Z) (a : App) : App :=
  let d :=
    match savingDialog (ui a) with
    | Some d => d
    | None => mkDialog false [] 0 100 (-1)
    end in
  let d :=
    mkDialog (dlgVisible d)
      (qstr "Saving " ++ number_int total ++ qstr " frames...")
      (progressMin d) (progressMax d) (progressValue d) in
  let d := mkDialog (dlgVisible d) (dlgLabel d) 0 (Z.max 0 total)
             (progressValue d) in
  let d := setValue 0 d in
  let d := mkDialog true (dlgLabel d) (progressMin d) (progressMax d)
             (progressValue d) in
  set_savingDialog (Some d) a.

(** From [if (frames->empty())] to the end of [stopSaving]. *)
Definition stopSaving_finish (now : QDateTime) (taken : list QImage)
  (a : App) : App :=
  match taken with
  | [] => set_uiPc UiIdle (setStatus (qstr "No frames to save") a)
  | _ :: _ =>
      let size := Z.of_nat (length taken) in
      let dir := baseDir a in
      let a := request (MkPath dir) a in
      let sub := toString_yyyyMMdd_hhmmss now in
      let out := filePath dir sub in
      let a := request (MkPath out) a in
      let a := set_saving true a in
      let a := setStatus (qstr "Saving to disk...") a in
      let a := logLine (LogText (qstr "Saving " ++ decimal size
                                   ++ qstr " frames to " ++ out)) a in
      let total := int_cast size in
      let a := show_savingDialog total a in
      let j := mkJob taken out total (lastMeta (ui a)) (exposureSpin (ui a))
                 (toString_log (recordStartTime (ui a))) in
      let a := set_workers (workers a ++ [mkWorker j (WLoop 0)]) a in
      set_uiPc UiIdle a
  end.

(** One statement of the handler the GUI thread is in.  [None]: the thread
    is idle, or waits for [saveMutex]. *)
Definition ui_step (now : QDateTime) (a : App) : option App :=
  match uiPc a with
  | UiIdle => None
  | Start_setFlag =>
      Some (set_uiPc Start_lock (set_recording true a))
  | Start_lock =>
      if saveMutex (sh a) then None
      else Some (set_uiPc Start_clear (set_saveMutex true a))
  | Start_clear =>
      Some (set_uiPc Start_unlock
              (note (Cleared (saveBuffer (sh a))) (set_saveBuffer [] a)))
  | Start_unlock =>
      Some (set_uiPc Start_resetCount (set_saveMutex false a))
  | Start_resetCount =>
      Some (set_uiPc Start_finish (set_recordedFrames 0 a))
  | Start_finish =>
      let a := set_recordTimer (Some now) a in
      let a := set_recordStartTime (Some now) a in
      let a := set_saveStartBtn false a in
      let a := set_saveStopBtn true a in
      let a := logLine (LogText (qstr "Recording started")) a in
      let a := setStatus (qstr "Recording...") a in
      let a := set_saveInfoLabel 0 a in
      let a := set_saveInfoTimer true a in
      Some (set_uiPc UiIdle a)
  | Stop_clearFlag =>
      let a := set_recording false a in
      let a := set_saveStartBtn true a in
      let a := set_saveStopBtn false a in
      let a := set_saveInfoTimer false a in
      Some (set_uiPc Stop_lock a)
  | Stop_lock =>
      if saveMutex (sh a) then None
      else Some (set_uiPc Stop_swap (set_saveMutex true a))
  | Stop_swap =>
      let taken := saveBuffer (sh a) in
      Some (set_uiPc (Stop_unlock taken)
              (note (SwappedOut taken) (set_saveBuffer [] a)))
  | Stop_unlock taken =>
      Some (set_uiPc (Stop_finish taken) (set_saveMutex false a))
  | Stop_finish taken =>
      Some (stopSaving_finish now taken a)
  end.

(** The GUI thread running on its own until it is idle again (or has to
    wait). *)
Fixpoint ui_run (fuel : nat) (now : QDateTime) (a : App) : App :=
  match fuel with
  | O => a
  | S f =>
      match ui_step now a with
      | Some a' => ui_run f now a'
      | None => a
      end
  end.

Definition startSaving (now : QDateTime) (a : App) : App :=
  ui_run 6 now (startSaving_enter a).

Definition stopSaving (now : QDateTime) (a : App) : App :=
  ui_run 5 now (stopSaving_enter a).

(** *** The record hook *)

(** [if (!recording.load()) return;] *)
Definition hook_call (img : QImage) (a : App) : App :=
  if negb (recording (sh a)) then a else set_hookPc (H_lock img) a.

Definition hook_step (a : App) : option App :=
  match hookPc a with
  | HIdle => None
  | H_lock img =>
      if saveMutex (sh a) then None
      else Some (set_hookPc (H_push img) (set_saveMutex true a))
  | H_push img =>
      Some (set_hookPc H_inc
              (note (Pushed (copy img))
                 (set_saveBuffer (saveBuffer (sh a) ++ [copy img]) a)))
  | H_inc =>
      Some (set_hookPc H_unlock
              (set_recordedFrames (int_cast (recordedFrames (sh a) + 1)) a))
  | H_unlock =>
      Some (set_hookPc HIdle (set_saveMutex false a))
  end.

(** The hook running on its own, from its call to its return. *)
Fixpoint hook_run (fuel : nat) (a : App) : App :=
  match fuel with
  | O => a
  | S f =>
      match hook_step a with
      | Some a' => hook_run f a'
      | None => a
      end
  end.

Definition recordHook (img : QImage) (a : App) : App :=
  hook_run 4 (hook_call img a).

(** *** The save thread *)

Definition capture_info (j : SaveJob) : list TextLine :=
  [ [TStr (qstr "Start: "); TStr (recordStartStr j)];
    [TStr (qstr "Frames: "); TInt (Z.of_nat (length (frames j)))];
    [TStr (qstr "Resolution: "); TInt (width (metaCopy j));
     TStr (qstr " x "); TInt (height (metaCopy j))];
    [TStr (qstr "Binning: "); TReal (binning (metaCopy j))];
    [TStr (qstr "Bits: "); TInt (bits (metaCopy j))];
    [TStr (qstr "Exposure(ms): "); TReal (expMsCopy j)];
    [TStr (qstr "Internal FPS: "); TReal (internalFps (metaCopy j))];
    [TStr (qstr "Readout speed: "); TReal (readoutSpeed (metaCopy j))] ].

Definition frame_path (j : SaveJob) (i : Z) : QString :=
  outDir j ++ qstr "/"
    ++ frame_file_name (index_width (Z.of_nat (length (frames j)))) i.

Definition info_path (j : SaveJob) : QString :=
  outDir j ++ qstr "/capture_info.txt".

(** The test of the progress update:
    [i % 100 == 0 || i + 1 == frames->size()] (the pointer [savingProgress]
    the thread also tests was set before the thread was made). *)
Definition progress_due (size i : Z) : bool :=
  (i mod 100 =? 0) || (i + 1 =? size).

(** One step of a save thread: one turn of its loop, or one of the
    statements after the loop.  The thread is gone after its last step.
    ([frames->at(i)] cannot be out of range under the loop test.) *)
Definition worker_step (w : Worker) (a : App) : option Worker * App :=
  let j := job w in
  let size := Z.of_nat (length (frames j)) in
  match wpc w with
  | WLoop n =>
      let i := Z.of_nat n in
      if i <? size then
        match frames j !! n with
        | Some im =>
            let a := request (SaveImage (frame_path j i) im) a in
            let a :=
              if progress_due size i
              then post (SetProgress (int_cast (i + 1))) a
              else a in
            (Some (mkWorker j (WLoop (S n))), a)
        | None => (None, a)
        end
      else
        (Some (mkWorker j WLog),
         request (WriteTextFile (info_path j) (capture_info j)) a)
  | WLog =>
      (Some (mkWorker j WStatus),
       logLine (LogText (qstr "Saved " ++ decimal size ++ qstr " frames to "
                           ++ outDir j)) a)
  | WStatus =>
      (Some (mkWorker j WHide), post (SetStatus (qstr "Save complete")) a)
  | WHide =>
      (Some (mkWorker j WClear), post HideDialog a)
  | WClear =>
      (None, set_saving false a)
  end.

(** A save thread running on its own. *)
Fixpoint worker_run (fuel : nat) (w : Worker) (a : App)
  : option Worker * App :=
  match fuel with
  | O => (Some w, a)
  | S f =>
      match worker_step w a with
      | (Some w', a') => worker_run f w' a'
      | (None, a') => (None, a')
      end
  end.

(** Steps a thread started on [j] needs to finish. *)
Definition worker_steps (j : SaveJob) : nat := (length (frames j) + 5)%nat.

(** *** The event loop of the GUI thread *)

(** What the idle GUI thread can be given to do: clicks on the save and
    capture buttons, the [frameReady] signal, the timer of the info label,
    edits of the save path, the exposure box and the log check box, a call
    queued by a save thread, the "Saving..." dialog closed by hand (Esc or
    its close button, which hide a [QDialog]), and [OtherStatus] for the
    handlers left out here (init, start, stop, apply, reconnect), which
    write the status label. *)

Inductive UiEvent :=
| ClickSaveStart
| ClickSaveStop
| ClickCapture (saved : bool)
| FrameReady (img : QImage) (meta : FrameMeta) (fps : double)
| SaveInfoTick
| EditSavePath (text : QString)
| EditExposure (v : double)
| ToggleLogCheck (b : bool)
| DeliverPosted
| CloseSavingDialog
| OtherStatus (text : QString).

(** A visible modal dialog keeps clicks and edits away from the window. *)
Definition accepts_input (a : App) : bool :=
  match savingDialog (ui a) with
  | Some d => negb (dlgVisible d)
  | None => true
  end.

Definition deliver (p : Posted) (a : App) : App :=
  match p with
  | SetProgress v =>
      set_savingDialog (setValue v <$> savingDialog (ui a)) a
  | SetStatus text => setStatus text a
  | HideDialog =>
      set_savingDialog
        ((fun d => mkDialog false (dlgLabel d) (progressMin d)
                     (progressMax d) (progressValue d))
           <$> savingDialog (ui a)) a
  end.

(** An event taken from the queue by the idle GUI thread.  [None]: the
    event cannot occur in this state. *)
Definition ui_event (now : QDateTime) (e : UiEvent) (a : App) : option App :=
  match uiPc a with
  | UiIdle =>
      match e with
      | ClickSaveStart =>
          if accepts_input a && saveStartBtn (ui a)
          then Some (startSaving_enter a) else None
      | ClickSaveStop =>
          if accepts_input a && saveStopBtn (ui a)
          then Some (stopSaving_enter a) else None
      | ClickCapture saved =>
          if accepts_input a then Some (captureClicked now saved a) else None
      | FrameReady img meta fps => Some (frameReady img meta fps a)
      | SaveInfoTick =>
          if saveInfoTimer (ui a) then Some (saveInfoTick a) else None
      | EditSavePath text =>
          if accepts_input a then Some (set_savePathEdit text a) else None
      | EditExposure v =>
          if accepts_input a then Some (set_exposureSpin v a) else None
      | ToggleLogCheck b =>
          if accepts_input a then Some (set_logCheck b a) else None
      | DeliverPosted =>
          match posted (world a) with
          | [] => None
          | p :: rest => Some (deliver p (set_posted rest a))
          end
      | CloseSavingDialog =>
          match savingDialog (ui a) with
          | Some d =>
              if dlgVisible d
              then Some (set_savingDialog
                           (Some (mkDialog false (dlgLabel d) (progressMin d)
                                    (progressMax d) (progressValue d))) a)
              else None
          | None => None
          end
      | OtherStatus text => Some (setStatus text a)
      end
  | _ => None
  end.

(** *** The three kinds of threads together *)

(** Modelled from the spec: [FrameGrabber] ([frame_grabber.h]) is not among
    the sources.  As the spec has it, the record hook is called inline on
    the acquisition thread for every acquired frame, one call at a time,
    and [frameReady] reaches the GUI thread as a queued event.  The GUI
    thread runs one handler at a time; a save thread is the detached
    [std::thread] of [stopSaving]. *)

Inductive Action :=
| AUiEvent (now : QDateTime) (e : UiEvent)
| AUiStep (now : QDateTime)
| AHookCall (img : QImage)
| AHookStep
| AWorkerStep (k : nat).

Definition step (act : Action) (a : App) : option App :=
  match act with
  | AUiEvent now e => ui_event now e a
  | AUiStep now => ui_step now a
  | AHookCall img =>
      match hookPc a with
      | HIdle => Some (hook_call img a)
      | _ => None
      end
  | AHookStep => hook_step a
  | AWorkerStep k =>
      match workers a !! k with
      | None => None
      | Some w =>
          match worker_step w a with
          | (Some w', a') => Some (set_workers (<[k := w']> (workers a')) a')
          | (None, a') => Some (set_workers (delete k (workers a')) a')
          end
      end
  end.

(** A schedule run from a state; [None] when one of its actions cannot
    occur. *)
Fixpoint run (sched : list Action) (a : App) : option App :=
  match sched with
  | [] => Some a
  | act :: rest =>
      match step act a with
      | Some a' => run rest a'
      | None => None
      end
  end.

Inductive reachable : App -> Prop :=
| reachable_initial appDir defaultSaveDir exposure :
    reachable (initial appDir defaultSaveDir exposure)
| reachable_step a act a' :
    reachable a -> step act a = Some a' -> reachable a'.

(** *** Reading the buffer history *)

Definition pushed_of (h : list BufEvent) : list QImage :=
  flat_map (fun e => match e with Pushed img => [img] | _ => [] end) h.

Definition removed_of (h : list BufEvent) : list QImage :=
  flat_map (fun e =>
              match e with
              | Pushed _ => []
              | SwappedOut taken => taken
              | Cleared dropped => dropped
              end) h.

(** ** Notions used in the statements *)

(** [c] is [ceil(log10(n))]: the least exponent [c >= 0] with [n <= 10^c]. *)
Definition is_ceil_log10 (n c : Z) : Prop :=
  0 <= c /\ n <= 10 ^ c /\ forall k, 0 <= k -> n <= 10 ^ k -> c <= k.

(** What a save thread does after its loop, statement by statement. *)
Definition after_loop (j : SaveJob) (a : App) : App :=
  let a := request (WriteTextFile (info_path j) (capture_info j)) a in
  let a := logLine (LogText (qstr "Saved "
                               ++ decimal (Z.of_nat (length (frames j)))
                               ++ qstr " frames to " ++ outDir j)) a in
  let a := post (SetStatus (qstr "Save complete")) a in
  let a := post HideDialog a in
  set_saving false a.

(** Nothing of the recording session or of a running save has changed
    between [a] and [a']: the shared variables, the threads, the buffer
    history, the session start, the save buttons and dialog, the queue. *)
Definition session_unchanged (a a' : App) : Prop :=
  sh a' = sh a /\ uiPc a' = uiPc a /\ hookPc a' = hookPc a
  /\ workers a' = workers a /\ history a' = history a
  /\ recordStartTime (ui a') = recordStartTime (ui a)
  /\ recordTimer (ui a') = recordTimer (ui a)
  /\ saveStartBtn (ui a') = saveStartBtn (ui a)
  /\ saveStopBtn (ui a') = saveStopBtn (ui a)
  /\ saveInfoTimer (ui a') = saveInfoTimer (ui a)
  /\ savingDialog (ui a') = savingDialog (ui a)
  /\ posted (world a') = posted (world a).

(** The job [stopSaving] hands to the thread it starts at [now] in [a],
    for the frames [taken] out of the buffer. *)
Definition job_of (now : QDateTime) (taken : list QImage) (a : App)
  : SaveJob :=
  mkJob taken
    (filePath (baseDir a) (toString_yyyyMMdd_hhmmss now))
    (int_cast (Z.of_nat (length taken)))
    (lastMeta (ui a)) (exposureSpin (ui a))
    (toString_log (recordStartTime (ui a))).

(** *** The invariant of the three threads *)

Definition in_start (pc : UiPc) : bool :=
  match pc with
  | Start_setFlag | Start_lock | Start_clear | Start_unlock
  | Start_resetCount | Start_finish => true
  | _ => false
  end.

(** In [startSaving], after [recording = true]. *)
Definition start_flag_set (pc : UiPc) : bool :=
  match pc with
  | Start_lock | Start_clear | Start_unlock | Start_resetCount
  | Start_finish => true
  | _ => false
  end.

(** In [stopSaving], after [recording = false]. *)
Definition stop_flag_cleared (pc : UiPc) : bool :=
  match pc with
  | Stop_lock | Stop_swap | Stop_unlock _ | Stop_finish _ => true
  | _ => false
  end.

(** The GUI thread is between locking and unlocking [saveMutex]. *)
Definition ui_in_critical (pc : UiPc) : bool :=
  match pc with
  | Start_clear | Start_unlock | Stop_swap | Stop_unlock _ => true
  | _ => false
  end.

(** The grabber thread is between locking and unlocking [saveMutex]. *)
Definition hook_in_critical (pc : HookPc) : bool :=
  match pc with
  | H_push _ | H_inc | H_unlock => true
  | _ => false
  end.

Record Inv (a : App) : Prop := mkInv {
  inv_flags : saving (sh a) = true -> recording (sh a) = false;
  inv_handler : uiPc a <> UiIdle -> saving (sh a) = false;
  inv_start : start_flag_set (uiPc a) = true -> recording (sh a) = true;
  inv_stop : stop_flag_cleared (uiPc a) = true -> recording (sh a) = false;
  inv_workers :
    (saving (sh a) = false /\ workers a = [])
    \/ (saving (sh a) = true /\ exists w, workers a = [w]);
  inv_mutex :
    saveMutex (sh a)
    = ui_in_critical (uiPc a) || hook_in_critical (hookPc a);
  inv_exclusion :
    ui_in_critical (uiPc a) && hook_in_critical (hookPc a) = false;
  inv_buttons :
    if in_start (uiPc a)
    then saveStartBtn (ui a) = true /\ saveStopBtn (ui a) = false
    else saveStartBtn (ui a) = negb (recording (sh a))
         /\ saveStopBtn (ui a) = recording (sh a);
  inv_history :
    pushed_of (history a) = removed_of (history a) ++ saveBuffer (sh a);
  inv_view : lastFrame (ui a) = imageView (ui a)
}.

(** What happened to the buffer between [a] and [a'], as the piece [d] of
    history added: what was buffered in [a] followed by what was pushed is
    what was taken out (handed to a save or cleared) followed by what is
    buffered in [a']. *)
Definition buffer_change (a a' : App) (d : list BufEvent) : Prop :=
  history a' = history a ++ d
  /\ saveBuffer (sh a) ++ pushed_of d = removed_of d ++ saveBuffer (sh a').

(** Calendar fields in their ranges. *)
Definition well_formed_time (t : QDateTime) : Prop :=
  0 <= year t < 10000 /\ 0 <= month t < 100 /\ 0 <= day t < 100
  /\ 0 <= hour t < 100 /\ 0 <= minute t < 100 /\ 0 <= second t < 100
  /\ 0 <= msec t < 1000.

(** *** Example runs *)

Definition time0 : QDateTime := mkDateTime 2024 3 5 14 7 9 42.
Definition time1 : QDateTime := mkDateTime 2024 3 5 14 7 19 500.
Definition time2 : QDateTime := mkDateTime 2024 3 5 14 7 20 0.

Definition frameA : QImage := Image 2 1 [10; 20].
Definition frameB : QImage := Image 2 1 [30; 40].

Definition app0 : App := initial (qstr "C:/app") (qstr "C:/data") (Double 10).

(** A click on "Start Save" and [startSaving] run to its end. *)
Definition start_schedule (now : QDateTime) : list Action :=
  AUiEvent now ClickSaveStart :: repeat (AUiStep now) 6.

(** A click on "Stop Save" and [stopSaving] run to its end. *)
Definition stop_schedule (now : QDateTime) : list Action :=
  AUiEvent now ClickSaveStop :: repeat (AUiStep now) 5.

(** One call of the record hook, from the flag check to the unlock. *)
Definition hook_schedule (img : QImage) : list Action :=
  AHookCall img :: repeat AHookStep 4.

(** A session open with one frame buffered, every thread idle. *)
Definition app_recording : App := recordHook frameA (startSaving time0 app0).

(** The same session stopped: its save thread has just been started. *)
Definition app_saving : App := stopSaving time1 app_recording.

(** "Start Save" clicked while frames arrive: the hook is called for
    [frameA] after [startSaving] has set the flag and cleared the buffer,
    and returns before [startSaving] resets the counter. *)
Definition start_race_schedule : list Action :=
  [AUiEvent time0 ClickSaveStart;
   AUiStep time0; AUiStep time0; AUiStep time0; AUiStep time0]
  ++ hook_schedule frameA
  ++ [AUiStep time0; AUiStep time0].

(** A session is open with nothing buffered yet.  A hook call for [frameB]
    passes its flag check; [stopSaving] runs to its end and finds no frame;
    the hook then pushes [frameB]; [startSaving] runs to its end. *)
Definition stop_then_start_schedule : list Action :=
  start_schedule time0
  ++ [AHookCall frameB]
  ++ stop_schedule time1
  ++ repeat AHookStep 4
  ++ start_schedule time2.

(** A hook call for [frameB] passes its flag check, then [stopSaving] runs
    to its end and the save thread writes its first file; the hook then
    takes the mutex. *)
Definition late_append_schedule : list Action :=
  start_schedule time0 ++ hook_schedule frameA
  ++ [AHookCall frameB]
  ++ stop_schedule time1
  ++ [AWorkerStep 0; AHookStep].

(** ** The recording threads, continued *)

(** Steps a save thread still has to make before it is gone. *)
Definition worker_remaining (w : Worker) : nat :=
  match wpc w with
  | WLoop n => (length (frames (job w)) - n) + 5
  | WLog => 4
  | WStatus => 3
  | WHide => 2
  | WClear => 1
  end.

(** The progress calls a save thread queues in the turns [from],
    [from + 1], ..., [from + count - 1] of its loop over [size] frames. *)
Definition progress_posts (size : Z) (from count : nat) : list Posted :=
  flat_map
    (fun n =>
       if progress_due size (Z.of_nat n)
       then [SetProgress (int_cast (Z.of_nat n + 1))]
       else [])
    (seq from count).

(** A handler of the GUI thread from its event to its end, a call of the
    record hook from its flag check to its return, or one step of a save
    thread: the runs in which handlers and hook calls do not overlap. *)
Inductive Whole :=
| WholeUi (now : QDateTime) (e : UiEvent)
| WholeHook (img : QImage)
| WholeWorker (k : nat).

Definition whole_step (act : Whole) (a : App) : option App :=
  match act with
  | WholeUi now e => ui_run 6 now <$> ui_event now e a
  | WholeHook img =>
      match hookPc a with
      | HIdle => Some (recordHook img a)
      | _ => None
      end
  | WholeWorker k => step (AWorkerStep k) a
  end.

Inductive reachable_whole : App -> Prop :=
| reachable_whole_initial appDir defaultSaveDir exposure :
    reachable_whole (initial appDir defaultSaveDir exposure)
| reachable_whole_step a act a' :
    reachable_whole a -> whole_step act a = Some a' -> reachable_whole a'.

(** The hook called for each image of a list in turn, each call running
    to its return before the next. *)
Definition recordHook_all (imgs : list QImage) (a : App) : App :=
  fold_left (fun a img => recordHook img a) imgs a.

(** A session with 150 frames in the buffer. *)
Definition app_recording_long : App :=
  recordHook_all (repeat frameA 150) (startSaving time0 app0).


(** The image in [lastFrame] after an action, given the one before: only
    the [frameReady] slot stores one, and only an image that is not
    null. *)
Definition frame_shown (act : Action) (before : QImage) : QImage :=
  match act with
  | AUiEvent _ (FrameReady img _ _) => if isNull img then before else img
  | _ => before
  end.

Definition last_shown (sched : list Action) (before : QImage) : QImage :=
  fold_left (fun im act => frame_shown act im) sched before.

(** ** The capture viewer

    [formatTimeSeconds] and the class [ViewerWindow] of [main.cpp]: the
    frame files of a capture folder, the slider over them with the
    buttons and shortcuts that move it, the labels, and the list of recent
    folders.  Of [ZoomImageView] only the image it was last given is kept
    (its zoom is floating point throughout).  The floating-point
    operations applied to times and the file system are taken from
    outside. *)

Module Viewer.

Record Env := mkEnv {
  negative : double -> bool;
    (* [seconds < 0] *)
  lround_ms : double -> Z;
    (* [std::lround(seconds * 1000.0)] *)
  not_positive : double -> bool;
    (* [fps <= 0.0] *)
  per_fps : Z -> double -> double;
    (* [static_cast<double>(n) / fps] *)
  dir_exists : QString -> bool;
    (* [QDir(dirPath).exists()] *)
  absolutePath : QString -> QString;
    (* [QDir(dirPath).absolutePath()] *)
  files_in : QString -> list QString;
    (* names of the files of a directory that are not hidden, as the
       system lists them *)
  read_image : QString -> QImage;
    (* [QImageReader(path).read()] with auto transform, null on failure *)
  errorString : QString -> QString;
    (* [reader.errorString()] after reading that path *)
  readFpsFromInfo : QString -> double
    (* the last "Internal FPS:" or "FPS:" value of the file, 0.0 without *)
}.

(** *** [formatTimeSeconds] *)

(** [/] and [%] on [int] round towards zero: [Z.quot] and [Z.rem]. *)
Definition formatTimeSeconds (env : Env) (seconds : double) : QString :=
  let seconds := if negative env seconds then Double 0 else seconds in
  let totalMs := int_cast (lround_ms env seconds) in
  let ms := Z.rem totalMs 1000 in
  let totalSec := Z.quot totalMs 1000 in
  let s := Z.rem totalSec 60 in
  let totalMin := Z.quot totalSec 60 in
  let m := Z.rem totalMin 60 in
  let h := Z.quot totalMin 60 in
  if 0 <? h then
    arg_int h 2 "0"%char ++ qstr ":" ++ arg_int m 2 "0"%char ++ qstr ":"
      ++ arg_int s 2 "0"%char ++ qstr "." ++ arg_int ms 3 "0"%char
  else
    arg_int m 2 "0"%char ++ qstr ":" ++ arg_int s 2 "0"%char ++ qstr "."
      ++ arg_int ms 3 "0"%char.

(** *** Listing a directory *)

Definition to_lower (c : ascii) : ascii :=
  let k := N_of_ascii c in
  if ((65 <=? k) && (k <=? 90))%N then ascii_of_N (k + 32) else c.

(** A name filter of [QDir::entryList], for the two shapes there are here:
    [*suffix] and a plain name.  Without [QDir::CaseSensitive] among the
    filter flags the match is made without regard to case. *)
Definition wildcard_match (pattern name : QString) : bool :=
  match pattern with
  | "*"%char :: suffix =>
      bool_decide (map to_lower (drop (length name - length suffix) name)
                   = map to_lower suffix)
  | _ => bool_decide (map to_lower name = map to_lower pattern)
  end.

(** The order of [QDir::Name] (without [QDir::IgnoreCase] and
    [QDir::LocaleAware]): plain comparison of the names. *)
Definition name_le (a b : QString) : bool :=
  match lex_compare a b with Gt => false | _ => true end.

Fixpoint insert_name (x : QString) (l : list QString) : list QString :=
  match l with
  | [] => [x]
  | y :: l' => if name_le x y then x :: l else y :: insert_name x l'
  end.

Definition sort_names (l : list QString) : list QString :=
  foldr insert_name [] l.

(** [QDir::entryList(filters, QDir::Files, QDir::Name)] over the files
    [names] of the directory. *)
Definition entryList (filters names : list QString) : list QString :=
  sort_names
    (List.filter (fun n => existsb (fun f => wildcard_match f n) filters)
       names).

(** *** The window *)

(** A [QSlider]: range, value, and whether it is enabled. *)
Record QSlider := mkSlider {
  minimum : Z;
  maximum : Z;
  value : Z;
  sliderEnabled : bool
}.

Record Viewer := mkViewer {
  frameFiles : list QString;
  fps : double;
  slider : QSlider;
  prevBtn : bool;
  nextBtn : bool;
  imageView : QImage;
  frameLabel : QString;
  timeLabel : QString;
  folderEdit : QString;
  recentCombo : list QString;
  recentFolders : list QString;
    (* the value of "viewer/recentFolders" in the settings *)
  warnings : list (QString * QString)
    (* the message boxes shown so far: title and text *)
}.

Definition set_frameFiles (v : list QString) (w : Viewer) : Viewer :=
  mkViewer v (fps w) (slider w) (prevBtn w) (nextBtn w) (imageView w)
    (frameLabel w) (timeLabel w) (folderEdit w) (recentCombo w)
    (recentFolders w) (warnings w).

Definition set_fps (v : double) (w : Viewer) : Viewer :=
  mkViewer (frameFiles w) v (slider w) (prevBtn w) (nextBtn w) (imageView w)
    (frameLabel w) (timeLabel w) (folderEdit w) (recentCombo w)
    (recentFolders w) (warnings w).

Definition set_slider (v : QSlider) (w : Viewer) : Viewer :=
  mkViewer (frameFiles w) (fps w) v (prevBtn w) (nextBtn w) (imageView w)
    (frameLabel w) (timeLabel w) (folderEdit w) (recentCombo w)
    (recentFolders w) (warnings w).

Definition set_prevBtn (v : bool) (w : Viewer) : Viewer :=
  mkViewer (frameFiles w) (fps w) (slider w) v (nextBtn w) (imageView w)
    (frameLabel w) (timeLabel w) (folderEdit w) (recentCombo w)
    (recentFolders w) (warnings w).

Definition set_nextBtn (v : bool) (w : Viewer) : Viewer :=
  mkViewer (frameFiles w) (fps w) (slider w) (prevBtn w) v (imageView w)
    (frameLabel w) (timeLabel w) (folderEdit w) (recentCombo w)
    (recentFolders w) (warnings w).

Definition set_imageView (v : QImage) (w : Viewer) : Viewer :=
  mkViewer (frameFiles w) (fps w) (slider w) (prevBtn w) (nextBtn w) v
    (frameLabel w) (timeLabel w) (folderEdit w) (recentCombo w)
    (recentFolders w) (warnings w).

Definition set_frameLabel (v : QString) (w : Viewer) : Viewer :=
  mkViewer (frameFiles w) (fps w) (slider w) (prevBtn w) (nextBtn w)
    (imageView w) v (timeLabel w) (folderEdit w) (recentCombo w)
    (recentFolders w) (warnings w).

Definition set_timeLabel (v : QString) (w : Viewer) : Viewer :=
  mkViewer (frameFiles w) (fps w) (slider w) (prevBtn w) (nextBtn w)
    (imageView w) (frameLabel w) v (folderEdit w) (recentCombo w)
    (recentFolders w) (warnings w).

Definition set_folderEdit (v : QString) (w : Viewer) : Viewer :=
  mkViewer (frameFiles w) (fps w) (slider w) (prevBtn w) (nextBtn w)
    (imageView w) (frameLabel w) (timeLabel w) v (recentCombo w)
    (recentFolders w) (warnings w).

Definition set_recentCombo (v : list QString) (w : Viewer) : Viewer :=
  mkViewer (frameFiles w) (fps w) (slider w) (prevBtn w) (nextBtn w)
    (imageView w) (frameLabel w) (timeLabel w) (folderEdit w) v
    (recentFolders w) (warnings w).

Definition set_recentFolders (v : list QString) (w : Viewer) : Viewer :=
  mkViewer (frameFiles w) (fps w) (slider w) (prevBtn w) (nextBtn w)
    (imageView w) (frameLabel w) (timeLabel w) (folderEdit w) (recentCombo w)
    v (warnings w).

(** [QMessageBox::warning(this, title, text)] *)
Definition warning (title text : QString) (w : Viewer) : Viewer :=
  mkViewer (frameFiles w) (fps w) (slider w) (prevBtn w) (nextBtn w)
    (imageView w) (frameLabel w) (timeLabel w) (folderEdit w) (recentCombo w)
    (recentFolders w) (warnings w ++ [(title, text)]).

(** [std::clamp(v, lo, hi)] *)
Definition clamp (v lo hi : Z) : Z :=
  if v <? lo then lo else if hi <? v then hi else v.

Definition updateTimeLabel (env : Env) (index : Z) (w : Viewer) : Viewer :=
  let count := int_cast (Z.of_nat (length (frameFiles w))) in
  if not_positive env (fps w) || (count =? 0) then
    set_timeLabel (qstr "Time: -- / --") w
  else
    let totalSec := per_fps env count (fps w) in
    let currentSec := per_fps env index (fps w) in
    set_timeLabel
      (qstr "Time: " ++ formatTimeSeconds env currentSec ++ qstr " / "
         ++ formatTimeSeconds env totalSec) w.

(** [frameFiles.at(index)] is in range after the clamp as long as the
    number of files fits an [int]; past that the model leaves the window
    as it is. *)
Definition loadFrame (env : Env) (index : Z) (w : Viewer) : Viewer :=
  match frameFiles w with
  | [] => w
  | _ :: _ =>
      let count := int_cast (Z.of_nat (length (frameFiles w))) in
      let index := clamp index 0 (count - 1) in
      match frameFiles w !! Z.to_nat index with
      | None => w
      | Some path =>
          let img := read_image env path in
          if isNull img then
            warning (qstr "Read error")
              (qstr "Failed to load image:" ++ ["010"%char]
                 ++ errorString env path) w
          else
            let w := set_imageView (copy img) w in
            let w :=
              set_frameLabel
                (qstr "Frame: " ++ number_int (index + 1) ++ qstr " / "
                   ++ number_int count) w in
            updateTimeLabel env index w
      end
  end.

(** [QAbstractSlider::setValue]: the value is brought into the range; when
    it differs from the present one it is stored and [valueChanged] is
    emitted, which runs [loadFrame] at once.  Nothing happens
    otherwise. *)
Definition bound (s : QSlider) (v : Z) : Z :=
  Z.max (minimum s) (Z.min (maximum s) v).

Definition setValue (env : Env) (v : Z) (w : Viewer) : Viewer :=
  let s := slider w in
  let v := bound s v in
  if value s =? v then w
  else
    loadFrame env v
      (set_slider (mkSlider (minimum s) (maximum s) v (sliderEnabled s)) w).

(** [QAbstractSlider::setRange]: the maximum is at least the minimum; when
    the range changed the value is set again, to bring it into the new
    range. *)
Definition setRange (env : Env) (min max : Z) (w : Viewer) : Viewer :=
  let s := slider w in
  let w' :=
    set_slider (mkSlider min (Z.max min max) (value s) (sliderEnabled s)) w in
  if (minimum s =? min) && (maximum s =? Z.max min max) then w'
  else setValue env (value s) w'.

Definition setEnabled (b : bool) (w : Viewer) : Viewer :=
  let s := slider w in
  set_slider (mkSlider (minimum s) (maximum s) (value s) b) w.

Definition stepFrames (env : Env) (delta : Z) (w : Viewer) : Viewer :=
  match frameFiles w with
  | [] => w
  | _ :: _ =>
      let v :=
        clamp (int_cast (value (slider w) + delta)) 0 (maximum (slider w)) in
      setValue env v w
  end.

(** The loop [while (recent.size() > 10) recent.removeLast();] *)
Fixpoint removeLast_above (fuel : nat) (recent : list QString)
  : list QString :=
  match fuel with
  | O => recent
  | S f =>
      if (10 <? length recent)%nat
      then removeLast_above f (removelast recent)
      else recent
  end.

Definition updateRecentFolders (dirPath : QString) (w : Viewer) : Viewer :=
  let recent := recentFolders w in
  let recent :=
    List.filter (fun p => negb (bool_decide (p = dirPath))) recent in
  let recent := dirPath :: recent in
  let recent := removeLast_above (length recent) recent in
  set_recentCombo recent (set_recentFolders recent w).

Definition loadRecentFolders (w : Viewer) : Viewer :=
  set_recentCombo (recentFolders w) w.

Definition filters : list QString :=
  [qstr "*.tif"; qstr "*.tiff"; qstr "*.TIF"; qstr "*.TIFF"].

Definition loadFolder (env : Env) (dirPath : QString) (w : Viewer) : Viewer :=
  if negb (dir_exists env dirPath) then
    warning (qstr "Folder not found")
      (qstr "The selected folder does not exist.") w
  else
    let dir := absolutePath env dirPath in
    let files :=
      map (filePath dir) (entryList filters (files_in env dirPath)) in
    let w := set_frameFiles files w in
    let w :=
      set_fps (readFpsFromInfo env (filePath dir (qstr "capture_info.txt")))
        w in
    let nonEmpty := match files with [] => false | _ :: _ => true end in
    let w := setEnabled nonEmpty w in
    let w := set_prevBtn nonEmpty w in
    let w := set_nextBtn nonEmpty w in
    let count := int_cast (Z.of_nat (length files)) in
    let w := setRange env 0 (Z.max 0 (count - 1)) w in
    let w := setValue env 0 w in
    let w := updateTimeLabel env 0 w in
    match files with
    | [] => set_frameLabel (qstr "Frame: -- / --") w
    | _ :: _ =>
        let w :=
          set_frameLabel
            (qstr "Frame: " ++ number_int 1 ++ qstr " / " ++ number_int count)
            w in
        updateRecentFolders dir w
    end.

(** The window after its constructor, with the recent folders found in the
    settings. *)
Definition initial (recent : list QString) : Viewer :=
  loadRecentFolders
    (mkViewer [] (Double 0) (mkSlider 0 0 0 false) false false NullImage
       (qstr "Frame: -- / --") (qstr "Time: -- / --") [] [] recent []).

(** What the user can do: choose a directory in the dialog of the browse
    button ([dir] empty: cancelled), type in the folder line, press Load,
    pick an entry of the recent list, move the slider to a value of its
    range, press the previous and next buttons, and the six shortcuts. *)
Inductive Event :=
| Browse (dir : QString)
| EditFolder (text : QString)
| ClickLoad
| RecentActivated (idx : Z)
| SliderMoved (v : Z)
| ClickPrev
| ClickNext
| KeyLeft
| KeyRight
| CtrlLeft
| CtrlRight
| PageUp
| PageDown.

(** The handler of an event; [None]: the event cannot occur (a disabled
    widget, a slider value outside the range, an entry the list has
    not). *)
Definition handle (env : Env) (e : Event) (w : Viewer) : option Viewer :=
  match e with
  | Browse dir =>
      Some (match dir with [] => w | _ :: _ => set_folderEdit dir w end)
  | EditFolder text => Some (set_folderEdit text w)
  | ClickLoad => Some (loadFolder env (folderEdit w) w)
  | RecentActivated idx =>
      if idx <? 0 then Some w
      else
        match recentCombo w !! Z.to_nat idx with
        | None => None
        | Some [] => Some w
        | Some (c :: dir) =>
            Some (loadFolder env (c :: dir) (set_folderEdit (c :: dir) w))
        end
  | SliderMoved v =>
      if sliderEnabled (slider w)
         && (minimum (slider w) <=? v) && (v <=? maximum (slider w))
      then Some (setValue env v w) else None
  | ClickPrev =>
      if prevBtn w then
        Some (match frameFiles w with
              | [] => w
              | _ :: _ =>
                  setValue env
                    (Z.max 0 (int_cast (value (slider w) - 1))) w
              end)
      else None
  | ClickNext =>
      if nextBtn w then
        Some (match frameFiles w with
              | [] => w
              | _ :: _ =>
                  setValue env
                    (Z.min (maximum (slider w))
                       (int_cast (value (slider w) + 1))) w
              end)
      else None
  | KeyLeft => Some (stepFrames env (-1) w)
  | KeyRight => Some (stepFrames env 1 w)
  | CtrlLeft => Some (stepFrames env (-5) w)
  | CtrlRight => Some (stepFrames env 5 w)
  | PageUp => Some (stepFrames env (-10) w)
  | PageDown => Some (stepFrames env 10 w)
  end.

Inductive reached (env : Env) (recent : list QString) : Viewer -> Prop :=
| reached_initial : reached env recent (initial recent)
| reached_handle w e w' :
    reached env recent w -> handle env e w = Some w' ->
    reached env recent w'.

(** No directory holds more files than an [int] counts, with room for the
    largest step of a shortcut. *)
Definition small_directories (env : Env) : Prop :=
  forall dirPath, Z.of_nat (length (files_in env dirPath)) <= INT_MAX - 10.

(** The slider stands on a frame: its range is that of the indices of
    [frameFiles] (from 0 to 0 without files), its value lies in the range,
    it and the two buttons are enabled exactly when there are files, and
    the combo box shows the recent folders of the settings. *)
Definition slider_on_frames (w : Viewer) : Prop :=
  let n := Z.of_nat (length (frameFiles w)) in
  let nonEmpty := match frameFiles w with [] => false | _ :: _ => true end in
  n <= INT_MAX - 10
  /\ minimum (slider w) = 0 /\ maximum (slider w) = Z.max 0 (n - 1)
  /\ 0 <= value (slider w) <= maximum (slider w)
  /\ sliderEnabled (slider w) = nonEmpty
  /\ prevBtn w = nonEmpty /\ nextBtn w = nonEmpty
  /\ recentCombo w = recentFolders w.

(** The number of frames a button or shortcut moves by. *)
Definition step_of (e : Event) : option Z :=
  match e with
  | ClickPrev | KeyLeft => Some (-1)
  | ClickNext | KeyRight => Some 1
  | CtrlLeft => Some (-5)
  | CtrlRight => Some 5
  | PageUp => Some (-10)
  | PageDown => Some 10
  | _ => None
  end.

(** A capture folder to try the viewer on: two frames and the info file,
    listed out of order.  A [double] is read here as a whole number of
    milliseconds, or of frames per second. *)
Definition example_env : Env :=
  mkEnv
    (fun d => match d with Double p => p <? 0 end)
    (fun d => match d with Double p => p end)
    (fun d => match d with Double p => p <=? 0 end)
    (fun n d => match d with Double p => Double (n * 1000 / p) end)
    (fun d => bool_decide (d = qstr "C:/data/cap"))
    (fun d => d)
    (fun d =>
       if bool_decide (d = qstr "C:/data/cap")
       then [qstr "000001.tiff"; qstr "capture_info.txt"; qstr "000000.tiff"]
       else [])
    (fun p =>
       if bool_decide (p = qstr "C:/data/cap/000000.tiff") then frameA
       else if bool_decide (p = qstr "C:/data/cap/000001.tiff") then frameB
       else NullImage)
    (fun _ => qstr "Unable to read image data")
    (fun _ => Double 10).

(** The viewer after typing the folder and pressing Load. *)
Definition example_loaded : Viewer :=
  loadFolder example_env (qstr "C:/data/cap")
    (set_folderEdit (qstr "C:/data/cap") (initial [])).

End Viewer.

(** * Properties *)

(** ** Decimal numerals *)

Section Numerals.

Lemma digit_char_code d :
  0 <= d < 10 -> N_of_ascii (digit_char d) = Z.to_N (48 + d).
Proof.
  intros Hd. unfold digit_char. apply N_ascii_embedding. lia.
Qed.

Lemma digit_value_char d : 0 <= d < 10 -> digit_value (digit_char d) = Some d.
Proof.
  intros Hd. unfold digit_value. rewrite digit_char_code by done.
  rewrite Z2N.id by lia.
  replace (48 <=? 48 + d) with true by (symmetry; apply Z.leb_le; lia).
  replace (48 + d <=? 57) with true by (symmetry; apply Z.leb_le; lia).
  simpl. f_equal. lia.
Qed.

Lemma digit_char_compare x y :
  0 <= x < 10 -> 0 <= y < 10 ->
  Ascii.compare (digit_char x) (digit_char y) = (x ?= y).
Proof.
  intros Hx Hy. unfold Ascii.compare. rewrite !digit_char_code by done.
  rewrite Z2N.inj_compare by lia. apply Z.add_compare_mono_l.
Qed.

Lemma fixed_digits_length w n : length (fixed_digits w n) = w.
Proof.
  revert n. induction w as [|w IH]; intros n; simpl; [done|].
  rewrite length_app, IH. simpl. lia.
Qed.

Lemma repeat_snoc {A} (x : A) k : repeat x k ++ [x] = x :: repeat x k.
Proof. induction k as [|k IH]; simpl; [done|]. by rewrite IH. Qed.

Lemma fixed_digits_zero w : fixed_digits w 0 = repeat "0"%char w.
Proof.
  induction w as [|w IH]; simpl; [done|].
  rewrite Zdiv_0_l, Zmod_0_l, IH. apply repeat_snoc.
Qed.

Lemma pad_left_snoc fill w s c :
  pad_left fill (Z.of_nat (S w)) (s ++ [c])
  = pad_left fill (Z.of_nat w) s ++ [c].
Proof.
  unfold pad_left. rewrite !Nat2Z.id, length_app. simpl.
  replace (S w - (length s + 1))%nat with (w - length s)%nat by lia.
  by rewrite <- app_assoc.
Qed.

Lemma pad_left_nil fill w : pad_left fill (Z.of_nat w) [] = repeat fill w.
Proof.
  unfold pad_left. rewrite Nat2Z.id. simpl.
  rewrite Nat.sub_0_r. apply app_nil_r.
Qed.

(** With enough fuel, padding the numeral of [n] with zeros to a width that
    holds it gives the fixed-width numeral. *)
Lemma pad_digits_fuel w : forall f n,
  0 <= n < 10 ^ Z.of_nat (S w) -> n < 2 ^ Z.of_nat (S f) ->
  pad_left "0"%char (Z.of_nat (S w)) (digits_fuel (S f) n)
  = fixed_digits (S w) n.
Proof.
  induction w as [|w IH]; intros f n Hn Hf.
  - change (10 ^ Z.of_nat 1) with 10 in Hn.
    cbn [digits_fuel fixed_digits].
    rewrite Z.div_small by lia. simpl (0 =? 0). cbv iota.
    rewrite pad_left_snoc, pad_left_nil. done.
  - cbn [digits_fuel]. rewrite pad_left_snoc.
    change (fixed_digits (S (S w)) n)
      with (fixed_digits (S w) (n / 10) ++ [digit_char (n mod 10)]).
    f_equal.
    assert (Hq : 0 <= n / 10 < 10 ^ Z.of_nat (S w)).
    { split; [apply Z.div_pos; lia|].
      apply Z.div_lt_upper_bound; [lia|].
      rewrite <- Z.pow_succ_r by lia. rewrite <- Nat2Z.inj_succ. lia. }
    destruct (Z.eqb_spec (n / 10) 0) as [H0|H0].
    + rewrite H0, pad_left_nil. symmetry. apply fixed_digits_zero.
    + assert (Hq2 : n / 10 < 2 ^ Z.of_nat f).
      { apply Z.div_lt_upper_bound; [lia|].
        rewrite Nat2Z.inj_succ, Z.pow_succ_r in Hf by lia.
        assert (0 < 2 ^ Z.of_nat f) by (apply Z.pow_pos_nonneg; lia). lia. }
      destruct f as [|f].
      { change (2 ^ Z.of_nat 0) with 1 in Hq2. lia. }
      by apply IH.
Qed.

Lemma zero_padded_fixed w n :
  0 <= n < 10 ^ Z.of_nat (S w) ->
  zero_padded (Z.of_nat (S w)) n = fixed_digits (S w) n.
Proof.
  intros Hn. unfold zero_padded, decimal. apply pad_digits_fuel; [done|].
  destruct (Z.eq_dec n 0) as [->|Hnz]; [simpl; lia|].
  rewrite Nat2Z.inj_succ, Z2Nat.id by apply Z.log2_nonneg.
  apply Z.log2_spec. lia.
Qed.

Lemma parse_digits_app s t : forall acc,
  parse_digits acc (s ++ t)
  = match parse_digits acc s with
    | Some x => parse_digits x t
    | None => None
    end.
Proof.
  induction s as [|c s IH]; intros acc; simpl; [done|].
  destruct (digit_value c); [apply IH|done].
Qed.

Lemma parse_fixed_digits w : forall acc n,
  0 <= n < 10 ^ Z.of_nat w ->
  parse_digits acc (fixed_digits w n) = Some (acc * 10 ^ Z.of_nat w + n).
Proof.
  induction w as [|w IH]; intros acc n Hn.
  - simpl in *. f_equal. lia.
  - cbn [fixed_digits]. rewrite parse_digits_app.
    assert (Hp : 10 ^ Z.of_nat (S w) = 10 * 10 ^ Z.of_nat w).
    { rewrite Nat2Z.inj_succ, Z.pow_succ_r by lia. done. }
    rewrite IH.
    + simpl. rewrite digit_value_char by (apply Z.mod_pos_bound; lia).
      f_equal. rewrite Hp.
      pose proof (Z.div_mod n 10 ltac:(lia)). lia.
    + split; [apply Z.div_pos; lia|].
      apply Z.div_lt_upper_bound; lia.
Qed.

Lemma ascii_compare_refl c : Ascii.compare c c = Eq.
Proof. unfold Ascii.compare. apply N.compare_refl. Qed.

Lemma lex_compare_refl s : lex_compare s s = Eq.
Proof.
  induction s as [|c s IH]; simpl; [done|]. by rewrite ascii_compare_refl.
Qed.

Lemma lex_compare_app a : forall b s t,
  length a = length b ->
  lex_compare (a ++ s) (b ++ t)
  = match lex_compare a b with
    | Eq => lex_compare s t
    | c => c
    end.
Proof.
  induction a as [|x a IH]; intros [|y b] s t Hlen; simpl in *; try done.
  destruct (Ascii.compare x y); try done. apply IH. lia.
Qed.

(** Numerals of one width are ordered like the numbers they denote. *)
Lemma fixed_digits_compare w : forall i j,
  0 <= i < 10 ^ Z.of_nat w -> 0 <= j < 10 ^ Z.of_nat w ->
  lex_compare (fixed_digits w i) (fixed_digits w j) = (i ?= j).
Proof.
  induction w as [|w IH]; intros i j Hi Hj.
  - simpl in *. assert (i = 0) by lia. assert (j = 0) by lia. by subst.
  - cbn [fixed_digits].
    rewrite lex_compare_app by (by rewrite !fixed_digits_length).
    assert (Hp : 10 ^ Z.of_nat (S w) = 10 * 10 ^ Z.of_nat w).
    { rewrite Nat2Z.inj_succ, Z.pow_succ_r by lia. done. }
    pose proof (Z.div_mod i 10 ltac:(lia)) as Ei.
    pose proof (Z.div_mod j 10 ltac:(lia)) as Ej.
    pose proof (Z.mod_pos_bound i 10 ltac:(lia)) as Mi.
    pose proof (Z.mod_pos_bound j 10 ltac:(lia)) as Mj.
    rewrite IH.
    + simpl. rewrite digit_char_compare by done.
      destruct (Z.compare_spec (i / 10) (j / 10)) as [E|L|G].
      * destruct (Z.compare_spec (i mod 10) (j mod 10));
          symmetry; [apply Z.compare_eq_iff|apply Z.compare_lt_iff
                    |apply Z.compare_gt_iff]; lia.
      * symmetry. apply Z.compare_lt_iff. lia.
      * symmetry. apply Z.compare_gt_iff. lia.
    + split; [apply Z.div_pos; lia|apply Z.div_lt_upper_bound; lia].
    + split; [apply Z.div_pos; lia|apply Z.div_lt_upper_bound; lia].
Qed.

End Numerals.

(** ** Width and names of a sequence *)

Section SequenceNames.

Lemma int_cast_small z : - 2 ^ 31 <= z < 2 ^ 31 -> int_cast z = z.
Proof.
  intros Hz. unfold int_cast. rewrite Z.mod_small by lia. lia.
Qed.

Lemma ceil_log10_from_spec fuel : forall k p n,
  0 <= k -> p = 10 ^ k -> (k = 0 \/ 10 ^ (k - 1) < n) ->
  n <= p * 2 ^ Z.of_nat fuel ->
  let r := ceil_log10_from fuel k p n in
  k <= r <= k + Z.of_nat fuel /\ n <= 10 ^ r /\ (r = 0 \/ 10 ^ (r - 1) < n).
Proof.
  induction fuel as [|fuel IH]; intros k p n Hk Hp Hlow Hup.
  - simpl in *. subst p. repeat split; try lia; try done.
  - cbn [ceil_log10_from].
    assert (0 < p) by (subst p; apply Z.pow_pos_nonneg; lia).
    destruct (Z.leb_spec n p) as [Hle|Hgt].
    + subst p. repeat split; try lia; try done.
    + destruct (IH (k + 1) (10 * p) n) as (Hr & Hn & Hm).
      * lia.
      * subst p. rewrite Z.pow_add_r by lia. lia.
      * right. replace (k + 1 - 1) with k by lia. by subst p.
      * rewrite Nat2Z.inj_succ, Z.pow_succ_r in Hup by lia.
        assert (0 < 2 ^ Z.of_nat fuel) by (apply Z.pow_pos_nonneg; lia).
        nia.
      * repeat split; try lia; done.
Qed.

Lemma ceil_log10_spec n :
  1 <= n ->
  is_ceil_log10 n (ceil_log10 n) /\ ceil_log10 n <= 1 + Z.log2_up n.
Proof.
  intros Hn. unfold ceil_log10.
  pose proof (Z.log2_up_nonneg n) as Hl.
  destruct (ceil_log10_from_spec (S (Z.to_nat (Z.log2_up n))) 0 1 n)
    as (Hr & Hle & Hmin); try done; [by left| |].
  { rewrite Nat2Z.inj_succ, Z2Nat.id, Z.pow_succ_r by lia.
    destruct (Z.eq_dec n 1) as [->|Hn1]; [simpl; lia|].
    pose proof (Z.log2_up_spec n ltac:(lia)). lia. }
  rewrite Nat2Z.inj_succ, Z2Nat.id in Hr by lia.
  split; [|lia]. split; [lia|]. split; [done|].
  intros k Hk Hnk.
  destruct Hmin as [->|Hmin]; [done|].
  destruct (Z_le_gt_dec (ceil_log10_from (S (Z.to_nat (Z.log2_up n))) 0 1 n)
              k) as [|Hgt]; [done|].
  exfalso.
  assert (10 ^ k <= 10 ^ (ceil_log10_from (S (Z.to_nat (Z.log2_up n))) 0 1 n
                          - 1)) by (apply Z.pow_le_mono_r; lia).
  lia.
Qed.

(** The width the save thread computes, for a size that fits an [int]. *)
Lemma index_width_eq size :
  1 <= size <= INT_MAX -> index_width size = Z.max 6 (ceil_log10 size).
Proof.
  intros Hs. unfold index_width. rewrite (Z.max_r 1 size) by lia.
  destruct (ceil_log10_spec size) as ((Hc & _) & Hb); [lia|].
  rewrite int_cast_small; [done|].
  assert (Z.log2_up size <= 31).
  { apply Z.log2_up_le_pow2; unfold INT_MAX in Hs; lia. }
  unfold INT_MAX in Hs.
  lia.
Qed.

(** Every index below the size has at most [index_width size] digits. *)
Lemma index_fits_width size i :
  1 <= size <= INT_MAX -> 0 <= i < size ->
  0 <= i < 10 ^ index_width size.
Proof.
  intros Hs Hi. split; [lia|].
  rewrite index_width_eq by done.
  destruct (ceil_log10_spec size) as ((Hc & Hle & _) & _); [lia|].
  assert (10 ^ ceil_log10 size <= 10 ^ Z.max 6 (ceil_log10 size))
    by (apply Z.pow_le_mono_r; lia).
  lia.
Qed.

Lemma frame_file_name_fixed w i :
  0 <= i < 10 ^ Z.of_nat (S w) -> i <= INT_MAX ->
  frame_file_name (Z.of_nat (S w)) i
  = fixed_digits (S w) i ++ qstr ".tiff".
Proof.
  intros Hi Hmax. unfold frame_file_name, arg_int, number_int.
  rewrite int_cast_small by (unfold INT_MAX in Hmax; lia).
  replace (i <? 0) with false by (symmetry; apply Z.ltb_ge; lia).
  f_equal. by apply zero_padded_fixed.
Qed.

Lemma file_name_index_fixed w i :
  0 <= i < 10 ^ Z.of_nat (S w) ->
  file_name_index (fixed_digits (S w) i ++ qstr ".tiff") = Some i.
Proof.
  intros Hi. unfold file_name_index.
  assert (Hn : (length (fixed_digits (S w) i ++ qstr ".tiff") - 5)%nat
               = length (fixed_digits (S w) i)).
  { rewrite length_app. simpl. lia. }
  rewrite Hn, drop_app_length, take_app_length.
  rewrite decide_True by done.
  unfold parse_decimal.
  pose proof (fixed_digits_length (S w) i) as Hlen.
  destruct (fixed_digits (S w) i) as [|c s] eqn:E; [done|].
  rewrite <- E, parse_fixed_digits by done. f_equal; lia.
Qed.

Lemma fixed_name_compare w i k :
  0 <= i < 10 ^ Z.of_nat w -> 0 <= k < 10 ^ Z.of_nat w ->
  lex_compare (fixed_digits w i ++ qstr ".tiff")
              (fixed_digits w k ++ qstr ".tiff") = (i ?= k).
Proof.
  intros Hi Hk.
  rewrite lex_compare_app by (by rewrite !fixed_digits_length).
  rewrite fixed_digits_compare by done.
  rewrite lex_compare_refl. by destruct (i ?= k).
Qed.

End SequenceNames.

(** ** The save thread *)

Section SaveThread.

Variable j : SaveJob.

Lemma worker_step_save n im a :
  frames j !! n = Some im ->
  worker_step (mkWorker j (WLoop n)) a
  = (Some (mkWorker j (WLoop (S n))),
     (if progress_due (Z.of_nat (length (frames j))) (Z.of_nat n)
      then post (SetProgress (int_cast (Z.of_nat n + 1)))
      else id) (request (SaveImage (frame_path j (Z.of_nat n)) im) a)).
Proof.
  intros Him. unfold worker_step. cbn [job wpc].
  pose proof (lookup_lt_Some _ _ _ Him) as Hlt.
  replace (Z.of_nat n <? Z.of_nat (length (frames j))) with true
    by (symmetry; apply Z.ltb_lt; lia).
  rewrite Him.
  by destruct (progress_due (Z.of_nat (length (frames j))) (Z.of_nat n)).
Qed.

Lemma worker_run_after_loop n a :
  (length (frames j) <= n)%nat ->
  worker_run 5 (mkWorker j (WLoop n)) a = (None, after_loop j a).
Proof.
  intros Hn. cbn [worker_run]. unfold worker_step at 1. cbn [job wpc].
  replace (Z.of_nat n <? Z.of_nat (length (frames j))) with false
    by (symmetry; apply Z.ltb_ge; lia).
  reflexivity.
Qed.

Lemma after_loop_disk a :
  disk (world (after_loop j a))
  = disk (world a) ++ [WriteTextFile (info_path j) (capture_info j)].
Proof. unfold after_loop, logLine. simpl. by destruct (logCheck (ui a)). Qed.

Lemma after_loop_posted a :
  posted (world (after_loop j a))
  = posted (world a) ++ [SetStatus (qstr "Save complete"); HideDialog].
Proof.
  unfold after_loop, logLine. simpl.
  destruct (logCheck (ui a)); simpl; by rewrite <- app_assoc.
Qed.

Lemma after_loop_shared a :
  sh (after_loop j a)
  = mkShared (recording (sh a)) false (recordedFrames (sh a))
      (saveBuffer (sh a)) (saveMutex (sh a)).
Proof. unfold after_loop, logLine. simpl. by destruct (logCheck (ui a)). Qed.

Lemma after_loop_ui a : ui (after_loop j a) = ui a.
Proof.
  unfold after_loop, logLine. simpl.
  destruct (logCheck (ui a)); simpl; by destruct (ui a).
Qed.

(** The loop from index [n] on, then the rest of the thread. *)
Lemma worker_run_from (l : list QImage) : forall n a,
  drop n (frames j) = l ->
  exists a',
    worker_run (length l + 5) (mkWorker j (WLoop n)) a = (None, a')
    /\ disk (world a')
       = disk (world a)
           ++ imap (fun k im =>
                      SaveImage (frame_path j (Z.of_nat (n + k))) im) l
           ++ [WriteTextFile (info_path j) (capture_info j)]
    /\ (exists ps,
          posted (world a')
          = posted (world a) ++ ps
              ++ [SetStatus (qstr "Save complete"); HideDialog])
    /\ sh a' = mkShared (recording (sh a)) false (recordedFrames (sh a))
                 (saveBuffer (sh a)) (saveMutex (sh a))
    /\ ui a' = ui a.
Proof.
  induction l as [|im l IH]; intros n a Hdrop.
  - assert (length (frames j) <= n)%nat.
    { apply (f_equal length) in Hdrop. rewrite length_drop in Hdrop.
      simpl in Hdrop. lia. }
    exists (after_loop j a). simpl (length [] + 5)%nat.
    rewrite worker_run_after_loop by done.
    rewrite after_loop_disk, after_loop_posted, after_loop_shared,
      after_loop_ui.
    repeat split; try done. by exists [].
  - assert (Him : frames j !! n = Some im).
    { pose proof (lookup_drop (frames j) n 0) as E.
      rewrite Hdrop, Nat.add_0_r in E. by rewrite <- E. }
    assert (Hnext : drop (S n) (frames j) = l).
    { rewrite <- Nat.add_1_r, <- drop_drop, Hdrop. done. }
    change (length (im :: l) + 5)%nat with (S (length l + 5)).
    cbn [worker_run]. rewrite (worker_step_save n im) by done.
    set (a1 := (if progress_due (Z.of_nat (length (frames j))) (Z.of_nat n)
                then post (SetProgress (int_cast (Z.of_nat n + 1)))
                else id)
                 (request (SaveImage (frame_path j (Z.of_nat n)) im) a)).
    destruct (IH (S n) a1 Hnext)
      as (a' & Hrun & Hdisk & (ps & Hposted) & Hsh & Hui).
    exists a'. split; [done|].
    assert (Ea1 : disk (world a1)
                  = disk (world a)
                      ++ [SaveImage (frame_path j (Z.of_nat n)) im]
                  /\ sh a1 = sh a /\ ui a1 = ui a
                  /\ exists p1, posted (world a1) = posted (world a) ++ p1).
    { unfold a1.
      destruct (progress_due (Z.of_nat (length (frames j))) (Z.of_nat n));
        simpl; repeat split; try done;
        [by eexists | exists []; by rewrite app_nil_r]. }
    destruct Ea1 as (Ed & Es & Eu & p1 & Ep).
    repeat split.
    + rewrite Hdisk, Ed, <- !app_assoc. f_equal. simpl. f_equal.
      * by rewrite Nat.add_0_r.
      * f_equal. apply imap_ext. intros k x _. simpl.
        do 3 f_equal. lia.
    + exists (p1 ++ ps). by rewrite Hposted, Ep, <- !app_assoc.
    + by rewrite Hsh, Es.
    + by rewrite Hui, Eu.
Qed.

End SaveThread.


(** ** The handlers of the GUI thread, run without interruption *)

(** A whole state taken apart into its variables. *)
Ltac crush_state a :=
  destruct a as [[xrec xsav xcnt xbuf xmtx]
                 [xtimer xstart xlastf xlastm xview xstats xstatus xinfo
                  xbstart xbstop xitimer xpath xexp xlogc xdlg]
                 [xapp xdisk xlog xposted] xpc xhp xws xh].

(** Normal form of a state expression; numerals and paths stay folded. *)
Ltac run_state :=
  cbv -[decimal number_int int_cast toString_yyyyMMdd_hhmmss
        toString_yyyyMMdd_hhmmss_zzz toString_log filePath qstr index_width
        frame_file_name Z.of_nat length app Z.max Z.leb Z.ltb Z.eqb Z.add
        Z.modulo Z.rem pushed_of removed_of lookup list_lookup
        progress_due].

Ltac run_state_in H :=
  cbv -[decimal number_int int_cast toString_yyyyMMdd_hhmmss
        toString_yyyyMMdd_hhmmss_zzz toString_log filePath qstr index_width
        frame_file_name Z.of_nat length app Z.max Z.leb Z.ltb Z.eqb Z.add
        Z.modulo Z.rem pushed_of removed_of lookup list_lookup
        progress_due] in H.

(** Case analysis on an innermost condition. *)
Ltac case_inner :=
  match goal with
  | |- context [match ?x with _ => _ end] =>
      lazymatch x with
      | context [match _ with _ => _ end] => fail
      | _ => destruct x eqn:?
      end
  end.

Ltac case_inner_in H :=
  match type of H with
  | context [match ?x with _ => _ end] =>
      lazymatch x with
      | context [match _ with _ => _ end] => fail
      | _ => destruct x eqn:?
      end
  end.

Section Handlers.

Lemma ui_run_idle fuel now a : uiPc a = UiIdle -> ui_run fuel now a = a.
Proof.
  intros Hpc. destruct fuel; [done|]. simpl. unfold ui_step. by rewrite Hpc.
Qed.

Lemma stopSaving_not_recording now a :
  uiPc a = UiIdle -> recording (sh a) = false -> stopSaving now a = a.
Proof.
  intros Hpc Hrec. unfold stopSaving, stopSaving_enter. rewrite Hrec.
  cbn [negb]. by apply ui_run_idle.
Qed.

(** [stopSaving] with a session open and the mutex free, in closed form. *)
Lemma stopSaving_recording now a :
  uiPc a = UiIdle -> recording (sh a) = true -> saveMutex (sh a) = false ->
  stopSaving now a
  = stopSaving_finish now (saveBuffer (sh a))
      (note (SwappedOut (saveBuffer (sh a)))
         (set_saveBuffer []
            (set_saveInfoTimer false
               (set_saveStopBtn false
                  (set_saveStartBtn true (set_recording false a)))))).
Proof.
  intros Hpc Hrec Hmtx. unfold stopSaving, stopSaving_enter. rewrite Hrec.
  clear Hrec. crush_state a; cbn in Hpc, Hmtx; subst; destruct xbuf, xlogc;
    run_state; reflexivity.
Qed.

Lemma stopSaving_returns now a :
  uiPc a = UiIdle -> saveMutex (sh a) = false ->
  uiPc (stopSaving now a) = UiIdle /\ recording (sh (stopSaving now a)) = false.
Proof.
  intros Hpc Hmtx. destruct (recording (sh a)) eqn:Hrec.
  - rewrite stopSaving_recording by done. clear Hrec.
    crush_state a; destruct xbuf, xlogc; run_state; done.
  - by rewrite stopSaving_not_recording.
Qed.

Lemma startSaving_saving now a :
  uiPc a = UiIdle -> saving (sh a) = true ->
  startSaving now a = setStatus (qstr "Already saving to disk") a.
Proof.
  intros Hpc Hsav. unfold startSaving, startSaving_enter. rewrite Hsav.
  by apply ui_run_idle.
Qed.

(** [startSaving] past its guard with the mutex free, in closed form. *)
Lemma startSaving_not_saving now a :
  uiPc a = UiIdle -> saving (sh a) = false -> saveMutex (sh a) = false ->
  startSaving now a
  = set_saveInfoTimer true
      (set_saveInfoLabel 0
         (setStatus (qstr "Recording...")
            (logLine (LogText (qstr "Recording started"))
               (set_saveStopBtn true
                  (set_saveStartBtn false
                     (set_recordStartTime (Some now)
                        (set_recordTimer (Some now)
                           (set_recordedFrames 0
                              (note (Cleared (saveBuffer (sh a)))
                                 (set_saveBuffer []
                                    (set_recording true a))))))))))).
Proof.
  intros Hpc Hsav Hmtx. unfold startSaving, startSaving_enter. rewrite Hsav.
  clear Hsav. crush_state a; cbn in Hpc, Hmtx; subst; destruct xlogc;
    run_state; reflexivity.
Qed.

Lemma setStatus_session_unchanged text a :
  session_unchanged a (setStatus text a).
Proof. by repeat split. Qed.

End Handlers.

(** ** Stopping a recording *)

(** C4. [stopSaving] with no session open is rejected: its guard returns at
    once and the state stays as it is, so no buffer is swapped and no save
    is started.  This covers a session that was never started (the initial
    state) and a second call right after a first one. *)
Theorem stopSaving_rejected_without_session
  (now now' : QDateTime) (a : App) :
  uiPc a = UiIdle ->
  (recording (sh a) = false -> stopSaving now a = a)
  /\ (forall appDir saveDir exposure,
        stopSaving now (initial appDir saveDir exposure)
        = initial appDir saveDir exposure)
  /\ (saveMutex (sh a) = false ->
      stopSaving now' (stopSaving now a) = stopSaving now a).
Proof.
  intros Hpc. split; [|split].
  - by apply stopSaving_not_recording.
  - intros. by apply stopSaving_not_recording.
  - intros Hmtx. destruct (stopSaving_returns now a Hpc Hmtx).
    by apply stopSaving_not_recording.
Qed.

(** C5. With a session open, [stopSaving] first clears the recording flag,
    then takes [saveMutex] and swaps the buffer with a fresh empty vector
    while holding it.  The frames taken out go to the job of the save
    thread, together with [lastMeta], the exposure and the session start as
    they are in that call.  With no frame taken out the call ends with
    "No frames to save": no directory request, no thread, [saving]
    untouched. *)
Theorem stopSaving_hands_over (now : QDateTime) (a : App) :
  uiPc a = UiIdle -> recording (sh a) = true -> saveMutex (sh a) = false ->
  let taken := saveBuffer (sh a) in
  let a1 := ui_run 1 now (stopSaving_enter a) in
  let a3 := ui_run 3 now (stopSaving_enter a) in
  let a' := stopSaving now a in
  (recording (sh a1) = false /\ saveBuffer (sh a1) = taken
   /\ saveMutex (sh a1) = false)
  /\ (saveMutex (sh a3) = true /\ saveBuffer (sh a3) = []
      /\ uiPc a3 = Stop_unlock taken)
  /\ (recording (sh a') = false /\ saveBuffer (sh a') = []
      /\ saveMutex (sh a') = false /\ uiPc a' = UiIdle
      /\ history a' = history a ++ [SwappedOut taken])
  /\ match taken with
     | [] =>
         workers a' = workers a /\ saving (sh a') = saving (sh a)
         /\ disk (world a') = disk (world a)
         /\ statusLabel (ui a') = qstr "No frames to save"
     | _ :: _ =>
         workers a' = workers a ++ [mkWorker (job_of now taken a) (WLoop 0)]
         /\ saving (sh a') = true
         /\ disk (world a')
            = disk (world a)
                ++ [MkPath (baseDir a); MkPath (outDir (job_of now taken a))]
     end.
Proof.
  intros Hpc Hrec Hmtx. cbv zeta.
  rewrite stopSaving_recording by done.
  unfold stopSaving_enter. rewrite Hrec. clear Hrec.
  crush_state a; cbn in Hpc, Hmtx; subst; destruct xbuf, xlogc; run_state;
    repeat split; try reflexivity; by rewrite <- app_assoc.
Qed.

Lemma stopSaving_hands_over_witness :
  uiPc app_recording = UiIdle /\ recording (sh app_recording) = true
  /\ saveMutex (sh app_recording) = false
  /\ saveBuffer (sh (stopSaving time1 app_recording)) = []
  /\ workers (stopSaving time1 app_recording)
     = [mkWorker (job_of time1 [frameA] app_recording) (WLoop 0)].
Proof.
  do 3 (apply conj; [vm_compute; reflexivity|]).
  destruct (stopSaving_hands_over time1 app_recording)
    as (_ & _ & (_ & H & _) & Hjob); [vm_compute; reflexivity..|].
  apply conj; [exact H|].
  assert (E : saveBuffer (sh app_recording) = [frameA])
    by (vm_compute; reflexivity).
  rewrite E in Hjob. destruct Hjob as (Hw & _). rewrite Hw.
  vm_compute. reflexivity.
Defined.

Lemma stopSaving_rejected_without_session_witness :
  uiPc app_saving = UiIdle /\ recording (sh app_saving) = false
  /\ saveMutex (sh app_recording) = false
  /\ stopSaving time2 app_saving = app_saving
  /\ stopSaving time2 (stopSaving time1 app_recording)
     = stopSaving time1 app_recording.
Proof.
  do 3 (apply conj; [vm_compute; reflexivity|]).
  destruct (stopSaving_rejected_without_session time2 time2 app_saving)
    as (H1 & _); [vm_compute; reflexivity|].
  destruct (stopSaving_rejected_without_session time1 time2 app_recording)
    as (_ & _ & H2); [vm_compute; reflexivity|].
  apply conj; [apply H1|apply H2]; vm_compute; reflexivity.
Defined.

(** ** The invariant holds in every reachable state *)

Section Invariant.

Lemma pushed_of_app h1 h2 :
  pushed_of (h1 ++ h2) = pushed_of h1 ++ pushed_of h2.
Proof. apply flat_map_app. Qed.

Lemma removed_of_app h1 h2 :
  removed_of (h1 ++ h2) = removed_of h1 ++ removed_of h2.
Proof. apply flat_map_app. Qed.

Lemma Inv_initial appDir saveDir exposure :
  Inv (initial appDir saveDir exposure).
Proof. constructor; try done. by left. Qed.

(** The invariant only reads the shared variables, the threads, the
    history, the two save buttons and the two images. *)
Lemma Inv_transfer a a' :
  sh a' = sh a -> uiPc a' = uiPc a -> hookPc a' = hookPc a ->
  workers a' = workers a -> history a' = history a ->
  saveStartBtn (ui a') = saveStartBtn (ui a) ->
  saveStopBtn (ui a') = saveStopBtn (ui a) ->
  lastFrame (ui a') = lastFrame (ui a) ->
  imageView (ui a') = imageView (ui a) ->
  Inv a -> Inv a'.
Proof.
  intros Hsh Hpc Hhp Hws Hh Hb1 Hb2 Hv1 Hv2
    [I1 I2 I3 I4 I5 I6 I7 I8 I9 I10].
  constructor; rewrite ?Hsh, ?Hpc, ?Hhp, ?Hws, ?Hh, ?Hb1, ?Hb2, ?Hv1, ?Hv2;
    done.
Qed.

End Invariant.

(** The fields of the invariant of an explicit state, reduced. *)
Ltac inv_hyps HI :=
  destruct HI as [I1 I2 I3 I4 I5 I6 I7 I8 I9 I10];
  run_state_in I1; run_state_in I2; run_state_in I3; run_state_in I4;
  run_state_in I5; run_state_in I6; run_state_in I7; run_state_in I8;
  run_state_in I9; run_state_in I10.

Ltac inv_fields :=
  constructor; run_state;
  rewrite ?pushed_of_app, ?removed_of_app;
  cbn [pushed_of removed_of flat_map];
  rewrite ?app_nil_r, ?app_nil_l;
  try done; try congruence;
  try (intuition (subst; try congruence; try discriminate; eauto));
  try (destruct_or?; destruct_and?; simplify_eq;
       (by left) || (right; split; [done|by eexists]));
  try (f_equal; congruence);
  try (match goal with
       | H : pushed_of _ = _ |- _ => rewrite H, <- ?app_assoc; done
       end).

Section InvariantSteps.

Lemma Inv_ui_step now a a' : Inv a -> ui_step now a = Some a' -> Inv a'.
Proof.
  intros HI Hstep. crush_state a. inv_hyps HI.
  destruct xpc; try discriminate Hstep; run_state_in Hstep;
    try (destruct xmtx; [discriminate Hstep|]);
    try (destruct taken); try (destruct xlogc);
    simplify_eq; destruct xhp; try discriminate; inv_fields.
Qed.

Lemma Inv_hook_call img a : hookPc a = HIdle -> Inv a -> Inv (hook_call img a).
Proof.
  intros Hhp HI. crush_state a. inv_hyps HI. cbn in Hhp; subst.
  unfold hook_call; destruct xrec; run_state; destruct xpc; inv_fields.
Qed.

Lemma Inv_hook_step a a' : Inv a -> hook_step a = Some a' -> Inv a'.
Proof.
  intros HI Hstep. crush_state a. inv_hyps HI.
  destruct xhp; try discriminate Hstep; run_state_in Hstep;
    try (destruct xmtx; [discriminate Hstep|]);
    simplify_eq; destruct xpc; try discriminate; inv_fields.
Qed.

End InvariantSteps.

Section InvariantEvents.

Lemma Inv_request op a : Inv a -> Inv (request op a).
Proof. by apply Inv_transfer. Qed.

Lemma Inv_post p a : Inv a -> Inv (post p a).
Proof. by apply Inv_transfer. Qed.

Lemma Inv_logLine e a : Inv a -> Inv (logLine e a).
Proof.
  unfold logLine. destruct (logCheck (ui a)); [|done].
  by apply Inv_transfer.
Qed.

Lemma Inv_setStatus text a : Inv a -> Inv (setStatus text a).
Proof. by apply Inv_transfer. Qed.

(** A save thread that moves on to its next statement. *)
Lemma Inv_worker_moves w w' a :
  workers a = [w] -> Inv a ->
  Inv (set_workers (<[0%nat := w']> (workers a)) a).
Proof.
  intros Hws [I1 I2 I3 I4 I5 I6 I7 I8 I9 I10]. rewrite Hws.
  constructor; try done.
  destruct I5 as [[_ Hnil]|[Hsav _]]; [congruence|].
  right. split; [done|by eexists].
Qed.

(** A save thread at its last statement, [saving = false]. *)
Lemma Inv_worker_ends w a :
  workers a = [w] -> Inv a ->
  Inv (set_workers (delete 0%nat (workers (set_saving false a)))
         (set_saving false a)).
Proof.
  intros Hws [I1 I2 I3 I4 I5 I6 I7 I8 I9 I10].
  change (workers (set_saving false a)) with (workers a). rewrite Hws.
  constructor; try done. by left.
Qed.

Lemma Inv_worker_step k a a' :
  Inv a -> step (AWorkerStep k) a = Some a' -> Inv a'.
Proof.
  intros HI Hstep. cbn [step] in Hstep.
  assert (Hws : workers a = [] \/ exists w, workers a = [w]).
  { destruct (inv_workers a HI) as [[_ ?]|[_ ?]]; eauto. }
  destruct Hws as [Hws|[w Hws]]; rewrite Hws in Hstep; [by destruct k|].
  destruct k as [|k]; [|by destruct k]. cbn [lookup list_lookup] in Hstep.
  unfold worker_step in Hstep.
  destruct (wpc w) as [n| | | |].
  - destruct (Z.of_nat n <? Z.of_nat (length (frames (job w)))) eqn:Hlt.
    + destruct (frames (job w) !! n) as [im|] eqn:Him.
      * injection Hstep as <-.
        destruct (progress_due (Z.of_nat (length (frames (job w))))
                    (Z.of_nat n));
          match goal with |- Inv (set_workers _ ?b) =>
          apply (Inv_worker_moves w _ b) end; auto using Inv_request, Inv_post.
      * apply Z.ltb_lt in Hlt. apply lookup_ge_None in Him. lia.
    + injection Hstep as <-.
      match goal with |- Inv (set_workers _ ?b) =>
          apply (Inv_worker_moves w _ b) end; auto using Inv_request.
  - injection Hstep as <-. match goal with |- Inv (set_workers _ ?b) =>
          apply (Inv_worker_moves w _ b) end.
    + unfold logLine; by destruct (logCheck (ui a)).
    + by apply Inv_logLine.
  - injection Hstep as <-. match goal with |- Inv (set_workers _ ?b) =>
          apply (Inv_worker_moves w _ b) end; auto using Inv_post.
  - injection Hstep as <-. match goal with |- Inv (set_workers _ ?b) =>
          apply (Inv_worker_moves w _ b) end; auto using Inv_post.
  - injection Hstep as <-. by apply (Inv_worker_ends w).
Qed.

Lemma Inv_ui_event now e a a' : Inv a -> ui_event now e a = Some a' -> Inv a'.
Proof.
  intros HI Hstep. unfold ui_event in Hstep.
  destruct (uiPc a) eqn:Hpc; try discriminate Hstep.
  destruct e.
  - destruct (accepts_input a && saveStartBtn (ui a)) eqn:Hb;
      [|discriminate Hstep].
    apply andb_true_iff in Hb as [_ Hb].
    injection Hstep as <-. unfold startSaving_enter.
    destruct (saving (sh a)) eqn:Hsav; [by apply Inv_setStatus|].
    destruct HI as [I1 I2 I3 I4 I5 I6 I7 I8 I9 I10].
    rewrite Hpc in *. cbn in I6, I7, I8.
    constructor; cbn; try done; try congruence.
    destruct I8 as [E1 E2]. rewrite Hb in E1.
    destruct (recording (sh a)); [discriminate E1|]. by rewrite E2.
  - destruct (accepts_input a && saveStopBtn (ui a)); [|discriminate Hstep].
    injection Hstep as <-. unfold stopSaving_enter.
    destruct (recording (sh a)) eqn:Hrec; cbn [negb]; [|done].
    destruct HI as [I1 I2 I3 I4 I5 I6 I7 I8 I9 I10].
    rewrite Hpc in *. cbn in I6, I7, I8.
    constructor; cbn; try done; try congruence.
    intros _. destruct (saving (sh a)); [|done].
    specialize (I1 eq_refl). congruence.
  - destruct (accepts_input a); [|discriminate Hstep]. injection Hstep as <-.
    unfold captureClicked.
    destruct (isNull (lastFrame (ui a))); [by apply Inv_setStatus|].
    destruct saved;
      auto using Inv_setStatus, Inv_logLine, Inv_request.
  - injection Hstep as <-. unfold frameReady, setImage.
    match goal with
    | |- Inv (if ?c then logLine ?l ?b else ?b) =>
        assert (Inv b); [|destruct c; [by apply Inv_logLine|done]]
    end.
    destruct (isNull img); cbn [negb]; [revert HI; by apply Inv_transfer|].
    destruct HI as [I1 I2 I3 I4 I5 I6 I7 I8 I9 I10]. by constructor.
  - destruct (saveInfoTimer (ui a)); [|discriminate Hstep].
    injection Hstep as <-. unfold saveInfoTick.
    destruct (recording (sh a)); cbn [negb]; [|done].
    revert HI. by apply Inv_transfer.
  - destruct (accepts_input a); [|discriminate Hstep]. injection Hstep as <-.
    revert HI. by apply Inv_transfer.
  - destruct (accepts_input a); [|discriminate Hstep]. injection Hstep as <-.
    revert HI. by apply Inv_transfer.
  - destruct (accepts_input a); [|discriminate Hstep]. injection Hstep as <-.
    revert HI. by apply Inv_transfer.
  - destruct (posted (world a)) as [|p rest]; [discriminate Hstep|].
    injection Hstep as <-. revert HI.
    destruct p; by apply Inv_transfer.
  - destruct (savingDialog (ui a)) as [d|]; [|discriminate Hstep].
    destruct (dlgVisible d); [|discriminate Hstep].
    injection Hstep as <-. revert HI. by apply Inv_transfer.
  - injection Hstep as <-. by apply Inv_setStatus.
Qed.

Lemma Inv_step act a a' : Inv a -> step act a = Some a' -> Inv a'.
Proof.
  intros HI Hstep. destruct act as [now e|now|img| |k].
  - by apply (Inv_ui_event now e a).
  - by apply (Inv_ui_step now a).
  - cbn [step] in Hstep. destruct (hookPc a) eqn:Hhp; try discriminate Hstep.
    injection Hstep as <-. by apply Inv_hook_call.
  - by apply (Inv_hook_step a).
  - by apply (Inv_worker_step k a).
Qed.

Lemma Inv_reachable a : reachable a -> Inv a.
Proof.
  induction 1 as [| a act a' _ IH Hstep]; [apply Inv_initial|].
  by apply (Inv_step act a).
Qed.

End InvariantEvents.

(** ** The buffer and its history *)

Section BufferHistory.

Lemma buffer_change_none a a' :
  history a' = history a -> saveBuffer (sh a') = saveBuffer (sh a) ->
  buffer_change a a' [].
Proof.
  intros Hh Hb. split; [by rewrite app_nil_r|].
  simpl. by rewrite Hb, app_nil_r.
Qed.

Lemma ui_event_buffer now e a a' :
  ui_event now e a = Some a' -> buffer_change a a' [].
Proof.
  intros H. apply buffer_change_none; unfold ui_event in H;
    crush_state a; destruct xpc; try discriminate H;
    destruct e; run_state_in H; repeat (case_inner_in H; run_state_in H);
    by simplify_eq.
Qed.

Lemma worker_step_buffer w a :
  history (worker_step w a).2 = history a
  /\ saveBuffer (sh (worker_step w a).2) = saveBuffer (sh a).
Proof.
  destruct w as [j pc]. unfold worker_step. cbn [job wpc].
  crush_state a. destruct pc; run_state; repeat (case_inner; run_state);
    done.
Qed.

Lemma ui_step_buffer now a a' :
  ui_step now a = Some a' -> exists d, buffer_change a a' d.
Proof.
  intros H. crush_state a.
  destruct xpc; try discriminate H; run_state_in H;
    repeat (case_inner_in H; run_state_in H); simplify_eq;
    try (exists []; by apply buffer_change_none).
  - exists [Cleared xbuf]. split; [done|]. simpl. by rewrite !app_nil_r.
  - exists [SwappedOut xbuf]. split; [done|]. simpl. by rewrite !app_nil_r.
Qed.

Lemma hook_step_buffer a a' :
  hook_step a = Some a' -> exists d, buffer_change a a' d.
Proof.
  intros H. crush_state a.
  destruct xhp; try discriminate H; run_state_in H;
    repeat (case_inner_in H; run_state_in H); simplify_eq;
    try (exists []; by apply buffer_change_none).
  exists [Pushed img]. by split.
Qed.

Lemma step_buffer act a a' :
  step act a = Some a' -> exists d, buffer_change a a' d.
Proof.
  intros H. destruct act as [now e|now|img| |k]; cbn [step] in H.
  - exists []. by apply (ui_event_buffer now e).
  - by apply (ui_step_buffer now).
  - exists []. destruct (hookPc a); try discriminate H. injection H as <-.
    apply buffer_change_none; unfold hook_call;
      by destruct (recording (sh a)).
  - by apply hook_step_buffer.
  - exists []. destruct (workers a !! k) as [w|]; [|discriminate H].
    destruct (worker_step_buffer w a) as [Hh Hb].
    destruct (worker_step w a) as [[w'|] a1]; injection H as <-;
      by apply buffer_change_none.
Qed.

Lemma run_buffer sched : forall a a',
  run sched a = Some a' -> exists d, buffer_change a a' d.
Proof.
  induction sched as [|act sched IH]; intros a a' H; simpl in H.
  - injection H as <-. exists []. by apply buffer_change_none.
  - destruct (step act a) as [a1|] eqn:Hstep; [|discriminate H].
    destruct (step_buffer _ _ _ Hstep) as (d1 & Hh1 & Hb1).
    destruct (IH _ _ H) as (d2 & Hh2 & Hb2).
    exists (d1 ++ d2). split.
    + by rewrite Hh2, Hh1, <- app_assoc.
    + unfold pushed_of, removed_of in *. rewrite !flat_map_app.
      rewrite app_assoc, Hb1, <- app_assoc, Hb2, app_assoc. done.
Qed.

Lemma run_reachable sched : forall a a',
  reachable a -> run sched a = Some a' -> reachable a'.
Proof.
  induction sched as [|act sched IH]; intros a a' Ha H; simpl in H.
  - by injection H as <-.
  - destruct (step act a) as [a1|] eqn:Hstep; [|discriminate H].
    apply (IH a1); [|done]. by apply (reachable_step a act).
Qed.

End BufferHistory.

(** ** A stopped session and its files *)

Section SavedSequence.

(** With frames in the buffer, [stopSaving] starts one thread on the job
    made of them. *)
Lemma stopSaving_spawns now a :
  uiPc a = UiIdle -> recording (sh a) = true -> saveMutex (sh a) = false ->
  saveBuffer (sh a) <> [] ->
  workers (stopSaving now a)
  = workers a ++ [mkWorker (job_of now (saveBuffer (sh a)) a) (WLoop 0)].
Proof.
  intros Hpc Hrec Hmtx Hbuf. rewrite stopSaving_recording by done.
  clear Hrec. crush_state a. cbn in Hpc, Hmtx, Hbuf. subst.
  destruct xbuf; [done|]. destruct xlogc; run_state; reflexivity.
Qed.

(** The name of file [i] of a sequence of [size] frames. *)
Lemma frame_file_name_padded size i :
  1 <= size <= INT_MAX -> 0 <= i < size ->
  let digits := Z.max 6 (ceil_log10 size) in
  frame_file_name (index_width size) i
  = zero_padded digits i ++ qstr ".tiff"
  /\ zero_padded digits i = fixed_digits (Z.to_nat digits) i
  /\ 0 <= i < 10 ^ digits.
Proof.
  intros Hs Hi digits.
  pose proof (index_fits_width size i Hs Hi) as Hfit.
  rewrite index_width_eq in * by done. fold digits in Hfit |- *.
  assert (Hd : digits = Z.of_nat (S (Z.to_nat digits - 1))).
  { unfold digits. lia. }
  assert (Hdn : Z.to_nat digits = S (Z.to_nat digits - 1)) by lia.
  assert (Hz : zero_padded digits i = fixed_digits (Z.to_nat digits) i).
  { rewrite Hdn. rewrite Hd at 1. apply zero_padded_fixed.
    by rewrite <- Hd. }
  split; [|done].
  rewrite Hz, Hdn. rewrite Hd at 1. apply frame_file_name_fixed.
  - by rewrite <- Hd.
  - lia.
Qed.

End SavedSequence.

(** C1. A session stopped with [N > 0] buffered frames (at most [INT_MAX])
    starts a save thread that runs to its end and asks the disk for exactly
    [N] image files, frame [i] under the name [<i>.tiff] with [i] padded
    with zeros to [max(6, ceil(log10(N)))] digits, in acquisition order,
    and then for exactly one [capture_info.txt], all in the directory of
    the job.  The names have one length, give back their index, and are
    ordered by name exactly as the frames were acquired. *)
Theorem saved_sequence_files (now : QDateTime) (a : App) :
  let N := Z.of_nat (length (saveBuffer (sh a))) in
  let digits := Z.max 6 (ceil_log10 N) in
  let name (i : Z) := zero_padded digits i ++ qstr ".tiff" in
  uiPc a = UiIdle -> recording (sh a) = true -> saveMutex (sh a) = false ->
  0 < N -> N <= INT_MAX ->
  exists j,
    workers (stopSaving now a) = workers a ++ [mkWorker j (WLoop 0)]
    /\ frames j = saveBuffer (sh a)
    /\ is_ceil_log10 N (ceil_log10 N)
    /\ (forall b, exists b',
          worker_run (worker_steps j) (mkWorker j (WLoop 0)) b = (None, b')
          /\ disk (world b')
             = disk (world b)
                 ++ imap (fun i im =>
                            SaveImage
                              (outDir j ++ qstr "/" ++ name (Z.of_nat i)) im)
                      (frames j)
                 ++ [WriteTextFile (outDir j ++ qstr "/capture_info.txt")
                       (capture_info j)])
    /\ (forall i, 0 <= i < N ->
          length (zero_padded digits i) = Z.to_nat digits
          /\ file_name_index (name i) = Some i)
    /\ (forall i k, 0 <= i < N -> 0 <= k < N ->
          (lex_lt (name i) (name k) <-> i < k)).
Proof.
  intros N digits name Hpc Hrec Hmtx HN Hmax.
  assert (Hbuf : saveBuffer (sh a) <> []).
  { intros E. unfold N in HN. rewrite E in HN. simpl in HN. lia. }
  exists (job_of now (saveBuffer (sh a)) a).
  split; [by apply stopSaving_spawns|]. split; [done|].
  split; [apply ceil_log10_spec; lia|].
  assert (Hname : forall i, 0 <= i < N ->
            frame_file_name (index_width N) i = name i
            /\ zero_padded digits i = fixed_digits (Z.to_nat digits) i
            /\ 0 <= i < 10 ^ digits).
  { intros i Hi. apply frame_file_name_padded; lia. }
  assert (Hdn : Z.to_nat digits = S (Z.to_nat digits - 1))
    by (unfold digits; lia).
  assert (Hd : Z.of_nat (Z.to_nat digits) = digits)
    by (unfold digits; lia).
  split; [|split].
  - intros b.
    destruct (worker_run_from (job_of now (saveBuffer (sh a)) a)
                (saveBuffer (sh a)) 0 b eq_refl)
      as (b' & Hrun & Hdisk & _).
    exists b'. split; [exact Hrun|]. rewrite Hdisk. do 2 f_equal.
    apply imap_ext. intros k im Hk. cbn [frames job_of].
    apply lookup_lt_Some in Hk. unfold frame_path. cbn [outDir frames job_of].
    change (0 + k)%nat with k.
    change (Z.of_nat (length (saveBuffer (sh a)))) with N.
    cbn [frames job_of] in Hk.
    destruct (Hname (Z.of_nat k)) as (-> & _); [unfold N; lia|]. done.
  - intros i Hi. destruct (Hname i Hi) as (_ & Hz & Hfit).
    unfold name. rewrite Hz. split; [apply fixed_digits_length|].
    rewrite Hdn. apply file_name_index_fixed. by rewrite <- Hdn, Hd.
  - intros i k Hi Hk.
    destruct (Hname i Hi) as (_ & Hzi & Hfi).
    destruct (Hname k Hk) as (_ & Hzk & Hfk).
    unfold lex_lt, name. rewrite Hzi, Hzk.
    rewrite fixed_name_compare by (by rewrite Hd).
    apply Z.compare_lt_iff.
Qed.

Lemma saved_sequence_files_witness :
  uiPc app_recording = UiIdle /\ recording (sh app_recording) = true
  /\ saveMutex (sh app_recording) = false
  /\ 0 < Z.of_nat (length (saveBuffer (sh app_recording)))
  /\ Z.of_nat (length (saveBuffer (sh app_recording))) <= INT_MAX
  /\ exists j,
       workers (stopSaving time1 app_recording) = [mkWorker j (WLoop 0)]
       /\ frames j = [frameA].
Proof.
  repeat (split; [first [reflexivity | vm_compute; discriminate]|]).
  destruct (saved_sequence_files time1 app_recording)
    as (j & Hw & Hf & _);
    [reflexivity..|vm_compute; discriminate|].
  exists j. split; [exact Hw|exact Hf].
Defined.

(** C6. The save thread started by [stopSaving] writes, after its last
    image, exactly one [capture_info.txt] in the directory of the job.  Its
    eight lines carry the session start, the number of frames, [lastMeta]
    and the exposure as they were in the state [a] in which [stopSaving]
    ran, whatever the application state [b] is while the thread runs.  The
    thread then queues "Save complete" (and the hiding of the dialog) and
    sets [saving = false] as its last statement. *)
Theorem capture_info_written (now : QDateTime) (a : App) :
  uiPc a = UiIdle -> recording (sh a) = true -> saveMutex (sh a) = false ->
  saveBuffer (sh a) <> [] ->
  exists j,
    workers (stopSaving now a) = workers a ++ [mkWorker j (WLoop 0)]
    /\ capture_info j
       = [ [TStr (qstr "Start: ");
            TStr (toString_log (recordStartTime (ui a)))];
           [TStr (qstr "Frames: ");
            TInt (Z.of_nat (length (saveBuffer (sh a))))];
           [TStr (qstr "Resolution: "); TInt (width (lastMeta (ui a)));
            TStr (qstr " x "); TInt (height (lastMeta (ui a)))];
           [TStr (qstr "Binning: "); TReal (binning (lastMeta (ui a)))];
           [TStr (qstr "Bits: "); TInt (bits (lastMeta (ui a)))];
           [TStr (qstr "Exposure(ms): "); TReal (exposureSpin (ui a))];
           [TStr (qstr "Internal FPS: ");
            TReal (internalFps (lastMeta (ui a)))];
           [TStr (qstr "Readout speed: ");
            TReal (readoutSpeed (lastMeta (ui a)))] ]
    /\ forall b,
         (exists b' saves,
            worker_run (worker_steps j) (mkWorker j (WLoop 0)) b = (None, b')
            /\ disk (world b')
               = disk (world b) ++ saves
                   ++ [WriteTextFile (outDir j ++ qstr "/capture_info.txt")
                         (capture_info j)]
            /\ Forall (fun op => exists path im, op = SaveImage path im) saves
            /\ (exists ps,
                  posted (world b')
                  = posted (world b) ++ ps
                      ++ [SetStatus (qstr "Save complete"); HideDialog])
            /\ saving (sh b') = false)
         /\ worker_run 5 (mkWorker j (WLoop (length (frames j)))) b
            = (None,
               set_saving false
                 (post HideDialog
                    (post (SetStatus (qstr "Save complete"))
                       (logLine
                          (LogText
                             (qstr "Saved "
                                ++ decimal (Z.of_nat (length (frames j)))
                                ++ qstr " frames to " ++ outDir j))
                          (request
                             (WriteTextFile
                                (outDir j ++ qstr "/capture_info.txt")
                                (capture_info j)) b))))).
Proof.
  intros Hpc Hrec Hmtx Hbuf.
  exists (job_of now (saveBuffer (sh a)) a).
  split; [by apply stopSaving_spawns|]. split; [reflexivity|].
  intros b. split.
  - destruct (worker_run_from (job_of now (saveBuffer (sh a)) a)
                (saveBuffer (sh a)) 0 b eq_refl)
      as (b' & Hrun & Hdisk & Hposted & Hsh & _).
    exists b'. eexists. split; [exact Hrun|]. split; [exact Hdisk|].
    split; [|split; [exact Hposted|by rewrite Hsh]].
    apply Forall_forall. intros op Hop.
    apply elem_of_lookup_imap in Hop as (k & im & -> & _). by eexists _, _.
  - by rewrite worker_run_after_loop.
Qed.

Lemma capture_info_written_witness :
  uiPc app_recording = UiIdle /\ recording (sh app_recording) = true
  /\ saveMutex (sh app_recording) = false
  /\ saveBuffer (sh app_recording) <> []
  /\ exists j,
       workers (stopSaving time1 app_recording) = [mkWorker j (WLoop 0)]
       /\ nth 1 (capture_info j) [] = [TStr (qstr "Frames: "); TInt 1].
Proof.
  repeat (split; [first [reflexivity | vm_compute; discriminate]|]).
  destruct (capture_info_written time1 app_recording)
    as (j & Hw & Hinfo & _); [reflexivity..|vm_compute; discriminate|].
  exists j. split; [exact Hw|]. rewrite Hinfo. reflexivity.
Defined.

(** ** Single capture *)

Section Capture.

Lemma zero_padded_fixed_nat w n :
  (0 < w)%nat -> 0 <= n < 10 ^ Z.of_nat w ->
  zero_padded (Z.of_nat w) n = fixed_digits w n.
Proof.
  intros Hw Hn. destruct w as [|w]; [lia|]. by apply zero_padded_fixed.
Qed.

Lemma toString_zzz_fixed t :
  well_formed_time t ->
  toString_yyyyMMdd_hhmmss_zzz t
  = fixed_digits 4 (year t) ++ fixed_digits 2 (month t)
      ++ fixed_digits 2 (day t) ++ qstr "_"
      ++ fixed_digits 2 (hour t) ++ fixed_digits 2 (minute t)
      ++ fixed_digits 2 (second t) ++ qstr "_" ++ fixed_digits 3 (msec t).
Proof.
  intros (Hy & Hmo & Hd & Hh & Hmi & Hs & Hms).
  unfold toString_yyyyMMdd_hhmmss_zzz, toString_yyyyMMdd_hhmmss.
  rewrite (zero_padded_fixed_nat 4), !(zero_padded_fixed_nat 2),
    (zero_padded_fixed_nat 3) by (done || lia).
  by rewrite <- !app_assoc.
Qed.

Lemma frameReady_kept img meta fps a :
  disk (world (frameReady img meta fps a)) = disk (world a)
  /\ savePathEdit (ui (frameReady img meta fps a)) = savePathEdit (ui a)
  /\ applicationDirPath (world (frameReady img meta fps a))
     = applicationDirPath (world a)
  /\ lastFrame (ui (frameReady img meta fps a))
     = (if isNull img then lastFrame (ui a) else img)
  /\ imageView (ui (frameReady img meta fps a))
     = (if isNull img then imageView (ui a) else img).
Proof.
  unfold frameReady, setImage, logLine.
  destruct (isNull img); cbn [negb];
    match goal with
    | |- context [if ?c && ?d then _ else _] => destruct (c && d)
    end; cbn; try done;
    match goal with
    | |- context [if ?c then _ else _] => by destruct c
    end.
Qed.

Lemma filePath_plain path file :
  last path <> Some "/"%char -> filePath path file = path ++ qstr "/" ++ file.
Proof.
  unfold filePath. destruct (last path) as [c|]; [|done]. intros H.
  destruct c as [[] [] [] [] [] [] [] []]; try done.
Qed.

End Capture.

(** C8. The capture handler works on the GUI thread alone and leaves the
    recording session and a running save as they are, whatever its
    outcome.  With no frame shown yet ([lastFrame] null, as at start-up)
    it only reports "No frame to capture".  Otherwise it asks the disk for
    the base directory, which is the text of the save path box or, when
    that is empty, the directory of the application, and for [lastFrame]
    under [<base>/<yyyyMMdd_hhmmss_zzz>.tiff]; it reports "Captured: ..."
    when the image was written and "Capture failed" when not.  The frame
    it takes is the one [frameReady] gave to the view last: a frame that
    is not null becomes the frame shown and the frame captured, a null
    frame leaves both as they were. *)
Theorem capture_single_frame (now : QDateTime) (saved : bool) (a : App) :
  let a' := captureClicked now saved a in
  let fname := toString_yyyyMMdd_hhmmss_zzz now ++ qstr ".tiff" in
  let dir :=
    match savePathEdit (ui a) with
    | [] => applicationDirPath (world a)
    | _ :: _ => savePathEdit (ui a)
    end in
  session_unchanged a a'
  /\ (isNull (lastFrame (ui a)) = true ->
      a' = setStatus (qstr "No frame to capture") a)
  /\ (isNull (lastFrame (ui a)) = false ->
      disk (world a')
      = disk (world a)
          ++ [MkPath dir; SaveImage (filePath dir fname) (lastFrame (ui a))]
      /\ statusLabel (ui a')
         = (if saved then qstr "Captured: " ++ fname
            else qstr "Capture failed"))
  /\ (last dir <> Some "/"%char ->
      filePath dir fname = dir ++ qstr "/" ++ fname)
  /\ (well_formed_time now ->
      fname
      = fixed_digits 4 (year now) ++ fixed_digits 2 (month now)
          ++ fixed_digits 2 (day now) ++ qstr "_"
          ++ fixed_digits 2 (hour now) ++ fixed_digits 2 (minute now)
          ++ fixed_digits 2 (second now) ++ qstr "_"
          ++ fixed_digits 3 (msec now) ++ qstr ".tiff")
  /\ (forall img meta fps,
        let shown := frameReady img meta fps a in
        (isNull img = false ->
         lastFrame (ui shown) = img /\ imageView (ui shown) = img
         /\ disk (world (captureClicked now saved shown))
            = disk (world a)
                ++ [MkPath dir; SaveImage (filePath dir fname) img])
        /\ (isNull img = true ->
            lastFrame (ui shown) = lastFrame (ui a)
            /\ imageView (ui shown) = imageView (ui a)))
  /\ (reachable a -> lastFrame (ui a) = imageView (ui a))
  /\ (forall appDir saveDir exposure,
        isNull (lastFrame (ui (initial appDir saveDir exposure))) = true).
Proof.
  cbv zeta.
  assert (Hdir : forall b,
            baseDir b
            = match savePathEdit (ui b) with
              | [] => applicationDirPath (world b)
              | _ :: _ => savePathEdit (ui b)
              end).
  { intros b. unfold baseDir. by destruct (savePathEdit (ui b)). }
  assert (Hwrite : forall b,
            isNull (lastFrame (ui b)) = false ->
            disk (world (captureClicked now saved b))
            = disk (world b)
                ++ [MkPath (baseDir b);
                    SaveImage
                      (filePath (baseDir b)
                         (toString_yyyyMMdd_hhmmss_zzz now ++ qstr ".tiff"))
                      (lastFrame (ui b))]
            /\ statusLabel (ui (captureClicked now saved b))
               = (if saved
                  then qstr "Captured: "
                         ++ toString_yyyyMMdd_hhmmss_zzz now ++ qstr ".tiff"
                  else qstr "Capture failed")).
  { intros b Hnull. unfold captureClicked. rewrite Hnull.
    unfold logLine. destruct saved; cbn; [destruct (logCheck (ui b))|];
      cbn; by rewrite <- app_assoc. }
  split; [|split; [|split; [|split; [|split; [|split; [|split]]]]]].
  - unfold captureClicked. destruct (isNull (lastFrame (ui a)));
      [apply setStatus_session_unchanged|].
    unfold logLine. destruct saved; cbn; [destruct (logCheck (ui a))|];
      by repeat split.
  - intros Hnull. unfold captureClicked. by rewrite Hnull.
  - intros Hnull. rewrite <- Hdir. by apply Hwrite.
  - apply filePath_plain.
  - intros Hwf. rewrite toString_zzz_fixed by done. by rewrite <- !app_assoc.
  - intros img meta fps.
    destruct (frameReady_kept img meta fps a) as (K1 & K2 & K3 & K4 & K5).
    split; intros Hnull; rewrite Hnull in K4, K5; [|done].
    split; [done|]. split; [done|].
    destruct (Hwrite (frameReady img meta fps a)) as [-> _];
      [by rewrite K4|].
    by rewrite Hdir, K1, K2, K3, K4.
  - intros Hr. apply inv_view. by apply Inv_reachable.
  - done.
Qed.

Lemma capture_single_frame_witness :
  let shown := frameReady frameA FrameMeta_zero (Double 10) app0 in
  captureClicked time2 true app0 = setStatus (qstr "No frame to capture") app0
  /\ disk (world (captureClicked time2 true shown))
     = [MkPath (qstr "C:/data");
        SaveImage (qstr "C:/data/20240305_140720_000.tiff") frameA]
  /\ statusLabel (ui (captureClicked time2 true shown))
     = qstr "Captured: 20240305_140720_000.tiff"
  /\ disk (world (captureClicked time2 false shown))
     = [MkPath (qstr "C:/data");
        SaveImage (qstr "C:/data/20240305_140720_000.tiff") frameA]
  /\ statusLabel (ui (captureClicked time2 false shown)) = qstr "Capture failed"
  /\ sh (captureClicked time2 false shown) = sh shown
  /\ disk (world (captureClicked time2 true
                    (frameReady NullImage FrameMeta_zero (Double 10)
                       (set_savePathEdit [] shown))))
     = [MkPath (qstr "C:/app");
        SaveImage (qstr "C:/app/20240305_140720_000.tiff") frameA].
Proof.
  intros shown.
  destruct (capture_single_frame time2 true app0)
    as (_ & Hnone & _ & _ & _ & Hshown & _).
  destruct (Hshown frameA FrameMeta_zero (Double 10)) as [Hok _].
  destruct (Hok eq_refl) as (_ & _ & Hdisk).
  destruct (capture_single_frame time2 true shown)
    as (_ & _ & Htrue & _).
  destruct (Htrue eq_refl) as [_ Hst].
  destruct (capture_single_frame time2 false shown)
    as ((Hsh & _) & _ & Hfalse & _).
  destruct (Hfalse eq_refl) as [Hdf Hsf].
  destruct (capture_single_frame time2 true (set_savePathEdit [] shown))
    as (_ & _ & _ & _ & _ & Hshown2 & _).
  destruct (Hshown2 NullImage FrameMeta_zero (Double 10)) as [_ Hnull].
  destruct (Hnull eq_refl) as [Hl _].
  destruct (capture_single_frame time2 true
              (frameReady NullImage FrameMeta_zero (Double 10)
                 (set_savePathEdit [] shown)))
    as (_ & _ & Hempty & _).
  destruct Hempty as [Hde _]; [by rewrite Hl|].
  subst shown.
  split; [by apply Hnone|].
  split; [rewrite Hdisk; vm_compute; reflexivity|].
  split; [rewrite Hst; vm_compute; reflexivity|].
  split; [rewrite Hdf; vm_compute; reflexivity|].
  split; [rewrite Hsf; reflexivity|].
  split; [exact Hsh|].
  rewrite Hde. vm_compute. reflexivity.
Defined.

(** ** Starting a recording *)

(** C2, as the code has it.  [startSaving] has no check of the recording
    flag.  Its guard is the saving flag: while a save runs it only reports
    "Already saving to disk".  Past the guard, whether or not a session is
    already open, it sets the recording flag, clears the buffer, resets the
    counter to zero, records the start time and disables the start button.
    While a session is open the start button is disabled, so the click that
    runs [startSaving] cannot occur. *)
Theorem startSaving_behaviour (now : QDateTime) (a : App) :
  uiPc a = UiIdle ->
  (saving (sh a) = true ->
   startSaving now a = setStatus (qstr "Already saving to disk") a
   /\ session_unchanged a (startSaving now a))
  /\ (saving (sh a) = false -> saveMutex (sh a) = false ->
      let a' := startSaving now a in
      recording (sh a') = true /\ saveBuffer (sh a') = []
      /\ recordedFrames (sh a') = 0
      /\ recordStartTime (ui a') = Some now
      /\ recordTimer (ui a') = Some now
      /\ saving (sh a') = false
      /\ saveStartBtn (ui a') = false /\ saveStopBtn (ui a') = true
      /\ statusLabel (ui a') = qstr "Recording..."
      /\ history a' = history a ++ [Cleared (saveBuffer (sh a))]
      /\ uiPc a' = UiIdle)
  /\ (reachable a -> recording (sh a) = true ->
      ui_event now ClickSaveStart a = None).
Proof.
  intros Hpc. split; [|split].
  - intros Hsav. rewrite startSaving_saving by done.
    split; [done|apply setStatus_session_unchanged].
  - intros Hsav Hmtx. cbv zeta. rewrite startSaving_not_saving by done.
    crush_state a. cbn in Hpc, Hsav, Hmtx. subst.
    destruct xlogc; run_state; by repeat split.
  - intros Hr Hrec. pose proof (inv_buttons a (Inv_reachable a Hr)) as Hb.
    rewrite Hpc in Hb. cbn in Hb. destruct Hb as [Hb _].
    unfold ui_event. rewrite Hpc, Hb, Hrec. cbn [negb].
    by rewrite andb_false_r.
Qed.

Lemma startSaving_behaviour_witness :
  uiPc app_saving = UiIdle /\ saving (sh app_saving) = true
  /\ startSaving time2 app_saving
     = setStatus (qstr "Already saving to disk") app_saving.
Proof.
  split; [reflexivity|]. split; [reflexivity|].
  destruct (startSaving_behaviour time2 app_saving) as (H & _);
    [reflexivity|].
  destruct H as (H & _); [reflexivity|exact H].
Defined.

(** C2 as stated fails: with a session open and one frame buffered,
    [startSaving] is not rejected; it throws the buffered frame away and
    starts over. *)
Lemma startSaving_while_recording_not_rejected :
  recording (sh app_recording) = true
  /\ saveBuffer (sh app_recording) = [frameA]
  /\ ~ session_unchanged app_recording (startSaving time2 app_recording)
  /\ saveBuffer (sh (startSaving time2 app_recording)) = []
  /\ statusLabel (ui (startSaving time2 app_recording)) = qstr "Recording...".
Proof.
  repeat split; try reflexivity.
  intros (Hsh & _). vm_compute in Hsh. discriminate Hsh.
Qed.

(** ** One save at a time *)

(** C3, as the code has it.  At most one save thread exists, and it exists
    exactly while [saving] is set.  While it runs no session is open:
    [startSaving] is rejected with "Already saving to disk" and changes
    nothing else, its click is either kept away by the modal dialog or
    ends in that rejection, and [stopSaving] returns at its guard without
    starting a second thread. *)
Theorem one_save_at_a_time (now : QDateTime) (a : App) :
  reachable a ->
  (length (workers a) <= 1)%nat
  /\ (saving (sh a) = true <-> workers a <> [])
  /\ (saving (sh a) = true -> uiPc a = UiIdle ->
      recording (sh a) = false
      /\ startSaving now a = setStatus (qstr "Already saving to disk") a
      /\ recording (sh (startSaving now a)) = false
      /\ session_unchanged a (startSaving now a)
      /\ (ui_event now ClickSaveStart a = None
          \/ ui_event now ClickSaveStart a
             = Some (setStatus (qstr "Already saving to disk") a))
      /\ stopSaving now a = a).
Proof.
  intros Hr. pose proof (Inv_reachable a Hr) as HI.
  split; [|split].
  - destruct (inv_workers a HI) as [[_ ->]|[_ [w ->]]]; simpl; lia.
  - destruct (inv_workers a HI) as [[Hs ->]|[Hs [w ->]]]; rewrite Hs;
      split; done.
  - intros Hsav Hpc. pose proof (inv_flags a HI Hsav) as Hrec.
    split; [done|]. rewrite startSaving_saving by done.
    split; [done|]. split; [done|].
    split; [apply setStatus_session_unchanged|]. split.
    + unfold ui_event. rewrite Hpc.
      destruct (accepts_input a && saveStartBtn (ui a)); [right|by left].
      unfold startSaving_enter. by rewrite Hsav.
    + by apply stopSaving_not_recording.
Qed.

Lemma one_save_at_a_time_witness :
  reachable app_saving /\ saving (sh app_saving) = true
  /\ recording (sh (startSaving time2 app_saving)) = false.
Proof.
  assert (Hr : reachable app_saving).
  { apply (run_reachable
             (start_schedule time0 ++ hook_schedule frameA
                ++ stop_schedule time1) app0);
      [apply reachable_initial|vm_compute; reflexivity]. }
  split; [exact Hr|]. split; [vm_compute; reflexivity|].
  destruct (one_save_at_a_time time2 app_saving Hr) as (_ & _ & H).
  destruct H as (_ & _ & H & _); [vm_compute; reflexivity..|exact H].
Defined.

(** C3 as stated fails: right after [stopSaving] has returned with the
    save still running, [startSaving] does not open a session. *)
Lemma start_rejected_while_save_runs :
  uiPc app_saving = UiIdle
  /\ workers app_saving
     = [mkWorker (job_of time1 [frameA] app_recording) (WLoop 0)]
  /\ saving (sh app_saving) = true
  /\ recording (sh (startSaving time2 app_saving)) = false
  /\ statusLabel (ui (startSaving time2 app_saving))
     = qstr "Already saving to disk".
Proof. repeat apply conj; vm_compute; reflexivity. Qed.

(** ** The two flags *)

(** C9, as the code has it.  In every reachable state [recording] and
    [saving] are not both set: a call of the record hook made while a save
    runs returns at its flag check and appends nothing.  A call that passed
    the check earlier is not held back by [saving]; whatever it does, the
    save threads and the frames of their jobs stay as they are. *)
Theorem flags_never_both_set (a : App) :
  reachable a ->
  recording (sh a) && saving (sh a) = false
  /\ (saving (sh a) = true -> forall img, hook_call img a = a)
  /\ (forall a', step AHookStep a = Some a' -> workers a' = workers a)
  /\ (forall img a', step (AHookCall img) a = Some a' ->
        workers a' = workers a).
Proof.
  intros Hr. pose proof (Inv_reachable a Hr) as HI.
  split; [|split; [|split]].
  - destruct (saving (sh a)) eqn:Hsav; [|apply andb_false_r].
    by rewrite (inv_flags a HI).
  - intros Hsav img. unfold hook_call. by rewrite (inv_flags a HI).
  - intros a' Hstep. cbn [step] in Hstep. unfold hook_step in Hstep.
    destruct (hookPc a); try discriminate Hstep;
      try (destruct (saveMutex (sh a)); [discriminate Hstep|]);
      by injection Hstep as <-.
  - intros img a' Hstep. cbn [step] in Hstep.
    destruct (hookPc a); try discriminate Hstep. injection Hstep as <-.
    unfold hook_call. by destruct (recording (sh a)).
Qed.

Lemma flags_never_both_set_witness :
  reachable app_saving
  /\ recording (sh app_saving) && saving (sh app_saving) = false.
Proof.
  assert (Hr : reachable app_saving).
  { apply (run_reachable
             (start_schedule time0 ++ hook_schedule frameA
                ++ stop_schedule time1) app0);
      [apply reachable_initial|vm_compute; reflexivity]. }
  split; [exact Hr|].
  destruct (flags_never_both_set app_saving Hr) as (H & _). exact H.
Defined.

(** C9 as stated fails in its last part: a frame is appended to the buffer
    while a save thread is in its loop. *)
Lemma append_while_save_runs :
  exists a a',
    run late_append_schedule app0 = Some a
    /\ reachable a
    /\ saving (sh a) = true
    /\ (exists j, workers a = [mkWorker j (WLoop 1)] /\ frames j = [frameA])
    /\ step AHookStep a = Some a'
    /\ saveBuffer (sh a) = []
    /\ saveBuffer (sh a') = [frameB].
Proof.
  eexists. eexists.
  split; [vm_compute; reflexivity|].
  split; [apply (run_reachable late_append_schedule app0);
          [apply reachable_initial|vm_compute; reflexivity]|].
  split; [vm_compute; reflexivity|].
  split; [eexists; apply conj; vm_compute; reflexivity|].
  split; [vm_compute; reflexivity|].
  apply conj; vm_compute; reflexivity.
Qed.

(** ** The swap and the append *)

(** C7. Take any reachable state and any interleaving of the threads from
    it.  What was buffered at its start followed by the frames the hook
    pushed during it is what was taken out of the buffer (swapped out by
    [stopSaving], or cleared by [startSaving]) followed by what is buffered
    at its end: the swap loses no frame.  The GUI thread and the hook are
    never both between lock and unlock of [saveMutex], the mutex being held
    exactly then.  The swap hands over exactly the frames buffered at that
    moment, which become the frames of the job; a push adds its frame to
    the buffer as it is at that moment. *)
Theorem no_frame_lost_by_swap (sched : list Action) (a a' : App) :
  reachable a -> run sched a = Some a' ->
  (exists d, buffer_change a a' d)
  /\ pushed_of (history a') = removed_of (history a') ++ saveBuffer (sh a')
  /\ ui_in_critical (uiPc a') && hook_in_critical (hookPc a') = false
  /\ saveMutex (sh a')
     = ui_in_critical (uiPc a') || hook_in_critical (hookPc a')
  /\ (forall now a'', uiPc a' = Stop_swap -> ui_step now a' = Some a'' ->
        uiPc a'' = Stop_unlock (saveBuffer (sh a'))
        /\ saveBuffer (sh a'') = []
        /\ history a'' = history a' ++ [SwappedOut (saveBuffer (sh a'))])
  /\ (forall now taken a'',
        uiPc a' = Stop_unlock taken -> ui_step now a' = Some a'' ->
        uiPc a'' = Stop_finish taken
        /\ saveBuffer (sh a'') = saveBuffer (sh a'))
  /\ (forall now taken a'',
        uiPc a' = Stop_finish taken -> taken <> [] ->
        ui_step now a' = Some a'' ->
        exists j,
          workers a'' = workers a' ++ [mkWorker j (WLoop 0)]
          /\ frames j = taken)
  /\ (forall img a'', hookPc a' = H_push img -> hook_step a' = Some a'' ->
        saveBuffer (sh a'') = saveBuffer (sh a') ++ [img]
        /\ history a'' = history a' ++ [Pushed img]).
Proof.
  intros Hr Hrun.
  pose proof (Inv_reachable a' (run_reachable sched a a' Hr Hrun)) as HI.
  split; [by apply (run_buffer sched)|].
  split; [apply (inv_history a' HI)|].
  split; [apply (inv_exclusion a' HI)|].
  split; [apply (inv_mutex a' HI)|].
  split; [|split; [|split]].
  - intros now a'' Hpc Hstep. unfold ui_step in Hstep. rewrite Hpc in Hstep.
    by injection Hstep as <-.
  - intros now taken a'' Hpc Hstep. unfold ui_step in Hstep.
    rewrite Hpc in Hstep. by injection Hstep as <-.
  - intros now taken a'' Hpc Hne Hstep. unfold ui_step in Hstep.
    rewrite Hpc in Hstep. injection Hstep as <-.
    destruct taken as [|im taken]; [done|].
    exists (job_of now (im :: taken) a'). split; [|done].
    clear. crush_state a'. destruct xlogc; run_state; reflexivity.
  - intros img a'' Hpc Hstep. unfold hook_step in Hstep.
    rewrite Hpc in Hstep. by injection Hstep as <-.
Qed.

Lemma no_frame_lost_by_swap_witness :
  exists a',
    reachable app0
    /\ run (late_append_schedule ++ [AHookStep]) app0 = Some a'
    /\ pushed_of (history a') = [frameA; frameB]
    /\ removed_of (history a') = [frameA]
    /\ saveBuffer (sh a') = [frameB].
Proof.
  eexists. split; [apply reachable_initial|].
  split; [vm_compute; reflexivity|].
  match goal with
  | |- pushed_of (history ?x) = _ /\ _ =>
      destruct (no_frame_lost_by_swap
                  (late_append_schedule ++ [AHookStep]) app0 x)
        as (_ & H & _);
        [apply reachable_initial|vm_compute; reflexivity|]
  end.
  split; [rewrite H; vm_compute; reflexivity|].
  apply conj; vm_compute; reflexivity.
Defined.

(** ** The counter and the buffer *)

(** C10 does not hold of the code.  [startSaving] sets the recording flag
    before it clears the buffer, and resets the counter after the unlock:
    a hook call in between pushes its frame and counts it, and the reset
    then forgets the count.  Here the run ends with every thread idle, the
    session open, one frame buffered and the counter at zero. *)
Theorem counter_behind_buffer_after_start_race :
  exists a,
    run start_race_schedule app0 = Some a
    /\ reachable a
    /\ uiPc a = UiIdle /\ hookPc a = HIdle
    /\ recording (sh a) = true
    /\ saveBuffer (sh a) = [frameA]
    /\ recordedFrames (sh a) = 0.
Proof.
  eexists.
  split; [vm_compute; reflexivity|].
  split; [apply (run_reachable start_race_schedule app0);
          [apply reachable_initial|vm_compute; reflexivity]|].
  repeat apply conj; vm_compute; reflexivity.
Qed.

(** ** Worked examples *)

Example width_of_100_frames : index_width 100 = 6.
Proof. reflexivity. Qed.

Example first_of_100_frames :
  frame_file_name (index_width 100) 0 = qstr "000000.tiff".
Proof. reflexivity. Qed.

Example last_of_100_frames :
  frame_file_name (index_width 100) 99 = qstr "000099.tiff".
Proof. reflexivity. Qed.

Example width_of_long_sequence : index_width 12345678 = 8.
Proof. vm_compute. reflexivity. Qed.

Example name_in_long_sequence :
  frame_file_name (index_width 12345678) 42 = qstr "00000042.tiff".
Proof. vm_compute. reflexivity. Qed.

Example index_of_name : file_name_index (qstr "000099.tiff") = Some 99.
Proof. reflexivity. Qed.

Example ceil_log10_at_power : ceil_log10 10000000 = 7.
Proof. vm_compute. reflexivity. Qed.

Example ceil_log10_above_power : ceil_log10 10000001 = 8.
Proof. vm_compute. reflexivity. Qed.

Example sequence_directory :
  outDir (job_of time1 [frameA] app_recording)
  = qstr "C:/data/20240305_140719".
Proof. vm_compute. reflexivity. Qed.

Example start_line_of_info :
  recordStartStr (job_of time1 [frameA] app_recording)
  = qstr "2024-03-05 14:07:09.042".
Proof. vm_compute. reflexivity. Qed.

(** A frame pushed after the swap sits in the fresh buffer; the [clear()]
    of the next [startSaving] is what drops it. *)
Example frame_in_fresh_buffer_cleared_by_start :
  exists a,
    run stop_then_start_schedule app0 = Some a
    /\ history a
       = [Cleared []; SwappedOut []; Pushed frameB; Cleared [frameB]]
    /\ workers a = []
    /\ recording (sh a) = true
    /\ saveBuffer (sh a) = [].
Proof.
  eexists. split; [vm_compute; reflexivity|].
  repeat apply conj; vm_compute; reflexivity.
Qed.


(** * Further properties *)

(** ** The mutex never blocks for good *)

(** X1. In every reachable state a thread that waits for [saveMutex] waits
    for a thread that can move: when the GUI thread cannot make its next
    step inside a handler, the record hook is inside its critical section
    and can step; when the hook cannot step, the GUI thread is inside its
    critical section and can.  A save thread can always step. *)
Theorem mutex_never_deadlocks (now : QDateTime) (a : App) :
  reachable a ->
  (uiPc a <> UiIdle -> ui_step now a = None ->
   hook_in_critical (hookPc a) = true /\ exists a', hook_step a = Some a')
  /\ (hookPc a <> HIdle -> hook_step a = None ->
      ui_in_critical (uiPc a) = true /\ exists a', ui_step now a = Some a')
  /\ (forall k w, workers a !! k = Some w ->
        exists a', step (AWorkerStep k) a = Some a').
Proof.
  intros Hr. pose proof (Inv_reachable a Hr) as HI.
  pose proof (inv_mutex a HI) as Hm. pose proof (inv_exclusion a HI) as Hx.
  split; [|split].
  - intros Hpc Hstep. unfold ui_step in Hstep.
    destruct (uiPc a) eqn:Epc; try done;
      destruct (saveMutex (sh a)) eqn:Emtx; try done;
      cbn in Hm; symmetry in Hm; (split; [done|]);
      unfold hook_step; destruct (hookPc a); try done; by eexists.
  - intros Hhp Hstep. unfold hook_step in Hstep.
    destruct (hookPc a) eqn:Ehp; try done.
    destruct (saveMutex (sh a)) eqn:Emtx; try done.
    cbn in Hm. rewrite orb_false_r in Hm. symmetry in Hm. split; [done|].
    unfold ui_step. destruct (uiPc a); try done; by eexists.
  - intros k w Hw. cbn [step]. rewrite Hw.
    destruct (worker_step w a) as [[w'|] a1]; by eexists.
Qed.

Lemma mutex_never_deadlocks_witness :
  exists a,
    run (start_schedule time0 ++ [AHookCall frameA; AHookStep]
           ++ [AUiEvent time1 ClickSaveStop; AUiStep time1]) app0 = Some a
    /\ reachable a /\ uiPc a <> UiIdle /\ ui_step time1 a = None
    /\ exists a', hook_step a = Some a'.
Proof.
  eexists. split; [vm_compute; reflexivity|].
  match goal with
  | |- reachable ?x /\ _ =>
      assert (Hr : reachable x)
        by (apply (run_reachable
                     (start_schedule time0 ++ [AHookCall frameA; AHookStep]
                        ++ [AUiEvent time1 ClickSaveStop; AUiStep time1])
                     app0);
            [apply reachable_initial|vm_compute; reflexivity]);
      assert (Hpc : uiPc x <> UiIdle) by (vm_compute; discriminate);
      assert (Hs : ui_step time1 x = None) by (vm_compute; reflexivity);
      destruct (mutex_never_deadlocks time1 x Hr) as (H & _);
      destruct (H Hpc Hs) as (_ & Hhook)
  end.
  split; [exact Hr|]. split; [exact Hpc|]. split; [exact Hs|exact Hhook].
Defined.

(** ** What each thread leaves alone *)

Section Confinement.

Lemma worker_step_keeps w a :
  let a' := (worker_step w a).2 in
  recording (sh a') = recording (sh a)
  /\ recordedFrames (sh a') = recordedFrames (sh a)
  /\ saveBuffer (sh a') = saveBuffer (sh a)
  /\ saveMutex (sh a') = saveMutex (sh a)
  /\ ui a' = ui a /\ history a' = history a
  /\ uiPc a' = uiPc a /\ hookPc a' = hookPc a /\ workers a' = workers a
  /\ applicationDirPath (world a') = applicationDirPath (world a).
Proof.
  destruct w as [j pc]. unfold worker_step. cbn [job wpc].
  crush_state a. destruct pc; run_state; repeat (case_inner; run_state);
    by repeat split.
Qed.

Lemma hook_step_keeps a a' :
  hook_step a = Some a' ->
  ui a' = ui a /\ world a' = world a /\ workers a' = workers a
  /\ uiPc a' = uiPc a /\ saving (sh a') = saving (sh a)
  /\ recording (sh a') = recording (sh a).
Proof.
  intros H. crush_state a.
  destruct xhp; try discriminate H; run_state_in H;
    repeat (case_inner_in H; run_state_in H); simplify_eq; by repeat split.
Qed.

Lemma hook_call_keeps img a :
  ui (hook_call img a) = ui a /\ world (hook_call img a) = world a
  /\ workers (hook_call img a) = workers a
  /\ uiPc (hook_call img a) = uiPc a /\ sh (hook_call img a) = sh a
  /\ history (hook_call img a) = history a.
Proof. unfold hook_call. by destruct (recording (sh a)). Qed.

End Confinement.

(** X2. A save thread works on its job alone: a step of it leaves the
    recording flag, the counter, the buffer and its history, the mutex,
    the other threads and every widget as they are (it only asks the disk,
    queues calls for the GUI thread, writes the log and, at its end, clears
    [saving]).  The record hook, in its call and in each of its steps, does
    no disk request, queues nothing, logs nothing and leaves the widgets,
    the save threads and both flags as they are. *)
Theorem threads_keep_to_their_own (a a' : App) :
  (forall k, step (AWorkerStep k) a = Some a' ->
     recording (sh a') = recording (sh a)
     /\ recordedFrames (sh a') = recordedFrames (sh a)
     /\ saveBuffer (sh a') = saveBuffer (sh a)
     /\ saveMutex (sh a') = saveMutex (sh a)
     /\ history a' = history a /\ ui a' = ui a
     /\ uiPc a' = uiPc a /\ hookPc a' = hookPc a)
  /\ (forall act, act = AHookStep \/ (exists img, act = AHookCall img) ->
      step act a = Some a' ->
      world a' = world a /\ ui a' = ui a /\ workers a' = workers a
      /\ uiPc a' = uiPc a /\ saving (sh a') = saving (sh a)
      /\ recording (sh a') = recording (sh a)).
Proof.
  split.
  - intros k Hstep. cbn [step] in Hstep.
    destruct (workers a !! k) as [w|]; [|discriminate Hstep].
    pose proof (worker_step_keeps w a) as Hk. cbv zeta in Hk.
    destruct (worker_step w a) as [[w'|] a1]; injection Hstep as <-;
      cbn [snd] in Hk; cbn; intuition.
  - intros act [->|[img ->]] Hstep; cbn [step] in Hstep.
    + destruct (hook_step_keeps a a' Hstep) as (? & ? & ? & ? & ? & ?).
      by repeat split.
    + destruct (hookPc a); try discriminate Hstep. injection Hstep as <-.
      destruct (hook_call_keeps img a) as (? & ? & ? & ? & Hsh & ?).
      rewrite Hsh. by repeat split.
Qed.

Lemma threads_keep_to_their_own_witness :
  exists a',
    step (AWorkerStep 0) app_saving = Some a'
    /\ saveBuffer (sh a') = saveBuffer (sh app_saving)
    /\ ui a' = ui app_saving.
Proof.
  eexists. split; [vm_compute; reflexivity|].
  match goal with
  | |- saveBuffer (sh ?x) = _ /\ _ =>
      destruct (threads_keep_to_their_own app_saving x) as (H & _);
      destruct (H 0%nat) as (_ & _ & Hb & _ & _ & Hu & _);
        [vm_compute; reflexivity|]
  end.
  split; [exact Hb|exact Hu].
Defined.

(** ** A save always comes to its end *)

Section SaveEnds.

Lemma worker_step_advances w a :
  (wpc w = WClear /\ worker_step w a = (None, set_saving false a))
  \/ (exists w1 a1,
        worker_step w a = (Some w1, a1)
        /\ S (worker_remaining w1) = worker_remaining w
        /\ saving (sh a1) = saving (sh a)).
Proof.
  destruct w as [j pc]. unfold worker_step, worker_remaining. cbn [job wpc].
  destruct pc as [n| | | |].
  - right. destruct (Z.ltb_spec (Z.of_nat n) (Z.of_nat (length (frames j))))
      as [Hlt|Hge].
    + destruct (lookup_lt_is_Some_2 (frames j) n ltac:(lia)) as [im ->].
      eexists _, _. split; [reflexivity|]. cbn [job wpc frames]. split; [lia|].
      by destruct (progress_due _ _).
    + eexists _, _. split; [reflexivity|]. cbn [job wpc]. split; [lia|done].
  - right. eexists _, _. split; [reflexivity|]. split; [done|].
    unfold logLine. by destruct (logCheck (ui a)).
  - right. eexists _, _. by split.
  - right. eexists _, _. by split.
  - by left.
Qed.

(** A save thread taken through all the steps it has left. *)
Lemma save_thread_ends m : forall w a,
  worker_remaining w = m -> workers a = [w] ->
  exists a',
    run (repeat (AWorkerStep 0) m) a = Some a'
    /\ workers a' = [] /\ saving (sh a') = false
    /\ recording (sh a') = recording (sh a)
    /\ recordedFrames (sh a') = recordedFrames (sh a)
    /\ saveBuffer (sh a') = saveBuffer (sh a)
    /\ saveMutex (sh a') = saveMutex (sh a)
    /\ ui a' = ui a /\ uiPc a' = uiPc a /\ hookPc a' = hookPc a
    /\ history a' = history a.
Proof.
  induction m as [|m IH]; intros w a Hm Hws.
  - destruct w as [j []]; unfold worker_remaining in Hm; cbn in Hm; lia.
  - cbn [repeat run step]. rewrite Hws. cbn [lookup list_lookup].
    pose proof (worker_step_keeps w a) as Hk. cbv zeta in Hk.
    destruct (worker_step_advances w a)
      as [[Hpc Hs]|(w1 & a1 & Hs & Hrem & Hsav)]; rewrite Hs in Hk |- *;
      cbn [snd] in Hk;
      destruct Hk as (K1 & K2 & K3 & K4 & K5 & K6 & K7 & K8 & K9 & _).
    + assert (m = 0%nat) as ->
        by (unfold worker_remaining in Hm; rewrite Hpc in Hm; lia).
      eexists. split; [reflexivity|].
      change (workers (set_saving false a)) with (workers a). rewrite Hws.
      cbn. by repeat split.
    + rewrite K9, Hws. cbn [insert list_insert].
      destruct (IH w1 (set_workers [w1] a1)) as (a' & Hrun & Hfacts);
        [lia|done|].
      exists a'. split; [exact Hrun|].
      destruct Hfacts as (F1 & F2 & F3 & F4 & F5 & F6 & F7 & F8 & F9 & F10).
      cbn in F3, F4, F5, F6, F7, F8, F9, F10.
      repeat split; congruence.
Qed.

End SaveEnds.

(** X3. A running save comes to its end: in a reachable state with
    [saving] set there is exactly one save thread, and the steps it has
    left (at most one per frame and five more) take it to its end, where no
    save thread is left and [saving] is cleared, with the recording
    session, the buffer and the widgets untouched.  After that
    [startSaving] opens a session again. *)
Theorem save_runs_to_its_end (now : QDateTime) (a : App) :
  reachable a -> saving (sh a) = true ->
  exists w a',
    workers a = [w]
    /\ (worker_remaining w <= length (frames (job w)) + 5)%nat
    /\ run (repeat (AWorkerStep 0) (worker_remaining w)) a = Some a'
    /\ workers a' = [] /\ saving (sh a') = false
    /\ recording (sh a') = false
    /\ saveBuffer (sh a') = saveBuffer (sh a)
    /\ ui a' = ui a
    /\ (uiPc a = UiIdle -> saveMutex (sh a) = false ->
        recording (sh (startSaving now a')) = true
        /\ saveBuffer (sh (startSaving now a')) = []
        /\ statusLabel (ui (startSaving now a')) = qstr "Recording...").
Proof.
  intros Hr Hsav. pose proof (Inv_reachable a Hr) as HI.
  destruct (inv_workers a HI) as [[E _]|[_ [w Hws]]]; [congruence|].
  destruct (save_thread_ends (worker_remaining w) w a eq_refl Hws)
    as (a' & Hrun & F1 & F2 & F3 & F4 & F5 & F6 & F7 & F8 & F9 & F10).
  exists w, a'. split; [done|]. split.
  { unfold worker_remaining. destruct (wpc w); lia. }
  split; [done|]. split; [done|]. split; [done|].
  split; [by rewrite F3, (inv_flags a HI)|]. split; [done|]. split; [done|].
  intros Hpc Hmtx.
  rewrite startSaving_not_saving by congruence.
  clear. crush_state a'. destruct xlogc; run_state; by repeat split.
Qed.

Lemma save_runs_to_its_end_witness :
  reachable app_saving /\ saving (sh app_saving) = true
  /\ exists a',
       run (repeat (AWorkerStep 0) 6) app_saving = Some a'
       /\ saving (sh a') = false.
Proof.
  assert (Hr : reachable app_saving).
  { apply (run_reachable
             (start_schedule time0 ++ hook_schedule frameA
                ++ stop_schedule time1) app0);
      [apply reachable_initial|vm_compute; reflexivity]. }
  assert (Hs : saving (sh app_saving) = true) by (vm_compute; reflexivity).
  split; [exact Hr|]. split; [exact Hs|].
  destruct (save_runs_to_its_end time2 app_saving Hr Hs)
    as (w & a' & Hws & _ & Hrun & _ & Hsav & _).
  exists a'. split; [|exact Hsav].
  assert (Ew : w = mkWorker (job_of time1 [frameA] app_recording) (WLoop 0)).
  { assert (E : workers app_saving
                = [mkWorker (job_of time1 [frameA] app_recording) (WLoop 0)])
      by (vm_compute; reflexivity).
    rewrite E in Hws. by injection Hws as <-. }
  rewrite Ew in Hrun. exact Hrun.
Defined.

(** ** Runs in which handlers and hook calls do not overlap *)

Section WholeRuns.

Lemma int_cast_add_l x y : int_cast (int_cast x + y) = int_cast (x + y).
Proof.
  unfold int_cast. f_equal.
  replace ((x + 2 ^ 31) mod 2 ^ 32 - 2 ^ 31 + y + 2 ^ 31)
    with ((x + 2 ^ 31) mod 2 ^ 32 + y) by lia.
  rewrite Zplus_mod_idemp_l. f_equal. lia.
Qed.

Lemma ui_run_reachable fuel now : forall a,
  reachable a -> reachable (ui_run fuel now a).
Proof.
  induction fuel as [|f IH]; intros a Hr; cbn [ui_run]; [done|].
  destruct (ui_step now a) as [a1|] eqn:Hs; [|done].
  apply IH. by apply (reachable_step a (AUiStep now)).
Qed.

Lemma hook_run_reachable fuel : forall a,
  reachable a -> reachable (hook_run fuel a).
Proof.
  induction fuel as [|f IH]; intros a Hr; cbn [hook_run]; [done|].
  destruct (hook_step a) as [a1|] eqn:Hs; [|done].
  apply IH. by apply (reachable_step a AHookStep).
Qed.

Lemma whole_step_reachable act a a' :
  reachable a -> whole_step act a = Some a' -> reachable a'.
Proof.
  intros Hr Hs. destruct act as [now e|img|k]; cbn [whole_step] in Hs.
  - destruct (ui_event now e a) as [a1|] eqn:He; [|discriminate Hs].
    injection Hs as <-. apply (ui_run_reachable 6 now).
    by apply (reachable_step a (AUiEvent now e)).
  - destruct (hookPc a) eqn:Hpc; try discriminate Hs. injection Hs as <-.
    apply (hook_run_reachable 4). apply (reachable_step a (AHookCall img)); [done|].
    cbn [step]. by rewrite Hpc.
  - by apply (reachable_step a (AWorkerStep k)).
Qed.

(** An event leaves the shared variables to the handler it starts. *)
Lemma ui_event_enters now e a a1 :
  ui_event now e a = Some a1 ->
  sh a1 = sh a /\ hookPc a1 = hookPc a
  /\ saveInfoTimer (ui a1) = saveInfoTimer (ui a)
  /\ (uiPc a1 = UiIdle \/ uiPc a1 = Start_setFlag
      \/ (uiPc a1 = Stop_clearFlag /\ recording (sh a) = true)).
Proof.
  intros H. unfold ui_event in H.
  crush_state a. destruct xpc; try discriminate H.
  destruct e; run_state_in H; repeat (case_inner_in H; run_state_in H);
    simplify_eq; repeat split; auto.
Qed.

Lemma ui_run_start now a :
  uiPc a = Start_setFlag -> saveMutex (sh a) = false ->
  let a' := ui_run 6 now a in
  uiPc a' = UiIdle /\ hookPc a' = hookPc a
  /\ sh a' = mkShared true (saving (sh a)) 0 [] false
  /\ saveInfoTimer (ui a') = true.
Proof.
  intros Hpc Hmtx. crush_state a. cbn in Hpc, Hmtx. subst.
  destruct xlogc; run_state; by repeat split.
Qed.

Lemma ui_run_stop now a :
  uiPc a = Stop_clearFlag -> saveMutex (sh a) = false ->
  let a' := ui_run 6 now a in
  uiPc a' = UiIdle /\ hookPc a' = hookPc a
  /\ recording (sh a') = false /\ saveBuffer (sh a') = []
  /\ saveMutex (sh a') = false /\ saveInfoTimer (ui a') = false.
Proof.
  intros Hpc Hmtx. crush_state a. cbn in Hpc, Hmtx. subst.
  destruct xbuf, xlogc; run_state; by repeat split.
Qed.

(** What holds between handlers and hook calls that do not overlap. *)
Lemma whole_ui_keeps now e a a1 :
  uiPc a = UiIdle -> hookPc a = HIdle -> saveMutex (sh a) = false ->
  (recording (sh a) = true ->
   recordedFrames (sh a) = int_cast (Z.of_nat (length (saveBuffer (sh a))))) ->
  (recording (sh a) = false -> saveBuffer (sh a) = []) ->
  saveInfoTimer (ui a) = recording (sh a) ->
  ui_event now e a = Some a1 ->
  let a' := ui_run 6 now a1 in
  uiPc a' = UiIdle /\ hookPc a' = HIdle /\ saveMutex (sh a') = false
  /\ (recording (sh a') = true ->
      recordedFrames (sh a')
      = int_cast (Z.of_nat (length (saveBuffer (sh a')))))
  /\ (recording (sh a') = false -> saveBuffer (sh a') = [])
  /\ saveInfoTimer (ui a') = recording (sh a').
Proof.
  intros Hpc Hhp Hmtx Hcnt Hbuf Htim He a'.
  destruct (ui_event_enters now e a a1 He)
    as (Es & Eh & Et & [Hidle|[Hstart|[Hstop Hrec]]]).
  - unfold a'. rewrite ui_run_idle by done. rewrite Es, Eh, Et.
    by repeat split.
  - destruct (ui_run_start now a1 Hstart) as (K1 & K2 & K3 & K4);
      [by rewrite Es|].
    fold a' in K1, K2, K3, K4. rewrite K3, K4.
    cbn [recording recordedFrames saveBuffer saveMutex length].
    repeat split; try done; congruence.
  - destruct (ui_run_stop now a1 Hstop) as (K1 & K2 & K3 & K4 & K5 & K6);
      [by rewrite Es|].
    fold a' in K1, K2, K3, K4, K5, K6. rewrite K3, K6.
    repeat split; try done; congruence.
Qed.

Lemma whole_hook_keeps img a :
  uiPc a = UiIdle -> hookPc a = HIdle -> saveMutex (sh a) = false ->
  (recording (sh a) = true ->
   recordedFrames (sh a) = int_cast (Z.of_nat (length (saveBuffer (sh a))))) ->
  let a' := recordHook img a in
  uiPc a' = UiIdle /\ hookPc a' = HIdle /\ saveMutex (sh a') = false
  /\ recording (sh a') = recording (sh a)
  /\ ui a' = ui a
  /\ (recording (sh a') = true ->
      recordedFrames (sh a')
      = int_cast (Z.of_nat (length (saveBuffer (sh a')))))
  /\ (recording (sh a) = false -> saveBuffer (sh a') = saveBuffer (sh a)).
Proof.
  intros Hpc Hhp Hmtx Hcnt.
  crush_state a. cbn in Hpc, Hhp, Hmtx, Hcnt. subst.
  destruct xrec; run_state; repeat split; try done.
  intros _. rewrite Hcnt by done. rewrite int_cast_add_l. f_equal.
  rewrite length_app. cbn [length]. lia.
Qed.

End WholeRuns.

(** X4. As long as handlers and hook calls do not overlap (each handler of
    the GUI thread and each call of the record hook runs to its end before
    the other thread does its next statement, save threads stepping in
    between as they like), every state between them has both threads idle
    and the mutex free, the counter [recordedFrames] equal to the number of
    buffered frames (as an [int]) while a session is open, an empty buffer
    while none is open, and the timer of the "Frames:" label running
    exactly while a session is open.  Such a state is a reachable one. *)
Theorem counter_matches_buffer_in_whole_runs (a : App) :
  reachable_whole a ->
  reachable a
  /\ uiPc a = UiIdle /\ hookPc a = HIdle /\ saveMutex (sh a) = false
  /\ (recording (sh a) = true ->
      recordedFrames (sh a) = int_cast (Z.of_nat (length (saveBuffer (sh a)))))
  /\ (recording (sh a) = false -> saveBuffer (sh a) = [])
  /\ saveInfoTimer (ui a) = recording (sh a).
Proof.
  induction 1 as [appDir saveDir exposure|a act a' Hw IH Hs].
  - split; [apply reachable_initial|]. cbn. by repeat split.
  - destruct IH as (Hr & Hpc & Hhp & Hmtx & Hcnt & Hbuf & Htim).
    split; [by apply (whole_step_reachable act a)|].
    destruct act as [now e|img|k]; cbn [whole_step] in Hs.
    + destruct (ui_event now e a) as [a1|] eqn:He; [|discriminate Hs].
      assert (a' = ui_run 6 now a1) as -> by (by injection Hs as <-).
      by apply (whole_ui_keeps now e a a1).
    + assert (a' = recordHook img a) as ->
        by (rewrite Hhp in Hs; by injection Hs as <-).
      destruct (whole_hook_keeps img a Hpc Hhp Hmtx Hcnt)
        as (K1 & K2 & K3 & K4 & K5 & K6 & K7).
      repeat split; try done.
      * intros Hrec. rewrite K7 by congruence. apply Hbuf. congruence.
      * rewrite K5, K4. done.
    + cbn [step] in Hs.
      destruct (workers a !! k) as [w|]; [|discriminate Hs].
      pose proof (worker_step_keeps w a) as Hk. cbv zeta in Hk.
      destruct (worker_step w a) as [[w'|] a1]; injection Hs as <-;
        cbn [snd] in Hk;
        destruct Hk as (K1 & K2 & K3 & K4 & K5 & K6 & K7 & K8 & _);
        cbn; rewrite ?K1, ?K2, ?K3, ?K4, ?K5, ?K7, ?K8; by repeat split.
Qed.

Lemma counter_matches_buffer_in_whole_runs_witness :
  reachable_whole app_recording
  /\ recordedFrames (sh app_recording) = 1
  /\ saveBuffer (sh app_recording) = [frameA].
Proof.
  assert (Hw : reachable_whole app_recording).
  { apply (reachable_whole_step (startSaving time0 app0) (WholeHook frameA));
      [|vm_compute; reflexivity].
    apply (reachable_whole_step app0 (WholeUi time0 ClickSaveStart));
      [|vm_compute; reflexivity].
    apply reachable_whole_initial. }
  split; [exact Hw|].
  destruct (counter_matches_buffer_in_whole_runs app_recording Hw)
    as (_ & _ & _ & _ & Hcnt & _).
  split; [|vm_compute; reflexivity].
  rewrite Hcnt by (vm_compute; reflexivity). vm_compute. reflexivity.
Defined.

(** ** A session from Start to the files on disk *)

Section Session.

Lemma int_cast_range z : - 2 ^ 31 <= int_cast z < 2 ^ 31.
Proof.
  unfold int_cast. pose proof (Z.mod_pos_bound (z + 2 ^ 31) (2 ^ 32)). lia.
Qed.

Lemma recordHook_recording img a :
  hookPc a = HIdle -> saveMutex (sh a) = false -> recording (sh a) = true ->
  sh (recordHook img a)
  = mkShared true (saving (sh a)) (int_cast (recordedFrames (sh a) + 1))
      (saveBuffer (sh a) ++ [img]) false
  /\ ui (recordHook img a) = ui a /\ world (recordHook img a) = world a
  /\ workers (recordHook img a) = workers a
  /\ uiPc (recordHook img a) = uiPc a /\ hookPc (recordHook img a) = HIdle
  /\ history (recordHook img a) = history a ++ [Pushed img].
Proof.
  intros Hhp Hmtx Hrec. crush_state a. cbn in Hhp, Hmtx, Hrec. subst.
  run_state. by repeat split.
Qed.

Lemma recordHook_not_recording img a :
  hookPc a = HIdle -> recording (sh a) = false -> recordHook img a = a.
Proof.
  intros Hhp Hrec. crush_state a. cbn in Hhp, Hrec. subst. reflexivity.
Qed.

Lemma recordHook_all_recording imgs : forall a,
  hookPc a = HIdle -> saveMutex (sh a) = false -> recording (sh a) = true ->
  - 2 ^ 31 <= recordedFrames (sh a) < 2 ^ 31 ->
  sh (recordHook_all imgs a)
  = mkShared true (saving (sh a))
      (int_cast (recordedFrames (sh a) + Z.of_nat (length imgs)))
      (saveBuffer (sh a) ++ imgs) false
  /\ ui (recordHook_all imgs a) = ui a
  /\ world (recordHook_all imgs a) = world a
  /\ workers (recordHook_all imgs a) = workers a
  /\ uiPc (recordHook_all imgs a) = uiPc a
  /\ hookPc (recordHook_all imgs a) = HIdle
  /\ history (recordHook_all imgs a) = history a ++ map Pushed imgs.
Proof.
  induction imgs as [|img imgs IH]; intros a Hhp Hmtx Hrec Hrng.
  - cbn [recordHook_all fold_left length map]. rewrite !app_nil_r, Z.add_0_r.
    rewrite int_cast_small by done.
    repeat split; try done. destruct a as [[] ? ? ? ? ? ?].
    cbn in Hmtx, Hrec |- *. by subst.
  - change (recordHook_all (img :: imgs) a)
      with (recordHook_all imgs (recordHook img a)).
    destruct (recordHook_recording img a Hhp Hmtx Hrec)
      as (Hs & Hu & Hw & Hws & Hpc & Hh & Hhist).
    destruct (IH (recordHook img a)) as (I1 & I2 & I3 & I4 & I5 & I6 & I7);
      [done|by rewrite Hs|by rewrite Hs|rewrite Hs; apply int_cast_range|].
    rewrite I1, I2, I3, I4, I5, I6, I7, Hs, Hu, Hw, Hws, Hpc, Hhist.
    cbn [saving recordedFrames saveBuffer map length].
    rewrite int_cast_add_l, <- !app_assoc.
    repeat split; try done. do 2 f_equal. lia.
Qed.

Lemma recordHook_all_not_recording imgs : forall a,
  hookPc a = HIdle -> recording (sh a) = false -> recordHook_all imgs a = a.
Proof.
  induction imgs as [|img imgs IH]; intros a Hhp Hrec; [done|].
  change (recordHook_all (img :: imgs) a)
    with (recordHook_all imgs (recordHook img a)).
  rewrite recordHook_not_recording by done. by apply IH.
Qed.

(** [stopSaving] with frames in the buffer: the flags and the buffer
    afterwards. *)
Lemma stopSaving_flags now a :
  uiPc a = UiIdle -> recording (sh a) = true -> saveMutex (sh a) = false ->
  saveBuffer (sh a) <> [] ->
  saving (sh (stopSaving now a)) = true
  /\ recording (sh (stopSaving now a)) = false
  /\ saveBuffer (sh (stopSaving now a)) = []
  /\ saveMutex (sh (stopSaving now a)) = false.
Proof.
  intros Hpc Hrec Hmtx Hbuf. rewrite stopSaving_recording by done.
  clear Hrec. crush_state a. cbn in Hpc, Hmtx, Hbuf. subst.
  destruct xbuf; [done|]. destruct xlogc; run_state; by repeat split.
Qed.

End Session.

(** X5. The record hook called for the images of a list, one call after
    the other: while a session is open the images are appended to the
    buffer in the order of the calls, nothing left out and nothing twice,
    and the counter goes up by their number (as an [int]); while no session
    is open the calls change nothing at all.  In both cases the widgets,
    the disk, the log and the save threads are as before. *)
Theorem frames_buffered_in_call_order (imgs : list QImage) (a : App) :
  hookPc a = HIdle -> saveMutex (sh a) = false ->
  - 2 ^ 31 <= recordedFrames (sh a) < 2 ^ 31 ->
  (recording (sh a) = true ->
   saveBuffer (sh (recordHook_all imgs a)) = saveBuffer (sh a) ++ imgs
   /\ recordedFrames (sh (recordHook_all imgs a))
      = int_cast (recordedFrames (sh a) + Z.of_nat (length imgs))
   /\ recording (sh (recordHook_all imgs a)) = true
   /\ saveMutex (sh (recordHook_all imgs a)) = false
   /\ hookPc (recordHook_all imgs a) = HIdle
   /\ ui (recordHook_all imgs a) = ui a
   /\ world (recordHook_all imgs a) = world a
   /\ workers (recordHook_all imgs a) = workers a)
  /\ (recording (sh a) = false -> recordHook_all imgs a = a).
Proof.
  intros Hhp Hmtx Hrng. split.
  - intros Hrec.
    destruct (recordHook_all_recording imgs a Hhp Hmtx Hrec Hrng)
      as (I1 & I2 & I3 & I4 & I5 & I6 & I7).
    rewrite I1. by repeat split.
  - intros Hrec. by apply recordHook_all_not_recording.
Qed.

Lemma frames_buffered_in_call_order_witness :
  saveBuffer (sh (recordHook_all [frameB; frameA] app_recording))
  = [frameA; frameB; frameA]
  /\ recordHook_all [frameB; frameA] app0 = app0.
Proof.
  destruct (frames_buffered_in_call_order [frameB; frameA] app_recording)
    as [Hrec _]; [reflexivity|reflexivity|vm_compute; split; [discriminate|reflexivity]|].
  destruct (frames_buffered_in_call_order [frameB; frameA] app0)
    as [_ Hnot]; [reflexivity|reflexivity|vm_compute; split; [discriminate|reflexivity]|].
  split.
  - destruct Hrec as [-> _]; [reflexivity|]. reflexivity.
  - apply Hnot. reflexivity.
Defined.

(** X6. A session from Start to the disk: [startSaving] at [now0] with no
    save running, then the record hook called for [imgs] (not empty), then
    [stopSaving] at [now1].  One save thread is started; its job is exactly
    [imgs] in the order of the hook calls, whatever was in the buffer
    before Start, with the start time [now0] and a directory named after
    [now1] under the base directory.  Afterwards [saving] is set, the
    session is closed and the buffer is empty.  Run to its end, the thread
    asks the disk for the images in that order, image [i] under the name
    of index [i], and then for [capture_info.txt]. *)
Theorem session_saves_what_was_grabbed
  (now0 now1 : QDateTime) (imgs : list QImage) (a : App) :
  uiPc a = UiIdle -> hookPc a = HIdle -> saveMutex (sh a) = false ->
  saving (sh a) = false -> imgs <> [] ->
  let a3 := stopSaving now1 (recordHook_all imgs (startSaving now0 a)) in
  exists j,
    workers a3 = workers a ++ [mkWorker j (WLoop 0)]
    /\ frames j = imgs
    /\ totalFrames j = int_cast (Z.of_nat (length imgs))
    /\ recordStartStr j = toString_log (Some now0)
    /\ outDir j = filePath (baseDir a) (toString_yyyyMMdd_hhmmss now1)
    /\ saving (sh a3) = true /\ recording (sh a3) = false
    /\ saveBuffer (sh a3) = []
    /\ (forall b, exists b',
          worker_run (worker_steps j) (mkWorker j (WLoop 0)) b = (None, b')
          /\ disk (world b')
             = disk (world b)
                 ++ imap (fun i im =>
                            SaveImage (frame_path j (Z.of_nat i)) im) imgs
                 ++ [WriteTextFile (info_path j) (capture_info j)]
          /\ saving (sh b') = false).
Proof.
  intros Hpc Hhp Hmtx Hsav Himgs a3.
  set (a1 := startSaving now0 a).
  assert (H1 : uiPc a1 = UiIdle /\ hookPc a1 = HIdle
               /\ sh a1 = mkShared true false 0 [] false
               /\ workers a1 = workers a
               /\ recordStartTime (ui a1) = Some now0
               /\ baseDir a1 = baseDir a).
  { unfold a1. rewrite startSaving_not_saving by done.
    clear Himgs a1 a3. crush_state a. cbn in Hpc, Hhp, Hmtx, Hsav. subst.
    destruct xlogc; run_state; by repeat split. }
  destruct H1 as (P1 & P2 & P3 & P4 & P5 & P6).
  set (a2 := recordHook_all imgs a1).
  destruct (recordHook_all_recording imgs a1)
    as (I1 & I2 & I3 & I4 & I5 & I6 & _);
    [done|by rewrite P3|by rewrite P3|rewrite P3; cbn; lia|].
  fold a2 in I1, I2, I3, I4, I5, I6.
  rewrite P3 in I1. cbn [saving recordedFrames saveBuffer app] in I1.
  assert (Hbuf : saveBuffer (sh a2) = imgs) by (by rewrite I1).
  assert (Hrec : recording (sh a2) = true) by (by rewrite I1).
  assert (Hm2 : saveMutex (sh a2) = false) by (by rewrite I1).
  assert (Hpc2 : uiPc a2 = UiIdle) by congruence.
  assert (Hne : saveBuffer (sh a2) <> []) by (by rewrite Hbuf).
  destruct (stopSaving_flags now1 a2 Hpc2 Hrec Hm2 Hne) as (F1 & F2 & F3 & _).
  exists (job_of now1 imgs a2).
  split.
  { unfold a3. fold a1. fold a2.
    rewrite (stopSaving_spawns now1 a2) by done. by rewrite I4, P4, Hbuf. }
  split; [done|]. split; [done|].
  split; [cbn [recordStartStr job_of]; by rewrite I2, P5|].
  split.
  { cbn [outDir job_of]. f_equal. rewrite <- P6. unfold baseDir.
    by rewrite I2, I3. }
  split; [done|]. split; [done|]. split; [done|].
  intros b.
  destruct (worker_run_from (job_of now1 imgs a2) imgs 0 b eq_refl)
    as (b' & Hrun & Hdisk & _ & Hsh & _).
  exists b'. split; [exact Hrun|]. split; [exact Hdisk|]. by rewrite Hsh.
Qed.

Lemma session_saves_what_was_grabbed_witness :
  exists j,
    workers (stopSaving time1
               (recordHook_all [frameA; frameB] (startSaving time0 app0)))
    = [mkWorker j (WLoop 0)]
    /\ frames j = [frameA; frameB].
Proof.
  destruct (session_saves_what_was_grabbed time0 time1 [frameA; frameB] app0)
    as (j & Hw & Hf & _); [reflexivity..|discriminate|].
  exists j. split; [exact Hw|exact Hf].
Defined.

(** ** The progress of a save *)

Section Progress.

Lemma stopSaving_dialog now a :
  uiPc a = UiIdle -> recording (sh a) = true -> saveMutex (sh a) = false ->
  saveBuffer (sh a) <> [] ->
  let total := int_cast (Z.of_nat (length (saveBuffer (sh a)))) in
  savingDialog (ui (stopSaving now a))
  = Some (mkDialog true
            (qstr "Saving " ++ number_int total ++ qstr " frames...")
            0 (Z.max 0 total) 0)
  /\ posted (world (stopSaving now a)) = posted (world a)
  /\ uiPc (stopSaving now a) = UiIdle
  /\ statusLabel (ui (stopSaving now a)) = qstr "Saving to disk...".
Proof.
  intros Hpc Hrec Hmtx Hbuf total. rewrite stopSaving_recording by done.
  unfold total. clear Hrec total. crush_state a. cbn in Hpc, Hmtx, Hbuf. subst.
  destruct xbuf as [|im xbuf]; [done|].
  destruct xlogc, xdlg as [[]|]; run_state;
    change (0 <=? 0) with true; cbv iota;
    match goal with
    | |- context [0 <=? Z.max 0 ?t] =>
        rewrite (proj2 (Z.leb_le 0 (Z.max 0 t)) (Z.le_max_l 0 t))
    end;
    by repeat split.
Qed.

Lemma run_app s1 : forall s2 a,
  run (s1 ++ s2) a = match run s1 a with Some b => run s2 b | None => None end.
Proof.
  induction s1 as [|act s1 IH]; intros s2 a; [done|].
  cbn [app run]. destruct (step act a); [apply IH|done].
Qed.

(** A save thread does not look at the list of threads. *)
Lemma worker_step_set_workers w ws a :
  worker_step w (set_workers ws a)
  = ((worker_step w a).1, set_workers ws (worker_step w a).2).
Proof.
  destruct w as [j pc]. unfold worker_step. cbn [job wpc].
  crush_state a. destruct pc; run_state; repeat (case_inner; run_state);
    reflexivity.
Qed.

(** The only save thread there is, stepped by the scheduler until it is
    gone, does what [worker_run] does. *)
Lemma run_worker_alone m : forall w a,
  worker_remaining w = m -> workers a = [w] ->
  worker_run m w a = (None, (worker_run m w a).2)
  /\ run (repeat (AWorkerStep 0) m) a
     = Some (set_workers [] (worker_run m w a).2).
Proof.
  induction m as [|m IH]; intros w a Hm Hws.
  - destruct w as [j []]; unfold worker_remaining in Hm; cbn in Hm; lia.
  - cbn [repeat run step worker_run]. rewrite Hws. cbn [lookup list_lookup].
    pose proof (worker_step_keeps w a) as Hk. cbv zeta in Hk.
    destruct (worker_step_advances w a)
      as [[Hpc Hs]|(w1 & a1 & Hs & Hrem & _)]; rewrite Hs in Hk |- *;
      cbn [snd] in Hk;
      destruct Hk as (_ & _ & _ & _ & _ & _ & _ & _ & K9 & _).
    + assert (m = 0%nat) as ->
        by (unfold worker_remaining in Hm; rewrite Hpc in Hm; lia).
      split; [done|]. cbn [repeat run snd].
      change (workers (set_saving false a)) with (workers a).
      by rewrite Hws.
    + rewrite K9, Hws. cbn [insert list_insert].
      destruct (IH w1 (set_workers [w1] a1)) as [I1 I2]; [lia|done|].
      assert (E : forall k w b,
                worker_run k w (set_workers [w1] b)
                = ((worker_run k w b).1,
                   set_workers [w1] (worker_run k w b).2)).
      { clear. induction k as [|k IHk]; intros w b; [done|].
        cbn [worker_run]. rewrite worker_step_set_workers.
        destruct (worker_step w b) as [[w'|] b']; cbn [fst snd]; [|done].
        apply IHk. }
      rewrite E in I1, I2. cbn [snd] in I1, I2.
      split.
      * destruct (worker_run m w1 a1) as [o b]. cbn [fst snd] in *.
        by injection I1 as ->.
      * rewrite I2. reflexivity.
Qed.

Lemma progress_posts_cons size n count :
  progress_posts size n (S count)
  = (if progress_due size (Z.of_nat n)
     then [SetProgress (int_cast (Z.of_nat n + 1))] else [])
      ++ progress_posts size (S n) count.
Proof. reflexivity. Qed.

Lemma progress_posts_snoc size n count :
  progress_posts size n (S count)
  = progress_posts size n count
      ++ (if progress_due size (Z.of_nat (n + count))
          then [SetProgress (int_cast (Z.of_nat (n + count) + 1))] else []).
Proof.
  unfold progress_posts. rewrite seq_S, flat_map_app. cbn [flat_map].
  by rewrite app_nil_r.
Qed.

(** What a save thread has queued when it is gone. *)
Lemma worker_run_posted j (l : list QImage) : forall n a,
  drop n (frames j) = l ->
  posted (world (worker_run (length l + 5) (mkWorker j (WLoop n)) a).2)
  = posted (world a)
      ++ progress_posts (Z.of_nat (length (frames j))) n (length l)
      ++ [SetStatus (qstr "Save complete"); HideDialog].
Proof.
  induction l as [|im l IH]; intros n a Hdrop.
  - assert (length (frames j) <= n)%nat.
    { apply (f_equal length) in Hdrop. rewrite length_drop in Hdrop.
      simpl in Hdrop. lia. }
    simpl (length [] + 5)%nat. rewrite worker_run_after_loop by done.
    cbn [snd]. by rewrite after_loop_posted.
  - assert (Him : frames j !! n = Some im).
    { pose proof (lookup_drop (frames j) n 0) as E.
      rewrite Hdrop, Nat.add_0_r in E. by rewrite <- E. }
    assert (Hnext : drop (S n) (frames j) = l).
    { rewrite <- Nat.add_1_r, <- drop_drop, Hdrop. done. }
    change (length (im :: l) + 5)%nat with (S (length l + 5)).
    cbn [worker_run]. rewrite (worker_step_save j n im) by done.
    rewrite IH by done. cbn [length]. rewrite progress_posts_cons.
    destruct (progress_due (Z.of_nat (length (frames j))) (Z.of_nat n));
      cbn [id post posted world set_posted request set_disk];
      by rewrite <- ?app_assoc.
Qed.

Lemma StronglySorted_snoc (l : list Z) y :
  StronglySorted Z.lt l -> Forall (fun x => x < y) l ->
  StronglySorted Z.lt (l ++ [y]).
Proof.
  induction 1 as [|x l Hs IH Hx]; intros Hy; cbn [app].
  - constructor; constructor.
  - inversion Hy as [|? ? Hxy Hl]; subst. constructor; [by apply IH|].
    apply Forall_app. split; [done|]. by constructor.
Qed.

(** The values a save of [N] frames reports: from 1 to [N], going up, the
    last one [N]. *)
Lemma progress_posts_values N :
  1 <= N <= INT_MAX ->
  forall count, Z.of_nat count <= N ->
  exists vs,
    progress_posts N 0 count = map SetProgress vs
    /\ Forall (fun v => 1 <= v <= Z.of_nat count) vs
    /\ StronglySorted Z.lt vs
    /\ (Z.of_nat count = N -> last vs = Some N)
    /\ (forall v,
          In v vs
          <-> 1 <= v <= Z.of_nat count /\ ((v - 1) mod 100 = 0 \/ v = N)).
Proof.
  intros HN. induction count as [|c IH]; intros Hc.
  - exists []. repeat split; try done; [constructor|lia|].
    intros [H _]. cbn in H. lia.
  - destruct IH as (vs & Ep & Hall & Hsort & _ & Hin); [lia|].
    rewrite progress_posts_snoc, Ep. cbn [Nat.add].
    unfold progress_due.
    assert (Hsnoc : forall v,
              In v (vs ++ [Z.of_nat c + 1])
              <-> (1 <= v <= Z.of_nat c
                   /\ ((v - 1) mod 100 = 0 \/ v = N))
                  \/ v = Z.of_nat c + 1).
    { intros v. rewrite in_app_iff, Hin. cbn [In]. intuition. }
    destruct (Z.eqb_spec (Z.of_nat c + 1) N) as [Elast|Hnot].
    + rewrite orb_true_r. exists (vs ++ [Z.of_nat c + 1]).
      rewrite int_cast_small by (unfold INT_MAX in HN; lia).
      rewrite map_app. split; [done|]. split; [|split; [|split]].
      * apply Forall_app. split; [|constructor; [lia|done]].
        eapply Forall_impl; [exact Hall|]. cbn. lia.
      * apply StronglySorted_snoc; [done|].
        eapply Forall_impl; [exact Hall|]. cbn. lia.
      * intros _. by rewrite last_snoc, Elast.
      * intros v. rewrite Hsnoc. split.
        -- intros [[Hb Hv]|Hv]; [split; [lia|done]|]. split; [lia|].
           right. lia.
        -- intros [Hb Hv].
           destruct (Z.eq_dec v (Z.of_nat c + 1)) as [E|E]; [by right|].
           left. split; [lia|done].
    + rewrite orb_false_r.
      destruct (Z.eqb_spec (Z.of_nat c mod 100) 0) as [Emod|Emod].
      * exists (vs ++ [Z.of_nat c + 1]).
        rewrite int_cast_small by (unfold INT_MAX in HN; lia).
        rewrite map_app. split; [done|]. split; [|split; [|split]].
        -- apply Forall_app. split; [|constructor; [lia|done]].
           eapply Forall_impl; [exact Hall|]. cbn. lia.
        -- apply StronglySorted_snoc; [done|].
           eapply Forall_impl; [exact Hall|]. cbn. lia.
        -- lia.
        -- intros v. rewrite Hsnoc. split.
           ++ intros [[Hb Hv]|Hv]; [split; [lia|done]|]. split; [lia|].
              left. subst v.
              by replace (Z.of_nat c + 1 - 1) with (Z.of_nat c) by lia.
           ++ intros [Hb Hv].
              destruct (Z.eq_dec v (Z.of_nat c + 1)) as [E|E]; [by right|].
              left. split; [lia|done].
      * exists vs. rewrite app_nil_r. split; [done|].
        split; [|split; [|split]].
        -- eapply Forall_impl; [exact Hall|]. cbn. lia.
        -- done.
        -- lia.
        -- intros v. rewrite Hin. split.
           ++ intros [Hb Hv]. split; [lia|done].
           ++ intros [Hb Hv]. split; [|done].
              destruct (Z.eq_dec v (Z.of_nat c + 1)) as [E|E]; [|lia].
              exfalso. subst v.
              replace (Z.of_nat c + 1 - 1) with (Z.of_nat c) in Hv by lia.
              destruct Hv; [done|lia].
Qed.

(** Progress values in the range of the bar, taken from the queue one by
    one. *)
Lemma deliver_progress now vs : forall a d rest,
  uiPc a = UiIdle -> savingDialog (ui a) = Some d ->
  posted (world a) = map SetProgress vs ++ rest ->
  Forall (fun v => progressMin d <= v <= progressMax d) vs ->
  exists a',
    run (repeat (AUiEvent now DeliverPosted) (length vs)) a = Some a'
    /\ uiPc a' = UiIdle /\ posted (world a') = rest
    /\ savingDialog (ui a')
       = Some (mkDialog (dlgVisible d) (dlgLabel d) (progressMin d)
                 (progressMax d) (default (progressValue d) (last vs)))
    /\ statusLabel (ui a') = statusLabel (ui a) /\ sh a' = sh a
    /\ workers a' = workers a.
Proof.
  induction vs as [|v vs IH]; intros a d rest Hpc Hd Hq Hall.
  - exists a. cbn. repeat split; try done. by destruct d.
  - inversion Hall as [|? ? Hv Hvs]; subst.
    cbn [length repeat run step]. unfold ui_event. rewrite Hpc, Hq.
    cbn [map app].
    set (a1 := deliver (SetProgress v) (set_posted (map SetProgress vs ++ rest) a)).
    assert (H1 : uiPc a1 = UiIdle
                 /\ savingDialog (ui a1)
                    = Some (mkDialog (dlgVisible d) (dlgLabel d)
                              (progressMin d) (progressMax d) v)
                 /\ posted (world a1) = map SetProgress vs ++ rest
                 /\ statusLabel (ui a1) = statusLabel (ui a)
                 /\ sh a1 = sh a /\ workers a1 = workers a).
    { unfold a1, deliver.
      change (savingDialog (ui (set_posted _ a))) with (savingDialog (ui a)).
      rewrite Hd. cbn [fmap option_fmap option_map]. unfold setValue.
      replace (progressMin d <=? v) with true by (symmetry; apply Z.leb_le; lia).
      replace (v <=? progressMax d) with true by (symmetry; apply Z.leb_le; lia).
      cbn [andb]. clear -Hpc. crush_state a. cbn in Hpc. subst.
      by repeat split. }
    destruct H1 as (P1 & P2 & P3 & P4 & P5 & P6).
    destruct (IH a1 _ rest P1 P2 P3) as (a' & Hrun & F1 & F2 & F3 & F4 & F5 & F6);
      [done|].
    exists a'. split; [exact Hrun|]. cbn [dlgVisible dlgLabel progressMin
      progressMax progressValue] in F3.
    repeat split; try congruence.
    rewrite F3. do 2 f_equal. destruct vs as [|v' vs]; [done|].
    change (last (v :: v' :: vs)) with (last (v' :: vs)).
    destruct (last (v' :: vs)) eqn:E; [done|]. by apply last_None in E.
Qed.

Lemma deliver_end now text a d :
  uiPc a = UiIdle -> posted (world a) = [SetStatus text; HideDialog] ->
  savingDialog (ui a) = Some d ->
  exists a',
    run (repeat (AUiEvent now DeliverPosted) 2) a = Some a'
    /\ posted (world a') = []
    /\ savingDialog (ui a')
       = Some (mkDialog false (dlgLabel d) (progressMin d) (progressMax d)
                 (progressValue d))
    /\ statusLabel (ui a') = text.
Proof.
  intros Hpc Hq Hd. crush_state a. cbn in Hpc, Hq, Hd. subst.
  eexists. split; [run_state; reflexivity|]. by repeat split.
Qed.

End Progress.

(** X7. What the user sees of a save.  [stopSaving] with [N] frames in the
    buffer ([0 < N <= INT_MAX]), no other save thread and an empty queue
    shows the dialog "Saving N frames..." with a bar from 0 to [N] at 0.
    The save thread, run to its end, has queued one progress value after
    each frame whose index is a multiple of 100 and after the last frame,
    the value being the number of frames written so far: a value [v] is
    queued exactly when [1 <= v <= N] and [v - 1] is a multiple of 100 or
    [v] is [N]; the values go up strictly and end with [N].  After them
    the thread queued "Save complete" and the hiding of the dialog.
    When the GUI thread has taken all of these from its queue the dialog is
    hidden with its bar at [N] and the status label reads "Save
    complete". *)
Theorem save_progress_reported (now now' : QDateTime) (a : App) :
  let n := length (saveBuffer (sh a)) in
  let N := Z.of_nat n in
  let label := qstr "Saving " ++ number_int N ++ qstr " frames..." in
  uiPc a = UiIdle -> recording (sh a) = true -> saveMutex (sh a) = false ->
  workers a = [] -> posted (world a) = [] ->
  0 < N -> N <= INT_MAX ->
  exists vs a2 a3,
    savingDialog (ui (stopSaving now a)) = Some (mkDialog true label 0 N 0)
    /\ run (repeat (AWorkerStep 0) (n + 5)) (stopSaving now a) = Some a2
    /\ workers a2 = [] /\ saving (sh a2) = false
    /\ posted (world a2)
       = map SetProgress vs ++ [SetStatus (qstr "Save complete"); HideDialog]
    /\ map SetProgress vs = progress_posts N 0 n
    /\ Forall (fun v => 1 <= v <= N) vs
    /\ StronglySorted Z.lt vs /\ last vs = Some N
    /\ (forall v,
          In v vs <-> 1 <= v <= N /\ ((v - 1) mod 100 = 0 \/ v = N))
    /\ run (repeat (AUiEvent now' DeliverPosted) (length vs + 2)) a2 = Some a3
    /\ posted (world a3) = []
    /\ savingDialog (ui a3) = Some (mkDialog false label 0 N N)
    /\ statusLabel (ui a3) = qstr "Save complete".
Proof.
  intros n N label Hpc Hrec Hmtx Hws Hq HN Hmax.
  assert (Hbuf : saveBuffer (sh a) <> []).
  { intros E. unfold N, n in HN. rewrite E in HN. simpl in HN. lia. }
  set (a1 := stopSaving now a).
  set (j := job_of now (saveBuffer (sh a)) a).
  assert (Hw1 : workers a1 = [mkWorker j (WLoop 0)]).
  { unfold a1. rewrite stopSaving_spawns by done. by rewrite Hws. }
  destruct (stopSaving_dialog now a Hpc Hrec Hmtx Hbuf) as (D1 & D2 & D3 & _).
  fold a1 in D1, D2, D3. fold n N in D1.
  rewrite (int_cast_small N) in D1 by (unfold INT_MAX in Hmax; lia).
  rewrite (Z.max_r 0 N) in D1 by lia. fold label in D1.
  assert (Hrem : worker_remaining (mkWorker j (WLoop 0)) = (n + 5)%nat).
  { unfold worker_remaining. cbn [wpc job frames j job_of]. fold n. lia. }
  destruct (save_thread_ends (n + 5) _ a1 Hrem Hw1)
    as (a2 & Hrun & S1 & S2 & _ & _ & _ & _ & S7 & S8 & _).
  destruct (run_worker_alone (n + 5) _ a1 Hrem Hw1) as [_ Hrun'].
  rewrite Hrun in Hrun'. injection Hrun' as Ea2.
  assert (Hposted : posted (world a2)
                    = progress_posts N 0 n
                        ++ [SetStatus (qstr "Save complete"); HideDialog]).
  { rewrite Ea2.
    change (posted (world (set_workers [] ?b))) with (posted (world b)).
    pose proof (worker_run_posted j (frames j) 0 a1 eq_refl) as Hp.
    cbn [frames j job_of] in Hp. fold j n N in Hp.
    by rewrite Hp, D2, Hq. }
  destruct (progress_posts_values N ltac:(lia) n ltac:(unfold N; lia))
    as (vs & Ep & Hall & Hsort & Hlast & Hcad).
  fold N in Hall, Hcad. specialize (Hlast eq_refl).
  rewrite Ep in Hposted.
  destruct (deliver_progress now' vs a2 (mkDialog true label 0 N 0)
              [SetStatus (qstr "Save complete"); HideDialog])
    as (a' & Hd & E1 & E2 & E3 & _); [congruence|congruence|done| |].
  { eapply Forall_impl; [exact Hall|]. cbn. lia. }
  rewrite Hlast in E3.
  cbn [default dlgVisible dlgLabel progressMin progressMax] in E3.
  destruct (deliver_end now' (qstr "Save complete") a' _ E1 E2 E3)
    as (a3 & Hd3 & G1 & G2 & G3).
  exists vs, a2, a3.
  split; [done|]. split; [done|]. split; [done|]. split; [done|].
  split; [done|]. split; [done|]. split; [done|]. split; [done|].
  split; [done|]. split; [exact Hcad|]. split; [|by repeat split].
  rewrite repeat_app, run_app, Hd. exact Hd3.
Qed.

Lemma save_progress_reported_witness :
  exists a2 a3,
    run (repeat (AWorkerStep 0) 155) (stopSaving time1 app_recording_long) = Some a2
    /\ posted (world a2)
       = [SetProgress 1; SetProgress 101; SetProgress 150;
          SetStatus (qstr "Save complete"); HideDialog]
    /\ run (repeat (AUiEvent time2 DeliverPosted) 5) a2 = Some a3
    /\ savingDialog (ui a3)
       = Some (mkDialog false (qstr "Saving 150 frames...") 0 150 150)
    /\ statusLabel (ui a3) = qstr "Save complete".
Proof.
  assert (El : length (saveBuffer (sh app_recording_long)) = 150%nat)
    by (vm_compute; reflexivity).
  destruct (save_progress_reported time1 time2 app_recording_long)
    as (vs & a2 & a3 & _ & Hrun & _ & _ & Hq & Hvs & _ & _ & _ & _ & Hd
        & _ & Hdlg & Hs);
    [vm_compute; reflexivity..|vm_compute; discriminate|].
  rewrite El in Hrun, Hvs, Hdlg.
  assert (Evs : vs = [1; 101; 150]).
  { assert (E : map SetProgress vs = map SetProgress [1; 101; 150])
      by (rewrite Hvs; vm_compute; reflexivity).
    clear -E.
    destruct vs as [|v1 [|v2 [|v3 [|v4 vs]]]]; try discriminate E.
    by injection E as -> -> ->. }
  subst vs. exists a2, a3.
  split; [exact Hrun|]. split; [exact Hq|]. split; [exact Hd|].
  split; [rewrite Hdlg; vm_compute; reflexivity|exact Hs].
Defined.

(** ** The frame a capture takes *)

Section LastFrame.

Lemma ui_step_lastFrame now a a' :
  ui_step now a = Some a' -> lastFrame (ui a') = lastFrame (ui a).
Proof.
  intros H. crush_state a.
  destruct xpc; try discriminate H; run_state_in H;
    repeat (case_inner_in H; run_state_in H); by simplify_eq.
Qed.

Lemma ui_event_lastFrame now e a a' :
  ui_event now e a = Some a' ->
  lastFrame (ui a') = frame_shown (AUiEvent now e) (lastFrame (ui a)).
Proof.
  intros H. unfold ui_event in H.
  crush_state a. destruct xpc; try discriminate H.
  destruct e; run_state_in H; repeat (case_inner_in H; run_state_in H);
    simplify_eq; try reflexivity.
Qed.

Lemma step_lastFrame act a a' :
  step act a = Some a' ->
  lastFrame (ui a') = frame_shown act (lastFrame (ui a)).
Proof.
  intros Hs. destruct act as [now e|now|img| |k]; cbn [step] in Hs.
  - by apply ui_event_lastFrame.
  - by apply (ui_step_lastFrame now).
  - destruct (hookPc a); try discriminate Hs. injection Hs as <-.
    by destruct (hook_call_keeps img a) as (-> & _).
  - by destruct (hook_step_keeps a a' Hs) as (-> & _).
  - destruct (workers a !! k) as [w|]; [|discriminate Hs].
    pose proof (worker_step_keeps w a) as Hk. cbv zeta in Hk.
    destruct (worker_step w a) as [[w'|] a1]; injection Hs as <-;
      cbn [snd] in Hk; destruct Hk as (_ & _ & _ & _ & Hu & _);
      change (lastFrame (ui a1) = lastFrame (ui a)); by rewrite Hu.
Qed.

Lemma run_lastFrame sched : forall a a',
  run sched a = Some a' ->
  lastFrame (ui a') = last_shown sched (lastFrame (ui a)).
Proof.
  induction sched as [|act sched IH]; intros a a' Hrun; cbn [run] in Hrun.
  - by injection Hrun as <-.
  - destruct (step act a) as [a1|] eqn:Hs; [|discriminate Hrun].
    cbn [last_shown fold_left]. rewrite <- (step_lastFrame act a a1 Hs).
    by apply IH.
Qed.

End LastFrame.

(** X8. The frame a capture takes is the newest frame that was delivered
    to the window and was not null, whatever else the three threads did in
    between: no handler but the [frameReady] slot, no step of the record
    hook and no step of a save thread touches the frame kept for the
    capture button.  After any run of the threads, a press of the capture
    button asks the disk for exactly that frame. *)
Theorem capture_takes_newest_frame
  (sched : list Action) (now : QDateTime) (saved : bool) (a a' : App) :
  run sched a = Some a' ->
  lastFrame (ui a') = last_shown sched (lastFrame (ui a))
  /\ (isNull (last_shown sched (lastFrame (ui a))) = false ->
      disk (world (captureClicked now saved a'))
      = disk (world a')
          ++ [MkPath (baseDir a');
              SaveImage
                (filePath (baseDir a')
                   (toString_yyyyMMdd_hhmmss_zzz now ++ qstr ".tiff"))
                (last_shown sched (lastFrame (ui a)))])
  /\ (isNull (last_shown sched (lastFrame (ui a))) = true ->
      disk (world (captureClicked now saved a')) = disk (world a')).
Proof.
  intros Hrun. pose proof (run_lastFrame sched a a' Hrun) as E.
  split; [exact E|]. rewrite <- E. unfold captureClicked.
  split; intros Hnull; rewrite Hnull; [|reflexivity].
  unfold logLine. destruct saved; cbn; [destruct (logCheck (ui a'))|];
    cbn; by rewrite <- app_assoc.
Qed.

Lemma capture_takes_newest_frame_witness :
  exists a',
    run ([AUiEvent time0 (FrameReady frameA FrameMeta_zero (Double 10))]
           ++ start_schedule time0
           ++ [AUiEvent time1
                 (FrameReady NullImage FrameMeta_zero (Double 10))]
           ++ hook_schedule frameB) app0 = Some a'
    /\ lastFrame (ui a') = frameA.
Proof.
  eexists. split; [vm_compute; reflexivity|].
  match goal with
  | |- lastFrame (ui ?x) = _ =>
      destruct (capture_takes_newest_frame
                  ([AUiEvent time0
                      (FrameReady frameA FrameMeta_zero (Double 10))]
                     ++ start_schedule time0
                     ++ [AUiEvent time1
                           (FrameReady NullImage FrameMeta_zero (Double 10))]
                     ++ hook_schedule frameB)
                  time2 true app0 x) as [-> _]
  end; vm_compute; reflexivity.
Defined.

(** ** The time label of the viewer *)

Section TimeLabel.

Lemma arg_int_fixed w n :
  (0 < w)%nat -> 0 <= n < 10 ^ Z.of_nat w ->
  arg_int n (Z.of_nat w) "0"%char = fixed_digits w n.
Proof.
  intros Hw Hn. unfold arg_int, number_int.
  replace (n <? 0) with false by (symmetry; apply Z.ltb_ge; lia).
  by apply zero_padded_fixed_nat.
Qed.

(** The fields of a time of [t] milliseconds, as the code computes them. *)
Lemma time_fields t :
  0 <= t ->
  Z.rem t 1000 = t mod 1000
  /\ Z.rem (Z.quot t 1000) 60 = t / 1000 mod 60
  /\ Z.rem (Z.quot (Z.quot t 1000) 60) 60 = t / 60000 mod 60
  /\ Z.quot (Z.quot (Z.quot t 1000) 60) 60 = t / 3600000.
Proof.
  intros Ht.
  assert (H1 : Z.quot t 1000 = t / 1000) by (apply Z.quot_div_nonneg; lia).
  assert (P1 : 0 <= t / 1000) by (apply Z.div_pos; lia).
  assert (H2 : Z.quot (t / 1000) 60 = t / 60000).
  { rewrite Z.quot_div_nonneg by lia. rewrite Z.div_div by lia. done. }
  assert (P2 : 0 <= t / 60000) by (apply Z.div_pos; lia).
  rewrite H1, H2. repeat split.
  - apply Z.rem_mod_nonneg; lia.
  - apply Z.rem_mod_nonneg; lia.
  - apply Z.rem_mod_nonneg; lia.
  - rewrite Z.quot_div_nonneg by lia. rewrite Z.div_div by lia. done.
Qed.

Lemma formatTimeSeconds_fixed env seconds :
  let t := Viewer.lround_ms env
             (if Viewer.negative env seconds then Double 0 else seconds) in
  0 <= t < 3600000 ->
  Viewer.formatTimeSeconds env seconds
  = fixed_digits 2 (t / 60000 mod 60) ++ qstr ":"
      ++ fixed_digits 2 (t / 1000 mod 60) ++ qstr "."
      ++ fixed_digits 3 (t mod 1000).
Proof.
  intros t Ht. unfold Viewer.formatTimeSeconds. fold t.
  rewrite (int_cast_small t) by lia.
  destruct (time_fields t) as (-> & -> & -> & ->); [lia|].
  replace (0 <? t / 3600000) with false.
  2:{ symmetry. apply Z.ltb_ge.
      assert (t / 3600000 < 1) by (apply Z.div_lt_upper_bound; lia). lia. }
  rewrite !(arg_int_fixed 2), (arg_int_fixed 3); try lia; try done.
  - change (10 ^ Z.of_nat 3) with 1000. apply Z.mod_pos_bound. lia.
  - change (10 ^ Z.of_nat 2) with 100.
    pose proof (Z.mod_pos_bound (t / 1000) 60). lia.
  - change (10 ^ Z.of_nat 2) with 100.
    pose proof (Z.mod_pos_bound (t / 60000) 60). lia.
Qed.

End TimeLabel.

(** X9. The text [formatTimeSeconds] makes of a time, [t] being the
    milliseconds the rounding gave (of 0 for a negative time) and
    [0 <= t <= INT_MAX].  Below one hour it is [mm:ss.zzz], always nine
    characters; from one hour on it is [h:mm:ss.zzz] with the hours padded
    to two digits.  The fields are those of [t]: [zzz] its milliseconds,
    [ss] its seconds below 60, [mm] its minutes below 60, and the hours the
    rest. *)
Theorem time_label_format (env : Viewer.Env) (seconds : double) :
  let t := Viewer.lround_ms env
             (if Viewer.negative env seconds then Double 0 else seconds) in
  let h := t / 3600000 in
  let m := t / 60000 mod 60 in
  let s := t / 1000 mod 60 in
  let ms := t mod 1000 in
  0 <= t <= INT_MAX ->
  t = ((h * 60 + m) * 60 + s) * 1000 + ms
  /\ 0 <= m < 60 /\ 0 <= s < 60 /\ 0 <= ms < 1000
  /\ (t < 3600000 ->
      Viewer.formatTimeSeconds env seconds
      = fixed_digits 2 m ++ qstr ":" ++ fixed_digits 2 s ++ qstr "."
          ++ fixed_digits 3 ms
      /\ length (Viewer.formatTimeSeconds env seconds) = 9%nat)
  /\ (3600000 <= t ->
      Viewer.formatTimeSeconds env seconds
      = zero_padded 2 h ++ qstr ":" ++ fixed_digits 2 m ++ qstr ":"
          ++ fixed_digits 2 s ++ qstr "." ++ fixed_digits 3 ms).
Proof.
  intros t h m s ms Ht.
  assert (Hm : 0 <= m < 60) by (apply Z.mod_pos_bound; lia).
  assert (Hs : 0 <= s < 60) by (apply Z.mod_pos_bound; lia).
  assert (Hms : 0 <= ms < 1000) by (apply Z.mod_pos_bound; lia).
  split.
  { unfold h, m, s, ms.
    pose proof (Z.div_mod t 1000 ltac:(lia)) as E1.
    pose proof (Z.div_mod (t / 1000) 60 ltac:(lia)) as E2.
    pose proof (Z.div_mod (t / 60000) 60 ltac:(lia)) as E3.
    replace (t / 60000) with (t / 1000 / 60) in *
      by (rewrite Z.div_div by lia; done).
    replace (t / 3600000) with (t / 1000 / 60 / 60)
      by (rewrite !Z.div_div by lia; done).
    lia. }
  split; [done|]. split; [done|]. split; [done|]. split.
  - intros Hlt.
    rewrite formatTimeSeconds_fixed by (fold t; lia). fold t m s ms.
    split; [done|]. rewrite !length_app, !fixed_digits_length. done.
  - intros Hge. unfold Viewer.formatTimeSeconds. fold t.
    unfold INT_MAX in Ht. rewrite (int_cast_small t) by lia.
    destruct (time_fields t) as (-> & -> & -> & ->); [lia|].
    fold h m s ms.
    replace (0 <? h) with true.
    2:{ symmetry. apply Z.ltb_lt. unfold h.
        assert (1 <= t / 3600000) by (apply Z.div_le_lower_bound; lia).
        lia. }
    assert (Em : arg_int m 2 "0"%char = fixed_digits 2 m)
      by (apply (arg_int_fixed 2);
          [lia|change (10 ^ Z.of_nat 2) with 100; lia]).
    assert (Es : arg_int s 2 "0"%char = fixed_digits 2 s)
      by (apply (arg_int_fixed 2);
          [lia|change (10 ^ Z.of_nat 2) with 100; lia]).
    assert (El : arg_int ms 3 "0"%char = fixed_digits 3 ms)
      by (apply (arg_int_fixed 3);
          [lia|change (10 ^ Z.of_nat 3) with 1000; lia]).
    rewrite Em, Es, El.
    unfold arg_int, number_int.
    replace (h <? 0) with false; [done|].
    symmetry. apply Z.ltb_ge. apply Z.div_pos; lia.
Qed.

Lemma time_label_format_witness :
  let env :=
    Viewer.mkEnv (fun d => match d with Double p => p <? 0 end)
      (fun d => match d with Double p => p end)
      (fun d => match d with Double p => p <=? 0 end)
      (fun n d => d) (fun _ => true) (fun p => p) (fun _ => [])
      (fun _ => NullImage) (fun _ => []) (fun _ => Double 0) in
  Viewer.formatTimeSeconds env (Double 83456) = qstr "01:23.456"
  /\ Viewer.formatTimeSeconds env (Double (-5)) = qstr "00:00.000".
Proof.
  intros env. split.
  - destruct (time_label_format env (Double 83456))
      as (_ & _ & _ & _ & H & _); [vm_compute; split; discriminate|].
    destruct H as [-> _]; [reflexivity|]. vm_compute. reflexivity.
  - destruct (time_label_format env (Double (-5)))
      as (_ & _ & _ & _ & H & _); [vm_compute; split; discriminate|].
    destruct H as [-> _]; [reflexivity|]. vm_compute. reflexivity.
Defined.

(** X10. Below one hour the time labels are ordered as the times they show:
    comparing two of them character by character gives the order of their
    milliseconds, so that different times never get the same text. *)
Theorem time_labels_ordered (env : Viewer.Env) (seconds1 seconds2 : double) :
  let t1 := Viewer.lround_ms env
              (if Viewer.negative env seconds1 then Double 0 else seconds1) in
  let t2 := Viewer.lround_ms env
              (if Viewer.negative env seconds2 then Double 0 else seconds2) in
  0 <= t1 < 3600000 -> 0 <= t2 < 3600000 ->
  lex_compare (Viewer.formatTimeSeconds env seconds1)
    (Viewer.formatTimeSeconds env seconds2)
  = (t1 ?= t2).
Proof.
  intros t1 t2 H1 H2.
  rewrite !formatTimeSeconds_fixed by done. fold t1 t2.
  assert (B : forall t, 0 <= t < 3600000 ->
            0 <= t / 60000 mod 60 < 60
            /\ 0 <= t / 1000 mod 60 < 60
            /\ 0 <= t mod 1000 < 1000
            /\ t = (t / 60000 mod 60 * 60 + t / 1000 mod 60) * 1000
                   + t mod 1000).
  { intros t Ht.
    pose proof (Z.mod_pos_bound (t / 60000) 60 ltac:(lia)).
    pose proof (Z.mod_pos_bound (t / 1000) 60 ltac:(lia)).
    pose proof (Z.mod_pos_bound t 1000 ltac:(lia)).
    repeat split; try lia.
    pose proof (Z.div_mod t 1000 ltac:(lia)) as E1.
    pose proof (Z.div_mod (t / 1000) 60 ltac:(lia)) as E2.
    replace (t / 60000) with (t / 1000 / 60) in *
      by (rewrite Z.div_div by lia; done).
    assert (t / 1000 / 60 < 60).
    { apply Z.div_lt_upper_bound; [lia|].
      apply Z.div_lt_upper_bound; lia. }
    assert (0 <= t / 1000 / 60).
    { apply Z.div_pos; [|lia]. apply Z.div_pos; lia. }
    rewrite (Z.mod_small (t / 1000 / 60) 60) by lia. lia. }
  destruct (B t1 H1) as (M1 & S1 & L1 & E1).
  destruct (B t2 H2) as (M2 & S2 & L2 & E2).
  set (m1 := t1 / 60000 mod 60) in *. set (s1 := t1 / 1000 mod 60) in *.
  set (l1 := t1 mod 1000) in *.
  set (m2 := t2 / 60000 mod 60) in *. set (s2 := t2 / 1000 mod 60) in *.
  set (l2 := t2 mod 1000) in *.
  assert (P2 : 10 ^ Z.of_nat 2 = 100) by done.
  assert (P3 : 10 ^ Z.of_nat 3 = 1000) by done.
  rewrite lex_compare_app by (by rewrite !fixed_digits_length).
  rewrite fixed_digits_compare by lia.
  destruct (Z.compare_spec m1 m2) as [Em|Lm|Gm].
  2:{ symmetry. apply Z.compare_lt_iff. lia. }
  2:{ symmetry. apply Z.compare_gt_iff. lia. }
  rewrite (lex_compare_app (qstr ":") (qstr ":")) by done.
  cbn [lex_compare qstr list_ascii_of_string]. rewrite ascii_compare_refl.
  rewrite lex_compare_app by (by rewrite !fixed_digits_length).
  rewrite fixed_digits_compare by lia.
  destruct (Z.compare_spec s1 s2) as [Es|Ls|Gs].
  2:{ symmetry. apply Z.compare_lt_iff. lia. }
  2:{ symmetry. apply Z.compare_gt_iff. lia. }
  rewrite (lex_compare_app (qstr ".") (qstr ".")) by done.
  cbn [lex_compare qstr list_ascii_of_string]. rewrite ascii_compare_refl.
  rewrite fixed_digits_compare by lia.
  destruct (Z.compare_spec l1 l2);
    symmetry; [apply Z.compare_eq_iff|apply Z.compare_lt_iff
              |apply Z.compare_gt_iff]; lia.
Qed.

Lemma time_labels_ordered_witness :
  let env :=
    Viewer.mkEnv (fun d => match d with Double p => p <? 0 end)
      (fun d => match d with Double p => p end)
      (fun d => match d with Double p => p <=? 0 end)
      (fun n d => d) (fun _ => true) (fun p => p) (fun _ => [])
      (fun _ => NullImage) (fun _ => []) (fun _ => Double 0) in
  lex_compare (Viewer.formatTimeSeconds env (Double 59999))
    (Viewer.formatTimeSeconds env (Double 60000)) = Lt.
Proof.
  intros env.
  rewrite (time_labels_ordered env (Double 59999) (Double 60000));
    [reflexivity|vm_compute; split; [discriminate|reflexivity]..].
Defined.

(** ** The recent folders of the viewer *)

Section RecentFolders.

Lemma removeLast_above_take fuel : forall l : list QString,
  (length l <= fuel + 10)%nat -> Viewer.removeLast_above fuel l = take 10 l.
Proof.
  induction fuel as [|f IH]; intros l Hlen; cbn [Viewer.removeLast_above].
  - by rewrite take_ge by lia.
  - destruct (Nat.ltb_spec 10 (length l)) as [Hlt|Hge].
    + rewrite IH.
      * rewrite removelast_firstn_len, take_take. f_equal. lia.
      * rewrite removelast_firstn_len, length_take. lia.
    + by rewrite take_ge by lia.
Qed.

Lemma filter_all_true {A} (f : A -> bool) (l : list A) :
  Forall (fun x => f x = true) l -> List.filter f l = l.
Proof.
  induction 1 as [|x l Hx _ IH]; cbn [List.filter]; [done|].
  by rewrite Hx, IH.
Qed.

Lemma filter_holds {A} (f : A -> bool) (l : list A) :
  Forall (fun x => f x = true) (List.filter f l).
Proof.
  apply Forall_forall. intros x Hx. apply list_elem_of_In in Hx.
  by apply filter_In in Hx as [_ Hx].
Qed.

Lemma NoDup_filter_bool {A} (f : A -> bool) (l : list A) :
  NoDup l -> NoDup (List.filter f l).
Proof.
  induction 1 as [|x l Hx Hl IH]; cbn [List.filter]; [constructor|].
  destruct (f x); [|done]. constructor; [|done].
  intros Hin. apply Hx. apply list_elem_of_In in Hin.
  apply filter_In in Hin as [Hin _]. by apply list_elem_of_In.
Qed.

Lemma updateRecentFolders_list dirPath w :
  Viewer.recentFolders (Viewer.updateRecentFolders dirPath w)
  = dirPath
      :: take 9 (List.filter (fun p => negb (bool_decide (p = dirPath)))
                   (Viewer.recentFolders w)).
Proof.
  unfold Viewer.updateRecentFolders. cbn [Viewer.recentFolders
    Viewer.set_recentCombo Viewer.set_recentFolders].
  rewrite removeLast_above_take by lia. done.
Qed.

End RecentFolders.

(** X11. [updateRecentFolders] keeps the list of recent folders in the
    settings and in the combo box alike: the folder just loaded comes
    first, the others follow in their old order, the folder occurs once,
    and at most ten entries are kept, the oldest going first.  A list
    without repetitions stays so, nothing is dropped while there is room,
    and noting the same folder again changes nothing. *)
Theorem recent_folders_updated (dirPath : QString) (w : Viewer.Viewer) :
  let others :=
    List.filter (fun p => negb (bool_decide (p = dirPath)))
      (Viewer.recentFolders w) in
  let w' := Viewer.updateRecentFolders dirPath w in
  Viewer.recentFolders w' = dirPath :: take 9 others
  /\ Viewer.recentCombo w' = Viewer.recentFolders w'
  /\ (length (Viewer.recentFolders w') <= 10)%nat
  /\ ~ In dirPath (take 9 others)
  /\ (NoDup (Viewer.recentFolders w) -> NoDup (Viewer.recentFolders w'))
  /\ ((length (Viewer.recentFolders w) < 10)%nat ->
      forall p, In p (Viewer.recentFolders w) ->
                In p (Viewer.recentFolders w'))
  /\ Viewer.updateRecentFolders dirPath w' = w'.
Proof.
  intros others w'.
  assert (Hne : Forall (fun p => negb (bool_decide (p = dirPath)) = true)
                  (take 9 others)).
  { apply Forall_take, filter_holds. }
  assert (Hnotin : ~ In dirPath (take 9 others)).
  { intros Hin. apply list_elem_of_In in Hin.
    rewrite Forall_forall in Hne. specialize (Hne _ Hin).
    by rewrite bool_decide_true in Hne. }
  assert (E : Viewer.recentFolders w' = dirPath :: take 9 others)
    by apply updateRecentFolders_list.
  split; [done|]. split; [done|]. split.
  { rewrite E. cbn [length]. rewrite length_take. lia. }
  split; [done|]. split.
  { intros Hnd. rewrite E. constructor; [by rewrite list_elem_of_In|].
    apply (NoDup_filter_bool (fun p => negb (bool_decide (p = dirPath))))
      in Hnd.
    fold others in Hnd. rewrite <- (take_drop 9 others) in Hnd.
    by apply NoDup_app in Hnd as [Hnd _]. }
  split.
  { intros Hlen p Hp. rewrite E.
    destruct (decide (p = dirPath)) as [->|Hpd]; [by left|]. right.
    rewrite take_ge.
    - apply filter_In. split; [done|]. by rewrite bool_decide_false.
    - pose proof (filter_length_le
                    (fun p => negb (bool_decide (p = dirPath)))
                    (Viewer.recentFolders w)).
      unfold others. lia. }
  assert (E2 : Viewer.recentFolders (Viewer.updateRecentFolders dirPath w')
               = Viewer.recentFolders w').
  { rewrite updateRecentFolders_list, E. cbn [List.filter].
    rewrite bool_decide_true by done. cbn [negb].
    rewrite filter_all_true by done.
    by rewrite take_take. }
  unfold Viewer.updateRecentFolders at 1.
  unfold Viewer.updateRecentFolders at 1 in E2.
  cbn [Viewer.recentFolders Viewer.set_recentCombo Viewer.set_recentFolders]
    in E2.
  rewrite E2. unfold w', Viewer.updateRecentFolders.
  reflexivity.
Qed.

Lemma recent_folders_updated_witness :
  Viewer.recentFolders
    (Viewer.updateRecentFolders (qstr "b")
       (Viewer.initial [qstr "a"; qstr "b"; qstr "c"]))
  = [qstr "b"; qstr "a"; qstr "c"].
Proof.
  destruct (recent_folders_updated (qstr "b")
              (Viewer.initial [qstr "a"; qstr "b"; qstr "c"]))
    as (-> & _).
  vm_compute. reflexivity.
Defined.

(** ** The slider of the viewer *)

Section Slider.

Variable env : Viewer.Env.

(** What [loadFrame] leaves alone. *)
Lemma loadFrame_keeps index w :
  Viewer.frameFiles (Viewer.loadFrame env index w) = Viewer.frameFiles w
  /\ Viewer.slider (Viewer.loadFrame env index w) = Viewer.slider w
  /\ Viewer.prevBtn (Viewer.loadFrame env index w) = Viewer.prevBtn w
  /\ Viewer.nextBtn (Viewer.loadFrame env index w) = Viewer.nextBtn w
  /\ Viewer.fps (Viewer.loadFrame env index w) = Viewer.fps w
  /\ Viewer.folderEdit (Viewer.loadFrame env index w) = Viewer.folderEdit w
  /\ Viewer.recentCombo (Viewer.loadFrame env index w) = Viewer.recentCombo w
  /\ Viewer.recentFolders (Viewer.loadFrame env index w)
     = Viewer.recentFolders w.
Proof.
  unfold Viewer.loadFrame, Viewer.updateTimeLabel.
  destruct (Viewer.frameFiles w) eqn:Ef; [by rewrite Ef|].
  destruct (_ !! _); [|by rewrite Ef].
  destruct (isNull _); [by rewrite <- Ef|].
  cbn [Viewer.frameFiles Viewer.set_frameLabel Viewer.set_imageView
         Viewer.fps].
  destruct (_ || _); by rewrite <- Ef.
Qed.

Lemma setValue_keeps v w :
  Viewer.frameFiles (Viewer.setValue env v w) = Viewer.frameFiles w
  /\ Viewer.slider (Viewer.setValue env v w)
     = Viewer.mkSlider (Viewer.minimum (Viewer.slider w))
         (Viewer.maximum (Viewer.slider w))
         (Viewer.bound (Viewer.slider w) v)
         (Viewer.sliderEnabled (Viewer.slider w))
  /\ Viewer.prevBtn (Viewer.setValue env v w) = Viewer.prevBtn w
  /\ Viewer.nextBtn (Viewer.setValue env v w) = Viewer.nextBtn w
  /\ Viewer.fps (Viewer.setValue env v w) = Viewer.fps w
  /\ Viewer.folderEdit (Viewer.setValue env v w) = Viewer.folderEdit w
  /\ Viewer.recentCombo (Viewer.setValue env v w) = Viewer.recentCombo w
  /\ Viewer.recentFolders (Viewer.setValue env v w) = Viewer.recentFolders w.
Proof.
  unfold Viewer.setValue.
  destruct (Z.eqb_spec (Viewer.value (Viewer.slider w))
              (Viewer.bound (Viewer.slider w) v)) as [E|E].
  - rewrite <- E. by destruct (Viewer.slider w).
  - destruct (loadFrame_keeps (Viewer.bound (Viewer.slider w) v)
                (Viewer.set_slider
                   (Viewer.mkSlider (Viewer.minimum (Viewer.slider w))
                      (Viewer.maximum (Viewer.slider w))
                      (Viewer.bound (Viewer.slider w) v)
                      (Viewer.sliderEnabled (Viewer.slider w))) w))
      as (-> & -> & -> & -> & -> & -> & -> & ->).
    by repeat split.
Qed.

(** When the slider moves, [loadFrame] is called with its new value. *)
Lemma setValue_moved v w :
  Viewer.bound (Viewer.slider w) v <> Viewer.value (Viewer.slider w) ->
  Viewer.setValue env v w
  = Viewer.loadFrame env (Viewer.bound (Viewer.slider w) v)
      (Viewer.set_slider
         (Viewer.mkSlider (Viewer.minimum (Viewer.slider w))
            (Viewer.maximum (Viewer.slider w))
            (Viewer.bound (Viewer.slider w) v)
            (Viewer.sliderEnabled (Viewer.slider w))) w).
Proof.
  intros Hne. unfold Viewer.setValue.
  destruct (Z.eqb_spec (Viewer.value (Viewer.slider w))
              (Viewer.bound (Viewer.slider w) v)); [congruence|done].
Qed.

Lemma setValue_stays v w :
  Viewer.bound (Viewer.slider w) v = Viewer.value (Viewer.slider w) ->
  Viewer.setValue env v w = w.
Proof.
  intros He. unfold Viewer.setValue. rewrite He. by rewrite Z.eqb_refl.
Qed.

Lemma setRange_keeps min max w :
  Viewer.frameFiles (Viewer.setRange env min max w) = Viewer.frameFiles w
  /\ (exists v,
        Viewer.slider (Viewer.setRange env min max w)
        = Viewer.mkSlider min (Z.max min max) v
            (Viewer.sliderEnabled (Viewer.slider w)))
  /\ Viewer.prevBtn (Viewer.setRange env min max w) = Viewer.prevBtn w
  /\ Viewer.nextBtn (Viewer.setRange env min max w) = Viewer.nextBtn w
  /\ Viewer.fps (Viewer.setRange env min max w) = Viewer.fps w
  /\ Viewer.folderEdit (Viewer.setRange env min max w) = Viewer.folderEdit w
  /\ Viewer.recentCombo (Viewer.setRange env min max w)
     = Viewer.recentCombo w
  /\ Viewer.recentFolders (Viewer.setRange env min max w)
     = Viewer.recentFolders w.
Proof.
  unfold Viewer.setRange. destruct (_ && _).
  - repeat split; try done. by eexists.
  - match goal with
    | |- context [Viewer.setValue env ?v ?w'] =>
        destruct (setValue_keeps v w')
          as (-> & -> & -> & -> & -> & -> & -> & ->)
    end.
    repeat split; try done. by eexists.
Qed.

Lemma updateTimeLabel_keeps index w :
  Viewer.frameFiles (Viewer.updateTimeLabel env index w)
  = Viewer.frameFiles w
  /\ Viewer.slider (Viewer.updateTimeLabel env index w) = Viewer.slider w
  /\ Viewer.prevBtn (Viewer.updateTimeLabel env index w) = Viewer.prevBtn w
  /\ Viewer.nextBtn (Viewer.updateTimeLabel env index w) = Viewer.nextBtn w
  /\ Viewer.imageView (Viewer.updateTimeLabel env index w)
     = Viewer.imageView w
  /\ Viewer.frameLabel (Viewer.updateTimeLabel env index w)
     = Viewer.frameLabel w
  /\ Viewer.warnings (Viewer.updateTimeLabel env index w) = Viewer.warnings w
  /\ Viewer.recentCombo (Viewer.updateTimeLabel env index w)
     = Viewer.recentCombo w
  /\ Viewer.recentFolders (Viewer.updateTimeLabel env index w)
     = Viewer.recentFolders w.
Proof. unfold Viewer.updateTimeLabel. by destruct (_ || _). Qed.

Lemma sort_names_length l :
  length (Viewer.sort_names l) = length l.
Proof.
  assert (Hi : forall x l, length (Viewer.insert_name x l) = S (length l)).
  { intros x. induction l0 as [|y l0 IH]; [done|].
    cbn [Viewer.insert_name]. destruct (Viewer.name_le x y); [done|].
    cbn [length]. by rewrite IH. }
  induction l as [|x l IH]; [done|].
  cbn [Viewer.sort_names foldr]. rewrite Hi. cbn [length]. f_equal. exact IH.
Qed.

Lemma entryList_length fs names :
  (length (Viewer.entryList fs names) <= length names)%nat.
Proof.
  unfold Viewer.entryList. rewrite sort_names_length.
  apply filter_length_le.
Qed.

(** The frame files, the slider and the buttons after [loadFolder] on a
    directory that exists. *)
Lemma loadFolder_frame_state dirPath w :
  Viewer.dir_exists env dirPath = true ->
  let files :=
    map (filePath (Viewer.absolutePath env dirPath))
      (Viewer.entryList Viewer.filters (Viewer.files_in env dirPath)) in
  let nonEmpty := match files with [] => false | _ :: _ => true end in
  let w' := Viewer.loadFolder env dirPath w in
  Viewer.frameFiles w' = files
  /\ Viewer.slider w'
     = Viewer.mkSlider 0
         (Z.max 0 (Z.max 0 (int_cast (Z.of_nat (length files)) - 1))) 0
         nonEmpty
  /\ Viewer.prevBtn w' = nonEmpty /\ Viewer.nextBtn w' = nonEmpty
  /\ (Viewer.recentCombo w = Viewer.recentFolders w ->
      Viewer.recentCombo w' = Viewer.recentFolders w').
Proof.
  intros Hex files nonEmpty w'. unfold w', Viewer.loadFolder.
  rewrite Hex. cbn [negb]. fold files. fold nonEmpty.
  set (w5 := Viewer.set_nextBtn nonEmpty _).
  set (M := Z.max 0 (int_cast (Z.of_nat (length files)) - 1)).
  destruct (setRange_keeps 0 M w5)
    as (R1 & (v & R2) & R3 & R4 & _ & _ & R7 & R8).
  set (w6 := Viewer.setRange env 0 M w5) in *.
  destruct (setValue_keeps 0 w6) as (S1 & S2 & S3 & S4 & _ & _ & S7 & S8).
  set (w7 := Viewer.setValue env 0 w6) in *.
  destruct (updateTimeLabel_keeps 0 w7)
    as (T1 & T2 & T3 & T4 & _ & _ & _ & T8 & T9).
  set (w8 := Viewer.updateTimeLabel env 0 w7) in *.
  assert (Hslider : Viewer.slider w8
                    = Viewer.mkSlider 0 (Z.max 0 M) 0 nonEmpty).
  { rewrite T2, S2, R2. cbn. f_equal. unfold Viewer.bound. cbn. lia. }
  assert (Hfiles : Viewer.frameFiles w8 = files) by (by rewrite T1, S1, R1).
  assert (Hprev : Viewer.prevBtn w8 = nonEmpty) by (by rewrite T3, S3, R3).
  assert (Hnext : Viewer.nextBtn w8 = nonEmpty) by (by rewrite T4, S4, R4).
  assert (Hrec : Viewer.recentCombo w = Viewer.recentFolders w ->
                 Viewer.recentCombo w8 = Viewer.recentFolders w8).
  { intros E. by rewrite T8, T9, S7, S8, R7, R8. }
  clearbody w8. destruct files; cbn; by repeat split.
Qed.

End Slider.

Section SliderInvariant.

Variable env : Viewer.Env.

Lemma setValue_on_frames v w :
  Viewer.slider_on_frames w ->
  Viewer.slider_on_frames (Viewer.setValue env v w).
Proof.
  unfold Viewer.slider_on_frames.
  destruct (setValue_keeps env v w) as (-> & -> & -> & -> & _ & _ & -> & ->).
  cbn [Viewer.minimum Viewer.maximum Viewer.value Viewer.sliderEnabled].
  unfold Viewer.bound.
  intros (H1 & H2 & H3 & H4 & H5 & H6 & H7 & H8).
  repeat split; try done; lia.
Qed.

Lemma stepFrames_on_frames delta w :
  Viewer.slider_on_frames w ->
  Viewer.slider_on_frames (Viewer.stepFrames env delta w).
Proof.
  intros H. unfold Viewer.stepFrames.
  destruct (Viewer.frameFiles w); [done|]. by apply setValue_on_frames.
Qed.

Lemma loadFolder_on_frames dirPath w :
  Viewer.small_directories env ->
  Viewer.slider_on_frames w ->
  Viewer.slider_on_frames (Viewer.loadFolder env dirPath w).
Proof.
  intros Hsmall Hw.
  destruct (Viewer.dir_exists env dirPath) eqn:Hex.
  - destruct (loadFolder_frame_state env dirPath w Hex)
      as (F1 & F2 & F3 & F4 & F5).
    unfold Viewer.slider_on_frames. rewrite F1, F2, F3, F4.
    cbn [Viewer.minimum Viewer.maximum Viewer.value Viewer.sliderEnabled].
    set (files := map _ _).
    assert (Hlen : Z.of_nat (length files) <= INT_MAX - 10).
    { unfold files. rewrite length_map.
      pose proof (entryList_length Viewer.filters
                    (Viewer.files_in env dirPath)).
      specialize (Hsmall dirPath). lia. }
    unfold INT_MAX in Hlen.
    rewrite int_cast_small by lia.
    repeat split; try done; try lia.
    apply F5. by destruct Hw as (_ & _ & _ & _ & _ & _ & _ & ?).
  - unfold Viewer.loadFolder. rewrite Hex. exact Hw.
Qed.

Lemma handle_on_frames e w w' :
  Viewer.small_directories env ->
  Viewer.slider_on_frames w -> Viewer.handle env e w = Some w' ->
  Viewer.slider_on_frames w'.
Proof.
  intros Hsmall Hw He. destruct e; cbn [Viewer.handle] in He.
  - injection He as <-. by destruct dir.
  - by injection He as <-.
  - injection He as <-. by apply loadFolder_on_frames.
  - destruct (idx <? 0); [by injection He as <-|].
    destruct (_ !! _) as [[|c dir]|]; [by injection He as <-| |done].
    injection He as <-. by apply loadFolder_on_frames.
  - destruct (_ && _); [|done]. injection He as <-.
    by apply setValue_on_frames.
  - destruct (Viewer.prevBtn w); [|done]. injection He as <-.
    destruct (Viewer.frameFiles w) eqn:Ef; [done|].
    by apply setValue_on_frames.
  - destruct (Viewer.nextBtn w); [|done]. injection He as <-.
    destruct (Viewer.frameFiles w) eqn:Ef; [done|].
    by apply setValue_on_frames.
  - injection He as <-. by apply stepFrames_on_frames.
  - injection He as <-. by apply stepFrames_on_frames.
  - injection He as <-. by apply stepFrames_on_frames.
  - injection He as <-. by apply stepFrames_on_frames.
  - injection He as <-. by apply stepFrames_on_frames.
  - injection He as <-. by apply stepFrames_on_frames.
Qed.

Lemma reached_on_frames recent w :
  Viewer.small_directories env -> Viewer.reached env recent w ->
  Viewer.slider_on_frames w.
Proof.
  intros Hsmall. induction 1 as [|w e w' _ IH He].
  - unfold Viewer.slider_on_frames. cbn. unfold INT_MAX.
    repeat split; try done; lia.
  - by apply (handle_on_frames e w).
Qed.

End SliderInvariant.

(** X12. Whatever the user does in the viewer (loading folders, also
    missing or empty ones, moving the slider, the buttons, the shortcuts),
    the slider stands on a frame: its range is that of the indices of the
    frame files, its value is the index of one of them, and the slider and
    the two buttons are enabled exactly when there are frame files.  The
    combo box shows the recent folders of the settings.  (No directory is
    taken to hold more files than an [int] counts.) *)
Theorem slider_stays_on_a_frame
  (env : Viewer.Env) (recent : list QString) (w : Viewer.Viewer) :
  Viewer.small_directories env -> Viewer.reached env recent w ->
  Viewer.slider_on_frames w
  /\ (Viewer.frameFiles w <> [] ->
      exists path,
        Viewer.frameFiles w !! Z.to_nat (Viewer.value (Viewer.slider w))
        = Some path)
  /\ (Viewer.frameFiles w = [] ->
      Viewer.value (Viewer.slider w) = 0
      /\ Viewer.sliderEnabled (Viewer.slider w) = false
      /\ Viewer.prevBtn w = false /\ Viewer.nextBtn w = false).
Proof.
  intros Hsmall Hr. pose proof (reached_on_frames env recent w Hsmall Hr) as H.
  split; [exact H|].
  destruct H as (H1 & H2 & H3 & H4 & H5 & H6 & H7 & H8).
  split.
  - intros Hne. apply lookup_lt_is_Some_2.
    destruct (Viewer.frameFiles w); [done|]. cbn [length] in *. lia.
  - intros He. rewrite He in *. cbn in *. repeat split; try done. lia.
Qed.

Section Navigation.

Variable env : Viewer.Env.

(** [loadFrame] at an index of the frame files. *)
Lemma loadFrame_shows index w :
  let n := Z.of_nat (length (Viewer.frameFiles w)) in
  n <= INT_MAX -> 0 <= index < n ->
  exists path,
    Viewer.frameFiles w !! Z.to_nat index = Some path
    /\ (isNull (Viewer.read_image env path) = false ->
        Viewer.imageView (Viewer.loadFrame env index w)
        = Viewer.read_image env path
        /\ Viewer.frameLabel (Viewer.loadFrame env index w)
           = qstr "Frame: " ++ number_int (index + 1) ++ qstr " / "
               ++ number_int n
        /\ Viewer.warnings (Viewer.loadFrame env index w)
           = Viewer.warnings w)
    /\ (isNull (Viewer.read_image env path) = true ->
        Viewer.loadFrame env index w
        = Viewer.warning (qstr "Read error")
            (qstr "Failed to load image:" ++ ["010"%char]
               ++ Viewer.errorString env path) w).
Proof.
  intros n Hn Hi.
  destruct (lookup_lt_is_Some_2 (Viewer.frameFiles w) (Z.to_nat index))
    as [path Hpath]; [unfold n in Hi; lia|].
  exists path. split; [done|].
  unfold Viewer.loadFrame.
  destruct (Viewer.frameFiles w) as [|f fs] eqn:Ef; [done|].
  fold n. unfold INT_MAX in Hn. rewrite (int_cast_small n) by lia.
  assert (Ec : Viewer.clamp index 0 (n - 1) = index).
  { unfold Viewer.clamp.
    destruct (Z.ltb_spec index 0); [lia|].
    destruct (Z.ltb_spec (n - 1) index); [lia|done]. }
  rewrite Ec, Hpath. split; intros Hnull; rewrite Hnull; [|done].
  destruct (updateTimeLabel_keeps env index
              (Viewer.set_frameLabel
                 (qstr "Frame: " ++ number_int (index + 1) ++ qstr " / "
                    ++ number_int n)
                 (Viewer.set_imageView (copy (Viewer.read_image env path))
                    w)))
    as (_ & _ & _ & _ & -> & -> & -> & _).
  by repeat split.
Qed.

(** The slider set to a value, on a window whose slider stands on a
    frame: where it goes and what is shown. *)
Lemma setValue_shows target w :
  Viewer.slider_on_frames w -> Viewer.frameFiles w <> [] ->
  let n := Z.of_nat (length (Viewer.frameFiles w)) in
  let v' := Viewer.bound (Viewer.slider w) target in
  let w' := Viewer.setValue env target w in
  v' = Z.max 0 (Z.min (n - 1) target)
  /\ Viewer.value (Viewer.slider w') = v'
  /\ Viewer.frameFiles w' = Viewer.frameFiles w
  /\ (v' = Viewer.value (Viewer.slider w) -> w' = w)
  /\ (v' <> Viewer.value (Viewer.slider w) ->
      exists path,
        Viewer.frameFiles w !! Z.to_nat v' = Some path
        /\ (isNull (Viewer.read_image env path) = false ->
            Viewer.imageView w' = Viewer.read_image env path
            /\ Viewer.frameLabel w'
               = qstr "Frame: " ++ number_int (v' + 1) ++ qstr " / "
                   ++ number_int n
            /\ Viewer.warnings w' = Viewer.warnings w)
        /\ (isNull (Viewer.read_image env path) = true ->
            Viewer.imageView w' = Viewer.imageView w
            /\ Viewer.frameLabel w' = Viewer.frameLabel w
            /\ Viewer.timeLabel w' = Viewer.timeLabel w
            /\ Viewer.warnings w'
               = Viewer.warnings w
                   ++ [(qstr "Read error",
                        qstr "Failed to load image:" ++ ["010"%char]
                          ++ Viewer.errorString env path)])).
Proof.
  intros (H1 & H2 & H3 & H4 & _) Hne n v' w'. fold n in H1, H3.
  assert (Hn : 1 <= n).
  { unfold n. destruct (Viewer.frameFiles w); [done|]. cbn [length]. lia. }
  rewrite Z.max_r in H3 by lia.
  assert (Hv' : v' = Z.max 0 (Z.min (n - 1) target))
    by (unfold v', Viewer.bound; by rewrite H2, H3).
  destruct (setValue_keeps env target w) as (K1 & K2 & _).
  fold w' v' in K1, K2.
  split; [done|]. split; [by rewrite K2|]. split; [done|]. split.
  { intros E. by apply setValue_stays. }
  intros Hmoved. unfold w'. rewrite setValue_moved by done. fold v'.
  set (w1 := Viewer.set_slider _ w).
  destruct (loadFrame_shows v' w1) as (path & Hp & Hok & Hbad).
  { change (Viewer.frameFiles w1) with (Viewer.frameFiles w). fold n.
    unfold INT_MAX in *. lia. }
  { change (Viewer.frameFiles w1) with (Viewer.frameFiles w). fold n. lia. }
  change (Viewer.frameFiles w1) with (Viewer.frameFiles w) in Hp, Hok.
  fold n in Hok.
  exists path. split; [done|]. split; [exact Hok|].
  intros Hnull. rewrite (Hbad Hnull). by repeat split.
Qed.

End Navigation.

(** X13. The previous and next buttons and the six shortcuts move through
    the frames by 1, 5 or 10.  The slider goes to the index asked for,
    kept within the first and the last frame; on the first or last frame
    already, a step outwards changes nothing and reads no file.  Otherwise
    the file of the new index is read: when it can be read it is the image
    shown and the frame label counts it from 1; when it cannot, a "Read
    error" box is shown and image and labels stay those of the frame
    before, while the slider has moved.  Without frame files nothing
    happens. *)
Theorem navigation_shows_the_frame
  (env : Viewer.Env) (recent : list QString) (e : Viewer.Event) (delta : Z)
  (w w' : Viewer.Viewer) :
  let n := Z.of_nat (length (Viewer.frameFiles w)) in
  let v := Viewer.value (Viewer.slider w) in
  let v' := Z.max 0 (Z.min (n - 1) (v + delta)) in
  Viewer.small_directories env -> Viewer.reached env recent w ->
  Viewer.step_of e = Some delta -> Viewer.handle env e w = Some w' ->
  (Viewer.frameFiles w = [] -> w' = w)
  /\ (Viewer.frameFiles w <> [] ->
      Viewer.value (Viewer.slider w') = v'
      /\ Viewer.frameFiles w' = Viewer.frameFiles w
      /\ (v' = v -> w' = w)
      /\ (v' <> v ->
          exists path,
            Viewer.frameFiles w !! Z.to_nat v' = Some path
            /\ (isNull (Viewer.read_image env path) = false ->
                Viewer.imageView w' = Viewer.read_image env path
                /\ Viewer.frameLabel w'
                   = qstr "Frame: " ++ number_int (v' + 1) ++ qstr " / "
                       ++ number_int n
                /\ Viewer.warnings w' = Viewer.warnings w)
            /\ (isNull (Viewer.read_image env path) = true ->
                Viewer.imageView w' = Viewer.imageView w
                /\ Viewer.frameLabel w' = Viewer.frameLabel w
                /\ Viewer.timeLabel w' = Viewer.timeLabel w
                /\ Viewer.warnings w'
                   = Viewer.warnings w
                       ++ [(qstr "Read error",
                            qstr "Failed to load image:" ++ ["010"%char]
                              ++ Viewer.errorString env path)]))).
Proof.
  intros n v v' Hsmall Hr Hstep He.
  destruct (reached_on_frames env recent w Hsmall Hr)
    as (H1 & H2 & H3 & H4 & H5 & H6 & H7 & H8).
  fold n in H1, H3. fold v in H4.
  assert (Hd : -10 <= delta <= 10).
  { destruct e; cbn in Hstep; simplify_eq; lia. }
  destruct (Viewer.frameFiles w) as [|f fs] eqn:Ef.
  { split; [|done]. intros _.
    destruct e; cbn in Hstep; try discriminate Hstep;
      cbn [Viewer.handle] in He; unfold Viewer.stepFrames in He;
      rewrite ?H6, ?H7, ?Ef in He; by simplify_eq. }
  split; [done|]. intros _.
  assert (Hn : 1 <= n) by (unfold n; cbn [length]; lia).
  rewrite Z.max_r in H3 by lia. rewrite H3 in H4.
  (* every one of the eight handlers sets the slider to a value that
     [bound] turns into [v'] *)
  assert (Hw' : exists target,
            w' = Viewer.setValue env target w
            /\ Viewer.bound (Viewer.slider w) target = v').
  { unfold INT_MAX in H1.
    assert (Hb : forall t, Z.max 0 (Z.min (n - 1) t) = v' ->
              Viewer.bound (Viewer.slider w) t = v').
    { intros t Ht. unfold Viewer.bound. by rewrite H2, H3. }
    destruct e; cbn in Hstep; try discriminate Hstep;
      injection Hstep as <-;
      cbn [Viewer.handle] in He; unfold Viewer.stepFrames in He;
      rewrite ?H6, ?H7, ?Ef in He; injection He as <-;
      fold v; rewrite ?H3; rewrite int_cast_small by lia;
      eexists; (split; [reflexivity|]); apply Hb;
      unfold Viewer.clamp, v';
      repeat match goal with
             | |- context [?a <? ?b] => destruct (Z.ltb_spec a b)
             end; lia. }
  destruct Hw' as (target & -> & Hb).
  destruct (setValue_shows env target w) as (_ & S2 & S3 & S4 & S5).
  { apply (reached_on_frames env recent w Hsmall Hr). }
  { by rewrite Ef. }
  rewrite Ef in S3, S5. fold n in S5. rewrite Hb in S2, S4, S5.
  split; [exact S2|]. split; [by rewrite S3|]. split; [exact S4|exact S5].
Qed.

Lemma example_env_small : Viewer.small_directories Viewer.example_env.
Proof.
  intros d. unfold Viewer.example_env. cbn [Viewer.files_in].
  destruct (bool_decide _); vm_compute; discriminate.
Qed.

Lemma example_loaded_reached :
  Viewer.reached Viewer.example_env [] Viewer.example_loaded.
Proof.
  apply (Viewer.reached_handle _ _
           (Viewer.set_folderEdit (qstr "C:/data/cap") (Viewer.initial []))
           Viewer.ClickLoad); [|reflexivity].
  apply (Viewer.reached_handle _ _ (Viewer.initial [])
           (Viewer.EditFolder (qstr "C:/data/cap"))); [|reflexivity].
  apply Viewer.reached_initial.
Qed.

Lemma navigation_shows_the_frame_witness :
  exists w',
    Viewer.handle Viewer.example_env Viewer.KeyRight Viewer.example_loaded
    = Some w'
    /\ Viewer.value (Viewer.slider w') = 1
    /\ Viewer.imageView w' = frameB.
Proof.
  eexists. split; [reflexivity|].
  destruct (navigation_shows_the_frame Viewer.example_env []
              Viewer.KeyRight 1 Viewer.example_loaded _
              example_env_small example_loaded_reached eq_refl eq_refl)
    as [_ H].
  destruct H as (Hv & _ & _ & Himg); [vm_compute; discriminate|].
  split; [rewrite Hv; vm_compute; reflexivity|].
  destruct Himg as (path & Hp & Hok & _); [vm_compute; discriminate|].
  assert (path = qstr "C:/data/cap/000001.tiff") as ->.
  { vm_compute in Hp. by injection Hp as <-. }
  destruct Hok as (-> & _); [vm_compute; reflexivity|].
  vm_compute. reflexivity.
Defined.

Lemma slider_stays_on_a_frame_witness :
  Viewer.slider_on_frames Viewer.example_loaded
  /\ length (Viewer.frameFiles Viewer.example_loaded) = 2%nat.
Proof.
  split; [|vm_compute; reflexivity].
  apply (slider_stays_on_a_frame Viewer.example_env [] Viewer.example_loaded
           example_env_small example_loaded_reached).
Defined.

(** X14. The slider moved by hand.  It can be moved only when there are
    frame files, and to an index of one of them.  Moved to the index it
    is on, nothing happens; moved to another, the file of that index is
    read: when it can be read it is the image shown and the frame label
    counts it from 1, when it cannot, a "Read error" box is shown and
    image and labels stay those of the frame before. *)
Theorem slider_move_shows_the_frame
  (env : Viewer.Env) (recent : list QString) (v : Z) (w w' : Viewer.Viewer) :
  let n := Z.of_nat (length (Viewer.frameFiles w)) in
  Viewer.small_directories env -> Viewer.reached env recent w ->
  Viewer.handle env (Viewer.SliderMoved v) w = Some w' ->
  0 <= v < n
  /\ Viewer.value (Viewer.slider w') = v
  /\ Viewer.frameFiles w' = Viewer.frameFiles w
  /\ (v = Viewer.value (Viewer.slider w) -> w' = w)
  /\ (v <> Viewer.value (Viewer.slider w) ->
      exists path,
        Viewer.frameFiles w !! Z.to_nat v = Some path
        /\ (isNull (Viewer.read_image env path) = false ->
            Viewer.imageView w' = Viewer.read_image env path
            /\ Viewer.frameLabel w'
               = qstr "Frame: " ++ number_int (v + 1) ++ qstr " / "
                   ++ number_int n
            /\ Viewer.warnings w' = Viewer.warnings w)
        /\ (isNull (Viewer.read_image env path) = true ->
            Viewer.imageView w' = Viewer.imageView w
            /\ Viewer.frameLabel w' = Viewer.frameLabel w
            /\ Viewer.timeLabel w' = Viewer.timeLabel w
            /\ Viewer.warnings w'
               = Viewer.warnings w
                   ++ [(qstr "Read error",
                        qstr "Failed to load image:" ++ ["010"%char]
                          ++ Viewer.errorString env path)])).
Proof.
  intros n Hsmall Hr He.
  destruct (reached_on_frames env recent w Hsmall Hr)
    as (H1 & H2 & H3 & H4 & H5 & H6 & H7 & H8).
  fold n in H1, H3.
  cbn [Viewer.handle] in He.
  destruct (Viewer.sliderEnabled (Viewer.slider w)) eqn:Een;
    [|discriminate He].
  destruct (Z.leb_spec (Viewer.minimum (Viewer.slider w)) v) as [Hlo|];
    [|discriminate He].
  destruct (Z.leb_spec v (Viewer.maximum (Viewer.slider w))) as [Hhi|];
    [|discriminate He].
  cbn [andb] in He. injection He as <-.
  assert (Hne : Viewer.frameFiles w <> []).
  { intros E. rewrite E in H5. congruence. }
  assert (Hn : 1 <= n).
  { unfold n. destruct (Viewer.frameFiles w); [done|]. cbn [length]. lia. }
  rewrite Z.max_r in H3 by lia.
  destruct (setValue_shows env v w) as (S1 & S2 & S3 & S4 & S5);
    [by apply (reached_on_frames env recent w)|done|].
  fold n in S1, S5.
  assert (Hb : Viewer.bound (Viewer.slider w) v = v) by lia.
  rewrite Hb in S2, S4, S5.
  split; [lia|]. split; [exact S2|]. split; [exact S3|].
  split; [exact S4|exact S5].
Qed.

Lemma slider_move_shows_the_frame_witness :
  exists w',
    Viewer.handle Viewer.example_env (Viewer.SliderMoved 1)
      Viewer.example_loaded = Some w'
    /\ Viewer.imageView w' = frameB.
Proof.
  eexists. split; [reflexivity|].
  destruct (slider_move_shows_the_frame Viewer.example_env [] 1
              Viewer.example_loaded _
              example_env_small example_loaded_reached eq_refl)
    as (_ & _ & _ & _ & Himg).
  destruct Himg as (path & Hp & Hok & _); [vm_compute; discriminate|].
  assert (path = qstr "C:/data/cap/000001.tiff") as ->.
  { vm_compute in Hp. by injection Hp as <-. }
  destruct Hok as (-> & _); [vm_compute; reflexivity|].
  vm_compute. reflexivity.
Defined.

Section LoadFolder.

Variable env : Viewer.Env.

(** Setting the slider to a value that [bound] turns into 0, from another
    value: the first frame file is read. *)
Lemma setValue_to_first target u first :
  Z.of_nat (length (Viewer.frameFiles u)) <= INT_MAX ->
  head (Viewer.frameFiles u) = Some first ->
  isNull (Viewer.read_image env first) = false ->
  Viewer.bound (Viewer.slider u) target = 0 ->
  Viewer.value (Viewer.slider u) <> 0 ->
  Viewer.imageView (Viewer.setValue env target u)
  = Viewer.read_image env first.
Proof.
  intros Hn Hfirst Hok Hb Hv.
  rewrite setValue_moved by (by rewrite Hb). rewrite Hb.
  set (u1 := Viewer.set_slider _ u).
  destruct (Viewer.frameFiles u) as [|f fs] eqn:Ef; [done|].
  injection Hfirst as ->.
  destruct (loadFrame_shows env 0 u1) as (path & Hp & Hshow & _).
  { change (Viewer.frameFiles u1) with (Viewer.frameFiles u).
    by rewrite Ef. }
  { change (Viewer.frameFiles u1) with (Viewer.frameFiles u).
    rewrite Ef. cbn [length]. lia. }
  change (Viewer.frameFiles u1) with (Viewer.frameFiles u) in Hp.
  rewrite Ef in Hp. cbn in Hp. injection Hp as <-.
  by destruct (Hshow Hok) as (-> & _).
Qed.

Lemma updateRecentFolders_keeps dir w :
  Viewer.frameFiles (Viewer.updateRecentFolders dir w) = Viewer.frameFiles w
  /\ Viewer.slider (Viewer.updateRecentFolders dir w) = Viewer.slider w
  /\ Viewer.imageView (Viewer.updateRecentFolders dir w) = Viewer.imageView w
  /\ Viewer.frameLabel (Viewer.updateRecentFolders dir w)
     = Viewer.frameLabel w
  /\ Viewer.warnings (Viewer.updateRecentFolders dir w) = Viewer.warnings w.
Proof. done. Qed.

(** What [loadFolder] shows of a directory that exists and has frame
    files. *)
Lemma loadFolder_shows dirPath w :
  let files :=
    map (filePath (Viewer.absolutePath env dirPath))
      (Viewer.entryList Viewer.filters (Viewer.files_in env dirPath)) in
  let n := Z.of_nat (length files) in
  let w' := Viewer.loadFolder env dirPath w in
  Viewer.dir_exists env dirPath = true -> files <> [] -> n <= INT_MAX ->
  Viewer.frameLabel w'
  = qstr "Frame: " ++ number_int 1 ++ qstr " / " ++ number_int n
  /\ (Viewer.value (Viewer.slider w) = 0 ->
      Viewer.imageView w' = Viewer.imageView w
      /\ Viewer.warnings w' = Viewer.warnings w)
  /\ (Viewer.value (Viewer.slider w) <> 0 ->
      forall first, head files = Some first ->
      isNull (Viewer.read_image env first) = false ->
      Viewer.imageView w' = Viewer.read_image env first).
Proof.
  intros files n w' Hex Hne Hn. unfold w', Viewer.loadFolder.
  rewrite Hex. cbn [negb]. fold files. fold n. clearbody files.
  destruct files as [|f fs]; [done|]. cbv iota.
  assert (Ef : exists files, files = f :: fs) by (by eexists).
  destruct Ef as [files Ef]. rewrite <- Ef in *.
  assert (Hn1 : 1 <= n) by (unfold n; cbn [length]; lia).
  assert (Hlen : Z.of_nat (length files) = n) by (by rewrite Ef). unfold INT_MAX in Hn. rewrite (int_cast_small n) by lia.
  rewrite (Z.max_r 0 (n - 1)) by lia.
  set (w5 := Viewer.set_nextBtn true _).
  assert (F5 : Viewer.frameFiles w5 = files) by done.
  set (u := Viewer.set_slider
              (Viewer.mkSlider 0 (Z.max 0 (n - 1))
                 (Viewer.value (Viewer.slider w5))
                 (Viewer.sliderEnabled (Viewer.slider w5))) w5).
  assert (Fu : Viewer.frameFiles u = files) by done.
  assert (Bu : forall t, Viewer.bound (Viewer.slider u) t
                         = Z.max 0 (Z.min (n - 1) t)).
  { intros t. unfold Viewer.bound, u. cbn. by rewrite (Z.max_r 0 (n - 1)) by lia. }
  assert (Vu : Viewer.value (Viewer.slider u) = Viewer.value (Viewer.slider w))
    by done.
  assert (Iu : Viewer.imageView u = Viewer.imageView w
               /\ Viewer.warnings u = Viewer.warnings w) by done.
  (* the window after [setRange] *)
  set (w6 := Viewer.setRange env 0 (n - 1) w5).
  assert (H6 : w6 = u \/ w6 = Viewer.setValue env (Viewer.value (Viewer.slider w)) u).
  { unfold w6, Viewer.setRange. fold u. destruct (_ && _); [by left|by right]. }
  set (w7 := Viewer.setValue env 0 w6).
  set (w8 := Viewer.updateTimeLabel env 0 w7).
  destruct (updateTimeLabel_keeps env 0 w7)
    as (_ & _ & _ & _ & T5 & _ & T7 & _).
  fold w8 in T5, T7.
  destruct (updateRecentFolders_keeps (Viewer.absolutePath env dirPath)
              (Viewer.set_frameLabel
                 (qstr "Frame: " ++ number_int 1 ++ qstr " / "
                    ++ number_int n) w8))
    as (_ & _ & -> & -> & ->).
  cbn [Viewer.frameLabel Viewer.imageView Viewer.warnings
         Viewer.set_frameLabel].
  rewrite T5, T7.
  split; [done|]. split.
  - intros Hv0.
    assert (E6 : w6 = u).
    { destruct H6 as [->| ->]; [done|]. apply setValue_stays.
      rewrite Bu, Vu, Hv0. lia. }
    assert (E7 : w7 = u).
    { unfold w7. rewrite E6. apply setValue_stays. rewrite Bu, Vu, Hv0. lia. }
    by rewrite E7.
  - intros Hv first Hfirst Hok.
    assert (L1 : forall x,
              Viewer.frameFiles x = files ->
              Viewer.slider x
              = Viewer.mkSlider 0 (Z.max 0 (n - 1))
                  (Viewer.value (Viewer.slider x))
                  (Viewer.sliderEnabled (Viewer.slider x)) ->
              Viewer.value (Viewer.slider x) <> 0 ->
              Viewer.imageView (Viewer.setValue env 0 x)
              = Viewer.read_image env first).
    { intros x Fx Sx Vx.
      apply setValue_to_first;
        first [done | rewrite Fx, Hlen; unfold INT_MAX; lia | by rewrite Fx
              | rewrite Sx; unfold Viewer.bound; cbn; lia]. }
    unfold w7. destruct H6 as [->| ->].
    + apply L1; [done|done|by rewrite Vu].
    + set (v := Viewer.value (Viewer.slider w)) in *.
      destruct (setValue_keeps env v u) as (K1 & K2 & _).
      destruct (decide (Viewer.bound (Viewer.slider u) v = 0)) as [Hb0|Hb0].
      * rewrite (setValue_stays env 0).
        -- apply setValue_to_first;
             first [done | rewrite Fu, Hlen; unfold INT_MAX; lia
                   | by rewrite Fu | by rewrite Vu].
        -- rewrite K2. cbn [Viewer.value]. rewrite Hb0.
           unfold Viewer.bound, u.
           cbn [Viewer.slider Viewer.set_slider Viewer.minimum
                  Viewer.maximum].
           lia.
      * apply L1; [by rewrite K1|by rewrite K2|by rewrite K2].
Qed.

End LoadFolder.

Lemma loadFolder_recent env dirPath w :
  Viewer.dir_exists env dirPath = true ->
  map (filePath (Viewer.absolutePath env dirPath))
    (Viewer.entryList Viewer.filters (Viewer.files_in env dirPath)) <> [] ->
  head (Viewer.recentFolders (Viewer.loadFolder env dirPath w))
  = Some (Viewer.absolutePath env dirPath).
Proof.
  intros Hex Hne. unfold Viewer.loadFolder. rewrite Hex. cbn [negb].
  destruct (map _ _) as [|f fs]; [done|]. cbv iota.
  by rewrite updateRecentFolders_list.
Qed.

(** X15. What [loadFolder] does.  For a folder that does not exist it
    shows the "Folder not found" box and nothing else changes.  For one
    that exists the frame files are the entries [entryList] gives for
    it, each with the absolute path of the folder in front, and the
    slider goes to 0 with the range of their indices.  With frame
    files the frame label reads "Frame: 1 / n" and the folder becomes the
    first of the recent folders.  The first frame itself is read and shown
    only when the slider stood on another value than 0 before: with the
    slider at 0 already, as after the start of the viewer, no file is
    read and the image shown stays the one from before. *)
Theorem loadFolder_result
  (env : Viewer.Env) (dirPath : QString) (w : Viewer.Viewer) :
  let dir := Viewer.absolutePath env dirPath in
  let files :=
    map (filePath dir)
      (Viewer.entryList Viewer.filters (Viewer.files_in env dirPath)) in
  let n := Z.of_nat (length files) in
  let w' := Viewer.loadFolder env dirPath w in
  n <= INT_MAX ->
  (Viewer.dir_exists env dirPath = false ->
   w' = Viewer.warning (qstr "Folder not found")
          (qstr "The selected folder does not exist.") w)
  /\ (Viewer.dir_exists env dirPath = true ->
      Viewer.frameFiles w' = files
      /\ Viewer.slider w'
         = Viewer.mkSlider 0 (Z.max 0 (n - 1)) 0
             (match files with [] => false | _ :: _ => true end)
      /\ (files <> [] ->
          Viewer.frameLabel w'
          = qstr "Frame: " ++ number_int 1 ++ qstr " / " ++ number_int n
          /\ head (Viewer.recentFolders w') = Some dir
          /\ (Viewer.value (Viewer.slider w) = 0 ->
              Viewer.imageView w' = Viewer.imageView w
              /\ Viewer.warnings w' = Viewer.warnings w)
          /\ (Viewer.value (Viewer.slider w) <> 0 ->
              forall first, head files = Some first ->
              isNull (Viewer.read_image env first) = false ->
              Viewer.imageView w' = Viewer.read_image env first))).
Proof.
  intros dir files n w' Hn. split.
  - intros Hex. unfold w', Viewer.loadFolder. by rewrite Hex.
  - intros Hex.
    destruct (loadFolder_frame_state env dirPath w Hex)
      as (F1 & F2 & _).
    fold dir files w' in F1, F2. fold n in F2.
    unfold INT_MAX in Hn. rewrite (int_cast_small n) in F2 by lia.
    rewrite (Z.max_r 0 (Z.max 0 (n - 1))) in F2 by lia.
    split; [done|]. split; [done|].
    intros Hne.
    destruct (loadFolder_shows env dirPath w Hex Hne Hn) as (L1 & L2 & L3).
    split; [exact L1|]. split; [by apply loadFolder_recent|].
    split; [exact L2|exact L3].
Qed.

Lemma loadFolder_result_witness :
  Viewer.frameFiles Viewer.example_loaded
  = [qstr "C:/data/cap/000000.tiff"; qstr "C:/data/cap/000001.tiff"]
  /\ Viewer.frameLabel Viewer.example_loaded = qstr "Frame: 1 / 2"
  /\ Viewer.imageView Viewer.example_loaded = NullImage.
Proof.
  destruct (loadFolder_result Viewer.example_env (qstr "C:/data/cap")
              (Viewer.set_folderEdit (qstr "C:/data/cap")
                 (Viewer.initial [])))
    as [_ H]; [vm_compute; discriminate|].
  destruct H as (Hf & _ & Hrest); [reflexivity|].
  destruct Hrest as (Hl & _ & Hi & _); [vm_compute; discriminate|].
  destruct Hi as [Hi _]; [reflexivity|].
  split; [|split].
  - unfold Viewer.example_loaded. rewrite Hf. vm_compute. reflexivity.
  - unfold Viewer.example_loaded. rewrite Hl. vm_compute. reflexivity.
  - unfold Viewer.example_loaded. rewrite Hi. reflexivity.
Defined.

(** ** The frame files of a folder *)

Section NameOrder.

Lemma lex_compare_antisym a : forall b,
  lex_compare b a = CompOpp (lex_compare a b).
Proof.
  induction a as [|x a IH]; intros [|y b]; simpl; try done.
  rewrite (Ascii.compare_antisym y x).
  destruct (Ascii.compare x y); simpl; auto.
Qed.

Lemma lex_compare_eq a : forall b, lex_compare a b = Eq -> a = b.
Proof.
  induction a as [|x a IH]; intros [|y b]; simpl; try done.
  destruct (Ascii.compare x y) eqn:E; try done.
  intros H. apply Ascii.compare_eq_iff in E as ->. f_equal. by apply IH.
Qed.

Lemma ascii_compare_lt_trans x y z :
  Ascii.compare x y = Lt -> Ascii.compare y z = Lt -> Ascii.compare x z = Lt.
Proof. unfold Ascii.compare. rewrite !N.compare_lt_iff. lia. Qed.

Lemma lex_compare_lt_trans a : forall b c,
  lex_compare a b = Lt -> lex_compare b c = Lt -> lex_compare a c = Lt.
Proof.
  induction a as [|x a IH]; intros [|y b] [|z c]; simpl; try done.
  destruct (Ascii.compare x y) eqn:Exy; try done;
    destruct (Ascii.compare y z) eqn:Eyz; try done.
  - apply Ascii.compare_eq_iff in Exy as ->.
    apply Ascii.compare_eq_iff in Eyz as ->.
    rewrite ascii_compare_refl. apply IH.
  - apply Ascii.compare_eq_iff in Exy as ->. by rewrite Eyz.
  - apply Ascii.compare_eq_iff in Eyz as ->. by rewrite Exy.
  - by rewrite (ascii_compare_lt_trans x y z).
Qed.

Lemma name_le_spec a b :
  Viewer.name_le a b = true <-> lex_compare a b <> Gt.
Proof. unfold Viewer.name_le. by destruct (lex_compare a b). Qed.

Lemma name_le_trans a b c :
  Viewer.name_le a b = true -> Viewer.name_le b c = true ->
  Viewer.name_le a c = true.
Proof.
  unfold Viewer.name_le.
  destruct (lex_compare a b) eqn:Eab; try done;
    destruct (lex_compare b c) eqn:Ebc; try done; intros _ _.
  - apply lex_compare_eq in Eab as ->. by rewrite Ebc.
  - apply lex_compare_eq in Eab as ->. by rewrite Ebc.
  - apply lex_compare_eq in Ebc as ->. by rewrite Eab.
  - by rewrite (lex_compare_lt_trans a b c).
Qed.

Lemma name_le_total a b :
  Viewer.name_le a b = false -> Viewer.name_le b a = true.
Proof.
  unfold Viewer.name_le. rewrite (lex_compare_antisym a b).
  by destruct (lex_compare a b).
Qed.

Lemma name_le_antisym a b :
  Viewer.name_le a b = true -> Viewer.name_le b a = true -> a = b.
Proof.
  unfold Viewer.name_le. rewrite (lex_compare_antisym a b).
  destruct (lex_compare a b) eqn:E; try done. intros _ _.
  by apply lex_compare_eq.
Qed.

Lemma insert_name_perm x l : Permutation (Viewer.insert_name x l) (x :: l).
Proof.
  induction l as [|y l IH]; cbn [Viewer.insert_name]; [done|].
  destruct (Viewer.name_le x y); [done|].
  rewrite IH. apply perm_swap.
Qed.

Lemma sort_names_perm l : Permutation (Viewer.sort_names l) l.
Proof.
  induction l as [|x l IH]; [done|].
  cbn [Viewer.sort_names foldr]. rewrite insert_name_perm.
  by apply perm_skip.
Qed.

Lemma insert_name_sorted x l :
  StronglySorted (fun a b => Viewer.name_le a b = true) l ->
  StronglySorted (fun a b => Viewer.name_le a b = true)
    (Viewer.insert_name x l).
Proof.
  induction 1 as [|y l Hs IH Hy]; cbn [Viewer.insert_name].
  - repeat constructor.
  - destruct (Viewer.name_le x y) eqn:Exy.
    + constructor; [by constructor|]. constructor; [done|].
      eapply Forall_impl; [exact Hy|]. cbn. intros z Hz.
      by apply (name_le_trans x y z).
    + constructor; [done|]. rewrite insert_name_perm.
      constructor; [by apply name_le_total|done].
Qed.

Lemma sort_names_sorted l :
  StronglySorted (fun a b => Viewer.name_le a b = true) (Viewer.sort_names l).
Proof.
  induction l as [|x l IH]; [constructor|].
  cbn [Viewer.sort_names foldr]. by apply insert_name_sorted.
Qed.

(** There is one way to put names in order. *)
Lemma sorted_names_unique l1 : forall l2,
  StronglySorted (fun a b => Viewer.name_le a b = true) l1 ->
  StronglySorted (fun a b => Viewer.name_le a b = true) l2 ->
  Permutation l1 l2 -> l1 = l2.
Proof.
  induction l1 as [|x l1 IH]; intros l2 H1 H2 Hp.
  - by apply Permutation_nil in Hp.
  - destruct l2 as [|y l2]; [by apply Permutation_sym, Permutation_nil in Hp|].
    inversion H1 as [|? ? S1 F1]; subst. inversion H2 as [|? ? S2 F2]; subst.
    assert (Exy : x = y).
    { assert (Hx : In x (y :: l2))
        by (apply (Permutation_in _ Hp); by left).
      assert (Hy : In y (x :: l1))
        by (apply (Permutation_in _ (Permutation_sym Hp)); by left).
      destruct Hx as [->|Hx]; [done|]. destruct Hy as [->|Hy]; [done|].
      rewrite Forall_forall in F1, F2.
      apply name_le_antisym.
      - apply F1. by apply list_elem_of_In.
      - apply F2. by apply list_elem_of_In. }
    subst y. f_equal. apply IH; try done.
    by apply Permutation_cons_inv in Hp.
Qed.

Lemma filter_bool_perm {A} (f : A -> bool) (l l' : list A) :
  Permutation l l' -> Permutation (List.filter f l) (List.filter f l').
Proof.
  induction 1 as [|x l l' _ IH|x y l|l l' l'' _ IH1 _ IH2];
    cbn [List.filter].
  - done.
  - destruct (f x); [by apply perm_skip|done].
  - destruct (f x), (f y); try done. apply perm_swap.
  - by rewrite IH1.
Qed.

Lemma StronglySorted_weaken {A} (R R' : A -> A -> Prop) (l : list A) :
  (forall a b, R a b -> R' a b) ->
  StronglySorted R l -> StronglySorted R' l.
Proof.
  intros HR. induction 1 as [|x l _ IH Hx]; constructor; [done|].
  eapply Forall_impl; [exact Hx|]. cbn. auto.
Qed.

Lemma to_lower_suffixes :
  map Viewer.to_lower (qstr ".tif") = qstr ".tif"
  /\ map Viewer.to_lower (qstr ".tiff") = qstr ".tiff"
  /\ map Viewer.to_lower (qstr ".TIF") = qstr ".tif"
  /\ map Viewer.to_lower (qstr ".TIFF") = qstr ".tiff".
Proof. repeat apply conj; vm_compute; reflexivity. Qed.

(** The names the filters of the viewer let through: those that end in
    [.tif] or [.tiff], in capitals or not. *)
Lemma filters_match name :
  existsb (fun f => Viewer.wildcard_match f name) Viewer.filters = true
  <-> exists stem ext,
        name = stem ++ ext
        /\ (map Viewer.to_lower ext = qstr ".tif"
            \/ map Viewer.to_lower ext = qstr ".tiff").
Proof.
  destruct to_lower_suffixes as (L1 & L2 & L3 & L4).
  unfold Viewer.filters. cbn [existsb].
  change (Viewer.wildcard_match (qstr "*.tif") name)
    with (bool_decide
            (map Viewer.to_lower (drop (length name - 4) name)
             = map Viewer.to_lower (qstr ".tif"))).
  change (Viewer.wildcard_match (qstr "*.tiff") name)
    with (bool_decide
            (map Viewer.to_lower (drop (length name - 5) name)
             = map Viewer.to_lower (qstr ".tiff"))).
  change (Viewer.wildcard_match (qstr "*.TIF") name)
    with (bool_decide
            (map Viewer.to_lower (drop (length name - 4) name)
             = map Viewer.to_lower (qstr ".TIF"))).
  change (Viewer.wildcard_match (qstr "*.TIFF") name)
    with (bool_decide
            (map Viewer.to_lower (drop (length name - 5) name)
             = map Viewer.to_lower (qstr ".TIFF"))).
  rewrite L1, L2, L3, L4, orb_false_r. rewrite !orb_true_iff.
  rewrite !bool_decide_eq_true. split.
  - intros H.
    assert (H' : map Viewer.to_lower (drop (length name - 4) name)
                 = qstr ".tif"
                 \/ map Viewer.to_lower (drop (length name - 5) name)
                    = qstr ".tiff") by tauto.
    destruct H' as [E|E].
    + exists (take (length name - 4) name), (drop (length name - 4) name).
      rewrite take_drop. by split; [|left].
    + exists (take (length name - 5) name), (drop (length name - 5) name).
      rewrite take_drop. by split; [|right].
  - intros (stem & ext & -> & [E|E]).
    + left. assert (length ext = 4%nat)
        by (apply (f_equal length) in E; by rewrite length_map in E).
      rewrite length_app.
      replace (length stem + length ext - 4)%nat with (length stem) by lia.
      by rewrite drop_app_length.
    + right. left. assert (length ext = 5%nat)
        by (apply (f_equal length) in E; by rewrite length_map in E).
      rewrite length_app.
      replace (length stem + length ext - 5)%nat with (length stem) by lia.
      by rewrite drop_app_length.
Qed.

Lemma entryList_perm fs names names' :
  Permutation names names' ->
  Viewer.entryList fs names' = Viewer.entryList fs names.
Proof.
  intros Hperm. apply sorted_names_unique.
  - apply sort_names_sorted.
  - apply sort_names_sorted.
  - unfold Viewer.entryList. rewrite !sort_names_perm.
    apply filter_bool_perm. by apply Permutation_sym.
Qed.

Lemma sorted_map_seq (f : nat -> QString) n : forall a,
  (forall i k, (a <= i < k)%nat -> (k < a + n)%nat ->
     Viewer.name_le (f i) (f k) = true) ->
  StronglySorted (fun x y => Viewer.name_le x y = true) (map f (seq a n)).
Proof.
  induction n as [|n IH]; intros a Hf; cbn [seq map]; [constructor|].
  constructor.
  - apply IH. intros i k Hi Hk. apply Hf; lia.
  - apply Forall_forall. intros x Hx. apply list_elem_of_In in Hx.
    apply in_map_iff in Hx as (k & <- & Hk). apply in_seq in Hk.
    apply Hf; lia.
Qed.

End NameOrder.

(** X16. The frame files the viewer lists for a folder are exactly the
    files whose names end in [.tif] or [.tiff], in capitals or not, each
    once, and they are in the order of their names, character by
    character.  The list does not depend on the order in which the system
    lists the folder. *)
Theorem entryList_sorted_by_name (names : list QString) :
  let listed := Viewer.entryList Viewer.filters names in
  (forall name,
     In name listed
     <-> In name names
         /\ exists stem ext,
              name = stem ++ ext
              /\ (map Viewer.to_lower ext = qstr ".tif"
                  \/ map Viewer.to_lower ext = qstr ".tiff"))
  /\ (NoDup names -> NoDup listed)
  /\ StronglySorted (fun a b => lex_compare a b <> Gt) listed
  /\ (forall names',
        Permutation names names' ->
        Viewer.entryList Viewer.filters names' = listed).
Proof.
  intros listed.
  assert (Hp : Permutation listed
                 (List.filter
                    (fun n => existsb (fun f => Viewer.wildcard_match f n)
                                Viewer.filters) names))
    by apply sort_names_perm.
  split; [|split; [|split]].
  - intros name. split.
    + intros Hin. apply (Permutation_in _ Hp) in Hin.
      apply filter_In in Hin as [Hin Hm]. split; [done|].
      by apply filters_match.
    + intros [Hin Hm]. apply (Permutation_in _ (Permutation_sym Hp)).
      apply filter_In. split; [done|]. by apply filters_match.
  - intros Hnd. rewrite Hp. by apply NoDup_filter_bool.
  - eapply StronglySorted_weaken; [|apply sort_names_sorted].
    intros a b. apply name_le_spec.
  - intros names' Hperm. apply sorted_names_unique.
    + apply sort_names_sorted.
    + apply sort_names_sorted.
    + unfold listed, Viewer.entryList. rewrite !sort_names_perm.
      apply filter_bool_perm. by apply Permutation_sym.
Qed.

(** X17. The viewer reads a saved sequence back in the order of
    acquisition.  When the folder holds what a save thread wrote for a job
    of [N] frames ([1 <= N <= INT_MAX]), the [N] image files under their
    names and [capture_info.txt], listed by the system in whatever order,
    the frame files of the viewer after [loadFolder] are the paths the
    thread wrote to, file [i] of the viewer being the file of frame [i],
    and the slider runs from 0 to [N - 1]. *)
Theorem viewer_reads_back_in_order
  (env : Viewer.Env) (dirPath : QString) (j : SaveJob) (w : Viewer.Viewer) :
  let n := length (frames j) in
  let N := Z.of_nat n in
  let w' := Viewer.loadFolder env dirPath w in
  1 <= N <= INT_MAX ->
  Viewer.dir_exists env dirPath = true ->
  Viewer.absolutePath env dirPath = outDir j ->
  last (outDir j) <> Some "/"%char ->
  Permutation (Viewer.files_in env dirPath)
    (qstr "capture_info.txt"
       :: map (fun i => frame_file_name (index_width N) (Z.of_nat i))
            (seq 0 n)) ->
  Viewer.frameFiles w' = map (fun i => frame_path j (Z.of_nat i)) (seq 0 n)
  /\ Viewer.maximum (Viewer.slider w') = N - 1
  /\ Viewer.value (Viewer.slider w') = 0
  /\ (forall i, (i < n)%nat ->
      Viewer.frameFiles w' !! i = Some (frame_path j (Z.of_nat i))).
Proof.
  intros n N w' HN Hex Habs Hlast Hperm.
  set (name := fun i : nat => frame_file_name (index_width N) (Z.of_nat i))
    in *.
  set (D := Z.to_nat (Z.max 6 (ceil_log10 N))).
  assert (Hname : forall i, (i < n)%nat ->
            name i = fixed_digits D (Z.of_nat i) ++ qstr ".tiff"
            /\ 0 <= Z.of_nat i < 10 ^ Z.of_nat D).
  { intros i Hi.
    destruct (frame_file_name_padded N (Z.of_nat i)) as (E1 & E2 & E3);
      [done|unfold N; lia|].
    unfold name. rewrite E1, E2. split; [done|].
    unfold D. rewrite Z2Nat.id by lia. exact E3. }
  assert (Hlisted : Viewer.entryList Viewer.filters
                      (Viewer.files_in env dirPath)
                    = map name (seq 0 n)).
  { rewrite (entryList_perm _ _ _ (Permutation_sym Hperm)).
    unfold Viewer.entryList. cbn [List.filter].
    replace (existsb (fun f => Viewer.wildcard_match f
                                 (qstr "capture_info.txt")) Viewer.filters)
      with false by (vm_compute; reflexivity).
    rewrite filter_all_true.
    2:{ apply Forall_forall. intros x Hx. apply list_elem_of_In in Hx.
        apply in_map_iff in Hx as (i & <- & Hi). apply in_seq in Hi.
        apply filters_match.
        destruct (Hname i) as [-> _]; [lia|].
        exists (fixed_digits D (Z.of_nat i)), (qstr ".tiff").
        split; [done|]. right. vm_compute. reflexivity. }
    apply sorted_names_unique.
    - apply sort_names_sorted.
    - apply sorted_map_seq. intros i k Hik Hk.
      destruct (Hname i) as [-> Bi]; [lia|].
      destruct (Hname k) as [-> Bk]; [lia|].
      unfold Viewer.name_le. rewrite fixed_name_compare by done.
      replace (Z.of_nat i ?= Z.of_nat k) with Lt; [done|].
      symmetry. apply Z.compare_lt_iff. lia.
    - apply sort_names_perm. }
  assert (Hfiles : map (filePath (Viewer.absolutePath env dirPath))
                     (Viewer.entryList Viewer.filters
                        (Viewer.files_in env dirPath))
                   = map (fun i => frame_path j (Z.of_nat i)) (seq 0 n)).
  { rewrite Hlisted, map_map. apply map_ext. intros i.
    rewrite Habs, filePath_plain by done. reflexivity. }
  destruct (loadFolder_frame_state env dirPath w Hex) as (F1 & F2 & _).
  fold w' in F1, F2. rewrite Hfiles in F1, F2.
  rewrite length_map, length_seq in F2. fold N in F2.
  unfold INT_MAX in HN. rewrite (int_cast_small N) in F2 by lia.
  split; [exact F1|]. rewrite F2.
  cbn [Viewer.maximum Viewer.value]. split; [lia|]. split; [done|].
  intros i Hi. rewrite F1.
  rewrite list_lookup_fmap, lookup_seq_lt by done. reflexivity.
Qed.

Lemma viewer_reads_back_in_order_witness :
  Viewer.frameFiles Viewer.example_loaded
  = [qstr "C:/data/cap/000000.tiff"; qstr "C:/data/cap/000001.tiff"].
Proof.
  destruct (viewer_reads_back_in_order Viewer.example_env
              (qstr "C:/data/cap")
              (mkJob [frameA; frameB] (qstr "C:/data/cap") 2 FrameMeta_zero
                 (Double 10) [])
              (Viewer.set_folderEdit (qstr "C:/data/cap")
                 (Viewer.initial [])))
    as (Hf & _).
  - vm_compute. split; discriminate.
  - reflexivity.
  - reflexivity.
  - vm_compute. discriminate.
  - change (Viewer.files_in Viewer.example_env (qstr "C:/data/cap"))
      with [qstr "000001.tiff"; qstr "capture_info.txt"; qstr "000000.tiff"].
    change (map _ (seq 0 _)) with [qstr "000000.tiff"; qstr "000001.tiff"].
    rewrite (perm_swap (qstr "capture_info.txt") (qstr "000001.tiff")).
    apply perm_skip. apply perm_swap.
  - unfold Viewer.example_loaded. rewrite Hf. vm_compute. reflexivity.
Defined.
